(** * AI provider management: circuit breaker, response cache, selector,
      orchestrator

    A shallow embedding of
      - [src/lib/resilience/circuit-breaker.ts]  (class [CircuitBreaker]),
      - [src/lib/caching/content-cache.ts]       (class [ContentCache] and,
        in the second half of the same file, class [AIProviderManager]),
    followed by the properties of the provider-management specification.

    Conventions of the embedding.

    - A JavaScript method that mutates [this] and may throw is a function
      [S -> Outcome E A * S]: the state reached is returned on both the
      normal and the exceptional exit, because a [throw] does not undo the
      assignments made before it.
    - [Date.now()] and [performance.now()] are read from streams
      ([nat -> Z], [nat -> float]) through a cursor kept in the state: the n-th
      read returns the n-th element.  No assumption is made on the streams,
      so two reads inside one handler may differ.
    - Numbers that only ever hold integers (counters, millisecond
      timestamps, token counts, lengths) are [Z].  The other numbers
      (prices, rates, latencies, costs, scores) are IEEE 754 binary64
      values, the kernel's [PrimFloat.float]: every operation rounds as
      the JavaScript operation does, and a division by zero gives an
      infinity or [NaN].
    - Strings are [string]; a character stands for one UTF-16 code unit. *)

From Stdlib Require Import ZArith QArith Qround List String Bool Lia.
From Stdlib Require Import Permutation Sorted.
From Stdlib Require Floats.
Import ListNotations.

Set Implicit Arguments.
#[local] Set Warnings "-inexact-float".

(* ===================================================================== *)
(** * Exceptions and state                                                 *)
(* ===================================================================== *)

Inductive Outcome (E A : Type) : Type :=
| Ok (a : A)
| Throw (e : E).
Arguments Ok {E A} a.
Arguments Throw {E A} e.

Definition M (S E A : Type) : Type := S -> Outcome E A * S.

Definition ret {S E A} (a : A) : M S E A := fun s => (Ok a, s).

Definition throw {S E A} (e : E) : M S E A := fun s => (Throw e, s).

Definition bind {S E A B} (c : M S E A) (k : A -> M S E B) : M S E B :=
  fun s =>
    match c s with
    | (Ok a, s') => k a s'
    | (Throw e, s') => (Throw e, s')
    end.

(** [try { c } catch (e) { h e }] *)
Definition try_catch {S E A} (c : M S E A) (h : E -> M S E A) : M S E A :=
  fun s =>
    match c s with
    | (Ok a, s') => (Ok a, s')
    | (Throw e, s') => h e s'
    end.

Definition gets {S E A} (f : S -> A) : M S E A := fun s => (Ok (f s), s).

Definition modify {S E} (f : S -> S) : M S E unit := fun s => (Ok tt, f s).

Declare Scope js_scope.
Delimit Scope js_scope with js.
Notation "x <- c ;; k" := (bind c (fun x => k))
  (at level 61, c at next level, right associativity) : js_scope.
Notation "c ;; k" := (bind c (fun _ => k))
  (at level 61, right associativity) : js_scope.

Definition is_ok {E A} (o : Outcome E A) : bool :=
  match o with Ok _ => true | Throw _ => false end.

(* ===================================================================== *)
(** * JavaScript numbers                                                   *)
(* ===================================================================== *)

Module Number.

Import PrimFloat SpecFloat FloatOps.
Local Open Scope float_scope.

(** A JavaScript number. *)
Definition number : Set := float.
Bind Scope float_scope with number.

(** An integer as a number (rounded to nearest, ties to even, beyond
    2^53). *)
Definition of_Z (z : Z) : number :=
  SF2Prim (binary_normalize prec emax z 0 false).

(** [Math.round(x)]: [x] itself when it is not finite or already an
    integer; otherwise the nearest integer, halves toward plus infinity,
    and a zero of the sign of [x] when that integer is zero.  The value of
    a finite [x] is [m * 2 ^ e], negated when [s] is set. *)
Definition Math_round (x : number) : number :=
  match Prim2SF x with
  | S754_finite s m e =>
      if (0 <=? e)%Z then x
      else
        let n := Z.shiftr (2 * (if s then Z.neg m else Z.pos m) + 2 ^ (- e))
                   (- e + 1) in
        if (n =? 0)%Z then (if s then neg_zero else zero) else of_Z n
  | _ => x
  end.

(** [if (x)] on a number: false for [0], [-0] and [NaN]. *)
Definition truthy (x : number) : bool := negb (x =? 0) && (x =? x).

(** The rational value of a finite number (0 for the others); used to
    state what a formula gives in exact arithmetic. *)
Definition to_Q (x : number) : Q :=
  match Prim2SF x with
  | S754_finite s m e =>
      (inject_Z (if s then Z.neg m else Z.pos m)
       * (if (0 <=? e)%Z then inject_Z (2 ^ e) else 1 # Z.to_pos (2 ^ (- e))))%Q
  | _ => 0%Q
  end.

End Number.

(* ===================================================================== *)
(** * Circuit breaker  (src/lib/resilience/circuit-breaker.ts)             *)
(* ===================================================================== *)

Module CircuitBreaker.

Local Open Scope Z_scope.
Local Open Scope js_scope.

Record CircuitBreakerConfig : Type := {
  failureThreshold : Z;   (* number of failures before opening *)
  timeoutWindow : Z;      (* ms *)
  recoveryTimeout : Z;    (* ms before attempting to recover *)
  monitorWindow : Z       (* ms *)
}.

Inductive CircuitState : Type := CLOSED | OPEN | HALF_OPEN.

(** The private fields of a [CircuitBreaker] instance. *)
Record Breaker : Type := {
  name : string;
  config : CircuitBreakerConfig;
  state : CircuitState;
  failureCount : Z;
  lastFailureTime : Z;
  nextAttemptTime : Z;
  successCount : Z
}.

(** [new CircuitBreaker(name, config)] *)
Definition new (n : string) (c : CircuitBreakerConfig) : Breaker :=
  {| name := n; config := c; state := CLOSED; failureCount := 0;
     lastFailureTime := 0; nextAttemptTime := 0; successCount := 0 |}.

Definition set_state (v : CircuitState) (b : Breaker) : Breaker :=
  {| name := name b; config := config b; state := v;
     failureCount := failureCount b; lastFailureTime := lastFailureTime b;
     nextAttemptTime := nextAttemptTime b; successCount := successCount b |}.
Definition set_failureCount (v : Z) (b : Breaker) : Breaker :=
  {| name := name b; config := config b; state := state b;
     failureCount := v; lastFailureTime := lastFailureTime b;
     nextAttemptTime := nextAttemptTime b; successCount := successCount b |}.
Definition set_lastFailureTime (v : Z) (b : Breaker) : Breaker :=
  {| name := name b; config := config b; state := state b;
     failureCount := failureCount b; lastFailureTime := v;
     nextAttemptTime := nextAttemptTime b; successCount := successCount b |}.
Definition set_nextAttemptTime (v : Z) (b : Breaker) : Breaker :=
  {| name := name b; config := config b; state := state b;
     failureCount := failureCount b; lastFailureTime := lastFailureTime b;
     nextAttemptTime := v; successCount := successCount b |}.
Definition set_successCount (v : Z) (b : Breaker) : Breaker :=
  {| name := name b; config := config b; state := state b;
     failureCount := failureCount b; lastFailureTime := lastFailureTime b;
     nextAttemptTime := nextAttemptTime b; successCount := v |}.

(** What [execute] can throw: its own rejection
    ([new Error(`Circuit breaker ${name} is OPEN`)]) or the error of the
    wrapped operation, rethrown unchanged. *)
Inductive Error (X : Type) : Type :=
| BreakerOpen (breaker_name : string)
| OperationError (x : X).
Arguments BreakerOpen {X} breaker_name.
Arguments OperationError {X} x.

Section Breaker.

(** The world outside the breaker: the [Date.now()] cursor and whatever the
    wrapped operations act on. *)
Variable U : Type.
Variable X : Type.             (* errors thrown by wrapped operations *)
Variable Date_now : nat -> Z.  (* the successive readings of the clock *)

Record World : Type := {
  dateReads : nat;
  ext : U
}.

(** A breaker instance together with the world; [invoked] counts the calls
    [operation()] made by [execute]. *)
Record Sys : Type := {
  brk : Breaker;
  world : World;
  invoked : nat
}.

(** [() => Promise<T>] *)
Definition Operation (T : Type) : Type := World -> Outcome X T * World.

Definition always_succeeds {T} (op : Operation T) : Prop :=
  forall w, is_ok (fst (op w)) = true.

Definition always_fails {T} (op : Operation T) : Prop :=
  forall w, is_ok (fst (op w)) = false.

Definition now {E} : M Sys E Z :=
  fun s =>
    (Ok (Date_now (dateReads (world s))),
     {| brk := brk s;
        world := {| dateReads := S (dateReads (world s));
                    ext := ext (world s) |};
        invoked := invoked s |}).

Definition this {E A} (f : Breaker -> A) : M Sys E A :=
  fun s => (Ok (f (brk s)), s).

Definition assign {E} (f : Breaker -> Breaker) : M Sys E unit :=
  fun s => (Ok tt, {| brk := f (brk s); world := world s;
                      invoked := invoked s |}).

(** [await operation()] *)
Definition call {T} (op : Operation T) : M Sys (Error X) T :=
  fun s =>
    let s' w := {| brk := brk s; world := w; invoked := S (invoked s) |} in
    match op (world s) with
    | (Ok v, w) => (Ok v, s' w)
    | (Throw x, w) => (Throw (OperationError x), s' w)
    end.

(** [private reset()] *)
Definition reset {E} : M Sys E unit :=
  assign (set_state CLOSED) ;;
  assign (set_failureCount 0) ;;
  assign (set_successCount 0) ;;
  assign (set_lastFailureTime 0) ;;
  assign (set_nextAttemptTime 0).

(** [private open()] *)
Definition open {E} : M Sys E unit :=
  assign (set_state OPEN) ;;
  t <- now ;;
  rt <- this (fun b => recoveryTimeout (config b)) ;;
  assign (set_nextAttemptTime (t + rt)).

(** [private onSuccess()] *)
Definition onSuccess {E} : M Sys E unit :=
  st <- this state ;;
  match st with
  | HALF_OPEN =>
      sc <- this successCount ;;
      assign (set_successCount (sc + 1)) ;;
      sc' <- this successCount ;;
      if 5 <=? sc' then reset else ret tt
  | CLOSED =>
      t <- now ;;
      lf <- this lastFailureTime ;;
      tw <- this (fun b => timeoutWindow (config b)) ;;
      if tw <? t - lf then assign (set_failureCount 0) else ret tt
  | OPEN => ret tt
  end.

(** [private onFailure()] *)
Definition onFailure {E} : M Sys E unit :=
  fc <- this failureCount ;;
  assign (set_failureCount (fc + 1)) ;;
  t <- now ;;
  assign (set_lastFailureTime t) ;;
  st <- this state ;;
  fc' <- this failureCount ;;
  th <- this (fun b => failureThreshold (config b)) ;;
  match st with
  | HALF_OPEN => open
  | _ => if th <=? fc' then open else ret tt
  end.

(** The [if (this.state === CircuitState.OPEN)] block that opens
    [execute]: reject, or move to [HALF_OPEN]. *)
Definition gate : M Sys (Error X) unit :=
  st <- this state ;;
  match st with
  | OPEN =>
      t <- now ;;
      nat_ <- this nextAttemptTime ;;
      if t <? nat_ then
        n <- this name ;;
        throw (BreakerOpen n)
      else
        assign (set_state HALF_OPEN) ;;
        assign (set_successCount 0)
  | _ => ret tt
  end.

(** The [try]/[catch] block that ends [execute]. *)
Definition attempt {T} (operation : Operation T) : M Sys (Error X) T :=
  try_catch
    (result <- call operation ;;
     onSuccess ;;
     ret result)
    (fun error => onFailure ;; throw error).

(** [async execute<T>(operation)] *)
Definition execute {T} (operation : Operation T) : M Sys (Error X) T :=
  gate ;;
  attempt operation.

(** Calls of [execute] in a row, one per operation of [ops]; a call that
    throws does not stop the sequence (the caller catches and goes on). *)
Fixpoint execute_all {T} (ops : list (Operation T)) (s : Sys) : Sys :=
  match ops with
  | [] => s
  | op :: rest => execute_all rest (snd (execute op s))
  end.

(** The object returned by [getStatus()]; a [null] date is [None]. *)
Record Status : Type := {
  status_name : string;
  status_state : CircuitState;
  status_failureCount : Z;
  status_successCount : Z;
  status_nextAttemptTime : option Z;
  isAvailable : bool
}.

(** [getStatus()]; the clock is read only when the state is [HALF_OPEN]
    (the right operand of [||], then of [&&]). *)
Definition getStatus {E} : M Sys E Status :=
  b <- this (fun b => b) ;;
  available <-
    match state b with
    | CLOSED => ret true
    | HALF_OPEN => t <- now ;; ret (nextAttemptTime b <=? t)
    | OPEN => ret false
    end ;;
  ret {| status_name := name b;
         status_state := state b;
         status_failureCount := failureCount b;
         status_successCount := successCount b;
         status_nextAttemptTime :=
           if 0 <? nextAttemptTime b then Some (nextAttemptTime b) else None;
         isAvailable := available |}.

End Breaker.

(** The pre-configured breakers of the module. *)
Definition authCircuitBreaker : Breaker :=
  new "authentication"
    {| failureThreshold := 5; timeoutWindow := 60000;
       recoveryTimeout := 30000; monitorWindow := 120000 |}.

Definition paymentCircuitBreaker : Breaker :=
  new "payment"
    {| failureThreshold := 3; timeoutWindow := 30000;
       recoveryTimeout := 60000; monitorWindow := 300000 |}.

Definition socialMediaCircuitBreaker : Breaker :=
  new "social-media"
    {| failureThreshold := 10; timeoutWindow := 120000;
       recoveryTimeout := 30000; monitorWindow := 180000 |}.

Definition aiContentCircuitBreaker : Breaker :=
  new "ai-content"
    {| failureThreshold := 8; timeoutWindow := 90000;
       recoveryTimeout := 45000; monitorWindow := 240000 |}.

(** ** A concrete run, used to exercise the statements *)

(** A clock that advances ten seconds per reading. *)
Definition sample_clock (n : nat) : Z := Z.of_nat n * 10000.

Definition sample_ok : Operation unit unit Z := fun w => (Ok 42, w).

Definition sample_fail : Operation unit unit Z := fun w => (Throw tt, w).

Definition sample_sys (b : Breaker) (reads : nat) : Sys unit :=
  {| brk := b; world := {| dateReads := reads; ext := tt |}; invoked := 0 |}.

(** The payment breaker after three failed calls. *)
Definition sample_tripped : Sys unit :=
  execute_all sample_clock [sample_fail; sample_fail; sample_fail]
    (sample_sys paymentCircuitBreaker 0).

(** The same breaker, looked at after the recovery timeout. *)
Definition sample_tripped_later : Sys unit :=
  sample_sys (brk sample_tripped) 9.

Definition sample_half_open : Sys unit :=
  sample_sys (set_state HALF_OPEN (brk sample_tripped)) 10.

End CircuitBreaker.

(* ===================================================================== *)
(** * JavaScript [Map] with string keys                                    *)
(* ===================================================================== *)

(** A [Map<string, A>] is the list of its entries in insertion order, keys
    pairwise distinct: iteration order is observable (LRU scan, registry
    order of the providers). *)
Module JSMap.

Section JSMap.
Variable A : Type.

Definition t : Type := list (string * A).

Fixpoint get (k : string) (m : t) : option A :=
  match m with
  | [] => None
  | (k', v) :: rest => if String.eqb k' k then Some v else get k rest
  end.

(** [m.set(k, v)]: an existing key keeps its position. *)
Fixpoint set (k : string) (v : A) (m : t) : t :=
  match m with
  | [] => [(k, v)]
  | (k', v') :: rest =>
      if String.eqb k' k then (k', v) :: rest else (k', v') :: set k v rest
  end.

Fixpoint delete (k : string) (m : t) : t :=
  match m with
  | [] => []
  | (k', v') :: rest =>
      if String.eqb k' k then rest else (k', v') :: delete k rest
  end.

Definition values (m : t) : list A := List.map snd m.

Definition size (m : t) : Z := Z.of_nat (List.length m).

End JSMap.

End JSMap.

(* ===================================================================== *)
(** * Content cache  (src/lib/caching/content-cache.ts, first half)        *)
(* ===================================================================== *)

Module ContentCache.

Local Open Scope Z_scope.

Section Cache.
Variable V : Type.
Variable Date_now : nat -> Z.

Record CacheEntry : Type := {
  key : string;
  value : V;
  expiresAt : Z;
  createdAt : Z;
  accessCount : Z;
  lastAccessed : Z
}.

(** The private fields of a [ContentCache] instance. *)
Record t : Type := {
  cache : JSMap.t CacheEntry;
  maxSize : Z;
  defaultTTL : Z;
  hits : Z;
  misses : Z
}.

(** [x || d] on a number that may be absent: [undefined] and [0] are
    falsy. *)
Definition or_default (x : option Z) (d : Z) : Z :=
  match x with
  | Some v => if v =? 0 then d else v
  | None => d
  end.

(** [new ContentCache({ maxSize, defaultTTL })] *)
Definition new (maxSize_ defaultTTL_ : option Z) : t :=
  {| cache := [];
     maxSize := or_default maxSize_ 1000;
     defaultTTL := or_default defaultTTL_ (60 * 60 * 1000);
     hits := 0; misses := 0 |}.

Definition with_cache (m : JSMap.t CacheEntry) (c : t) : t :=
  {| cache := m; maxSize := maxSize c; defaultTTL := defaultTTL c;
     hits := hits c; misses := misses c |}.

Definition touch (n2 : Z) (e : CacheEntry) : CacheEntry :=
  {| key := key e; value := value e; expiresAt := expiresAt e;
     createdAt := createdAt e; accessCount := accessCount e + 1;
     lastAccessed := n2 |}.

(** [get<T>(key)].  The second component is the [Date.now()] cursor: a hit
    reads the clock three times (expiry test, [lastAccessed], the age in
    the debug record), an expired entry once, a missing key never. *)
Definition get (k : string) (n : nat) (c : t) : option V * nat * t :=
  match JSMap.get k (cache c) with
  | None =>
      (None, n,
       {| cache := cache c; maxSize := maxSize c; defaultTTL := defaultTTL c;
          hits := hits c; misses := misses c + 1 |})
  | Some entry =>
      if expiresAt entry <? Date_now n then
        (None, S n,
         {| cache := JSMap.delete k (cache c); maxSize := maxSize c;
            defaultTTL := defaultTTL c;
            hits := hits c; misses := misses c + 1 |})
      else
        (Some (value entry), S (S (S n)),
         {| cache := JSMap.set k (touch (Date_now (S n)) entry) (cache c);
            maxSize := maxSize c; defaultTTL := defaultTTL c;
            hits := hits c + 1; misses := misses c |})
  end.

(** The scan of [evictLRU]: the first entry with the strictly smallest
    [lastAccessed] below the starting [lruTime]. *)
Fixpoint lru_scan (m : JSMap.t CacheEntry) (lruKey : option string)
    (lruTime : Z) : option string :=
  match m with
  | [] => lruKey
  | (k, entry) :: rest =>
      if lastAccessed entry <? lruTime
      then lru_scan rest (Some k) (lastAccessed entry)
      else lru_scan rest lruKey lruTime
  end.

(** [private evictLRU()]; [if (lruKey)] is false for the empty string. *)
Definition evictLRU (n : nat) (c : t) : nat * t :=
  match lru_scan (cache c) None (Date_now n) with
  | Some k =>
      if String.eqb k "" then (S n, c)
      else (S n, with_cache (JSMap.delete k (cache c)) c)
  | None => (S n, c)
  end.

(** [set<T>(key, value, ttl?)] *)
Definition set (k : string) (v : V) (ttl : option Z) (n : nat) (c : t)
  : nat * t :=
  let now := Date_now n in
  let expirationTime := or_default ttl (defaultTTL c) in
  let '(n1, c1) :=
    if maxSize c <=? JSMap.size (cache c) then evictLRU (S n) c
    else (S n, c) in
  let entry :=
    {| key := k; value := v; expiresAt := now + expirationTime;
       createdAt := now; accessCount := 0; lastAccessed := now |} in
  (n1, with_cache (JSMap.set k entry (cache c1)) c1).

(** [has(key)]: an expired entry is deleted; the counters are not
    touched. *)
Definition has (k : string) (n : nat) (c : t) : bool * nat * t :=
  match JSMap.get k (cache c) with
  | None => (false, n, c)
  | Some entry =>
      if expiresAt entry <? Date_now n
      then (false, S n, with_cache (JSMap.delete k (cache c)) c)
      else (true, S n, c)
  end.

(** [delete(key)]: the result of [Map.prototype.delete]. *)
Definition delete (k : string) (c : t) : bool * t :=
  match JSMap.get k (cache c) with
  | Some _ => (true, with_cache (JSMap.delete k (cache c)) c)
  | None => (false, c)
  end.

(** [clear()] *)
Definition clear (c : t) : t :=
  {| cache := []; maxSize := maxSize c; defaultTTL := defaultTTL c;
     hits := 0; misses := 0 |}.

(** The loop of [cleanup]: [entries] is what is left to visit, [m] the
    map as it stands. *)
Fixpoint cleanup_loop (now : Z) (entries m : JSMap.t CacheEntry)
    (removedCount : Z) : JSMap.t CacheEntry * Z :=
  match entries with
  | [] => (m, removedCount)
  | (k, entry) :: rest =>
      if expiresAt entry <? now
      then cleanup_loop now rest (JSMap.delete k m) (removedCount + 1)
      else cleanup_loop now rest m removedCount
  end.

(** [cleanup()] *)
Definition cleanup (n : nat) (c : t) : Z * nat * t :=
  let now := Date_now n in
  let '(m, removedCount) := cleanup_loop now (cache c) (cache c) 0 in
  (removedCount, S n, with_cache m c).

(** [interface CacheStats] *)
Record CacheStats : Type := {
  totalEntries : Z;
  hitRate : Number.number;
  missRate : Number.number;
  totalHits : Z;
  totalMisses : Z;
  memoryUsage : Z;
  oldestEntry : Z;
  newestEntry : Z
}.

(** [JSON.stringify(value).length] *)
Variable jsonLength : V -> Z.

(** [private estimateMemoryUsage()] *)
Definition estimateMemoryUsage (c : t) : Z :=
  fold_left
    (fun totalSize entry =>
       totalSize + jsonLength (value entry) * 2
       + Z.of_nat (String.length (key entry)) * 2 + 64)
    (JSMap.values (cache c)) 0.

(** [Math.min(...xs)] and [Math.max(...xs)] on a non-empty array. *)
Definition Math_min (x : Z) (xs : list Z) : Z := fold_left Z.min xs x.
Definition Math_max (x : Z) (xs : list Z) : Z := fold_left Z.max xs x.

(** [getStats()] *)
Definition getStats (c : t) : CacheStats :=
  let entries := JSMap.values (cache c) in
  let totalRequests := hits c + misses c in
  {| totalEntries := JSMap.size (cache c);
     hitRate := if 0 <? totalRequests
                then PrimFloat.div (Number.of_Z (hits c))
                       (Number.of_Z totalRequests)
                else PrimFloat.zero;
     missRate := if 0 <? totalRequests
                 then PrimFloat.div (Number.of_Z (misses c))
                        (Number.of_Z totalRequests)
                 else PrimFloat.zero;
     totalHits := hits c;
     totalMisses := misses c;
     memoryUsage := estimateMemoryUsage c;
     oldestEntry := match List.map createdAt entries with
                    | [] => 0
                    | x :: xs => Math_min x xs
                    end;
     newestEntry := match List.map createdAt entries with
                    | [] => 0
                    | x :: xs => Math_max x xs
                    end |}.

End Cache.

(** ** Key helpers (static methods) *)

(** [ToInt32] on an integer. *)
Definition toInt32 (z : Z) : Z := (z + 2 ^ 31) mod 2 ^ 32 - 2 ^ 31.

(** [str.charCodeAt(i)] for every [i]. *)
Fixpoint charCodes (s : string) : list Z :=
  match s with
  | EmptyString => []
  | String c rest => Z.of_N (Ascii.N_of_ascii c) :: charCodes rest
  end.

(** The body of the loop of [hashString]:
    [hash = ((hash << 5) - hash) + char; hash = hash & hash]. *)
Definition hashStep (hash char : Z) : Z :=
  let hash := toInt32 (Z.shiftl (toInt32 hash) 5) - hash + char in
  Z.land (toInt32 hash) (toInt32 hash).

(** The value of [hash] when the loop of [hashString] ends. *)
Definition hashValue (str : string) : Z :=
  fold_left hashStep (charCodes str) 0.

Definition digit36 (d : Z) : string :=
  String.substring (Z.to_nat d) 1 "0123456789abcdefghijklmnopqrstuvwxyz".

(** [n.toString(36)] for a non-negative integer below 36 ^ fuel. *)
Fixpoint toString36_aux (fuel : nat) (n : Z) (acc : string) : string :=
  match fuel with
  | O => acc
  | S fuel' =>
      let acc' := (digit36 (n mod 36) ++ acc)%string in
      if n / 36 =? 0 then acc' else toString36_aux fuel' (n / 36) acc'
  end.

Definition toString36 (n : Z) : string := toString36_aux 8 n "".

(** [private static hashString(str)]; hash values have at most 32 bits,
    hence at most seven digits in base 36. *)
Definition hashString (str : string) : string :=
  match str with
  | EmptyString => "0"
  | _ => toString36 (Z.abs (hashValue str))
  end.

Section Keys.

(** [JSON.stringify(obj, Object.keys(obj).sort())] for the objects of
    type [O] handed to [hashObject]. *)
Variable O : Type.
Variable stringifySorted : O -> string.

(** [private static hashObject(obj)] *)
Definition hashObject (obj : O) : string :=
  hashString (stringifySorted obj).

(** [static getContentKey(prompt, options)] *)
Definition getContentKey (prompt : string) (options : O) : string :=
  ("content:" ++ hashString prompt ++ ":" ++ hashObject options)%string.

(** [static getApiKey(endpoint, params)] *)
Definition getApiKey (endpoint : string) (params : O) : string :=
  ("api:" ++ endpoint ++ ":" ++ hashObject params)%string.

(** [arr.sort()] on strings: ascending by code units, by insertion. *)
Fixpoint insert_sorted (x : string) (sorted : list string) : list string :=
  match sorted with
  | [] => [x]
  | y :: rest =>
      if String.leb x y then x :: y :: rest else y :: insert_sorted x rest
  end.

Definition sort_strings (xs : list string) : list string :=
  fold_right insert_sorted [] xs.

(** [static getBrandAssetKey(companyInfo, assetTypes)]; [sort] works in
    place, so the caller's array is returned along with the key. *)
Definition getBrandAssetKey (companyInfo : O) (assetTypes : list string)
  : string * list string :=
  let assetTypes' := sort_strings assetTypes in
  let companyHash := hashObject companyInfo in
  let assetsHash := hashString (String.concat "," assetTypes') in
  (("brand:" ++ companyHash ++ ":" ++ assetsHash)%string, assetTypes').

End Keys.

(** ** Concrete caches, used to exercise the statements *)

(** A clock that advances one second per reading, and one that stands
    still. *)
Definition sample_clock (n : nat) : Z := Z.of_nat n * 1000.
Definition frozen_clock (n : nat) : Z := 7000.

(** A cache of capacity two, filled by two [set]s. *)
Definition sample_two : t Z :=
  snd (set sample_clock "b" 20 None 1
         (snd (set sample_clock "a" 10 None 0
                 (new Z (Some 2) (Some 5000))))).

(** The same, filled within one millisecond. *)
Definition sample_burst : t Z :=
  snd (set frozen_clock "b" 20 None 1
         (snd (set frozen_clock "a" 10 None 0
                 (new Z (Some 2) (Some 5000))))).

(** Every cached number takes two characters once serialised. *)
Definition sample_jsonLength (z : Z) : Z := 2.

Definition sample_entry_a : CacheEntry Z :=
  {| key := "a"; value := 10; expiresAt := 5000; createdAt := 0;
     accessCount := 0; lastAccessed := 0 |}.

End ContentCache.

(* ===================================================================== *)
(** * Provider manager  (src/lib/caching/content-cache.ts, second half)    *)
(* ===================================================================== *)

Module AIProviderManager.

Import PrimFloat.
Local Open Scope Z_scope.

Definition number : Set := Number.number.
Bind Scope float_scope with number.

(** ** Data model *)

Inductive ProviderType : Type := openai | anthropic | google | azure | cohere.
Inductive ModelType : Type := text | image | embedding | audio.
Inductive CostTier : Type := tier_low | tier_medium | tier_high | tier_premium.
Inductive ProviderStatus : Type := active | degraded | offline.
Inductive RequestType : Type :=
  text_generation | image_generation | embedding_request | analysis.
Inductive Priority : Type := low | normal | high | urgent.
Inductive LoadBalancingType : Type :=
  round_robin | least_cost | best_performance | adaptive.

Record AIModel : Type := {
  model_id : string;
  model_name : string;
  model_type : ModelType;
  model_maxTokens : Z;
  contextWindow : Z;
  capabilities : list string;
  costTier : CostTier
}.

Record Pricing : Type := {
  inputTokens : number;    (* cost per 1K tokens *)
  outputTokens : number    (* cost per 1K tokens *)
}.

Record Limits : Type := {
  requestsPerMinute : Z;
  tokensPerMinute : Z;
  dailySpend : Z
}.

Record Performance : Type := {
  averageLatency : number;
  successRate : number;
  lastFailure : option Z
}.

(** [interface AIProvider]; the [client] handle is represented by the
    [client_create] oracle of the environment, keyed by provider id. *)
Record AIProvider : Type := {
  id : string;
  name : string;
  provider_type : ProviderType;
  models : list AIModel;
  pricing : Pricing;
  limits : Limits;
  performance : Performance;
  status : ProviderStatus
}.

Record Requirements : Type := {
  minQuality : option number;
  maxLatency : option number;
  requiresReasoning : option bool
}.

Record AIRequest : Type := {
  request_type : RequestType;
  prompt : string;
  maxTokens : option Z;
  temperature : option number;
  model : option string;
  priority : option Priority;
  budget : option number;
  requirements : option Requirements
}.

Record Usage : Type := {
  usage_inputTokens : Z;
  usage_outputTokens : Z;
  totalTokens : Z;
  cost : number       (* in cents *)
}.

Record Metrics : Type := {
  latency : number;
  quality : option number;
  satisfaction : option number
}.

Record AIResponse : Type := {
  content : string;
  response_model : string;
  provider : string;
  usage : Usage;
  metrics : Metrics
}.

(** An element of [requestHistory]. *)
Record HistoryRecord : Type := {
  timestamp : Z;
  providerId : string;
  success : bool;
  record_cost : number;
  record_latency : number
}.

(** The object literal serialised by [getCacheKey]. *)
Record CacheKeyObject : Type := {
  key_type : RequestType;
  key_prompt : string;
  key_maxTokens : option Z;
  key_temperature : option number
}.

(** What a vendor SDK call resolves to, with the vendor-specific field
    names merged: [prompt_tokens]/[input_tokens],
    [completion_tokens]/[output_tokens], and [total_tokens] (OpenAI
    only).  A missing [usage] is all zeros, as in the source. *)
Record BackendReply : Type := {
  reply_text : string;
  reply_inputTokens : Z;
  reply_outputTokens : Z;
  reply_totalTokens : option Z
}.

(** What the manager takes from outside: the two clocks, the vendor SDKs,
    and the library functions used to build the cache key.
    [client_create n pid mid request] is the result of the SDK call issued
    as the n-th backend call of the run ([None]: the promise rejects).
    [estimateQuality] is the heuristic quality score of the source; none
    of the properties below depends on its value. *)
Record Env : Type := {
  Date_now : nat -> Z;
  performance_now : nat -> number;
  client_create : nat -> string -> string -> AIRequest -> option BackendReply;
  estimateQuality : string -> AIRequest -> number;
  JSON_stringify : CacheKeyObject -> string;
  base64 : string -> string
}.

Inductive Error : Type :=
| NoAvailableProviders            (* new Error('No available AI providers') *)
| AllProvidersFailed              (* new Error('All providers failed') *)
| ProviderCallFailed (pid : string) (call : nat)  (* the SDK call rejected *)
| TypeError.                      (* property read on [undefined] *)

(** The private fields of the manager, the module-level [apiCache], the
    two clock cursors, and two logs kept for the statements:
    [attempted] lists the providers handed to [executeRequest],
    [contacted] those whose SDK client was actually called (oldest
    first). *)
Record State : Type := {
  providers : JSMap.t AIProvider;
  requestHistory : list HistoryRecord;
  loadBalancer : LoadBalancingType;
  failoverEnabled : bool;
  apiCache : ContentCache.t AIResponse;
  dateReads : nat;
  perfReads : nat;
  attempted : list string;
  contacted : list string
}.

(** ** Pure helpers *)

Definition ProviderStatus_eqb (a b : ProviderStatus) : bool :=
  match a, b with
  | active, active | degraded, degraded | offline, offline => true
  | _, _ => false
  end.

(** [if (x)] on a number that may be absent. *)
Definition truthyNumber (x : option number) : bool :=
  match x with Some v => Number.truthy v | None => false end.

(** [request.requirements?.requiresReasoning] *)
Definition wantsReasoning (request : AIRequest) : bool :=
  match requirements request with
  | Some rq => match requiresReasoning rq with Some b => b | None => false end
  | None => false
  end.

Definition is_text_generation (t : RequestType) : bool :=
  match t with text_generation => true | _ => false end.

Definition is_text (t : ModelType) : bool :=
  match t with text => true | _ => false end.

(** The predicate shared by [hasCapableModel] and [selectModel]. *)
Definition suits (request : AIRequest) (m : AIModel) : bool :=
  if is_text_generation (request_type request)
     && negb (is_text (model_type m)) then false
  else if match maxTokens request with
          | Some mt => negb (mt =? 0) && (model_maxTokens m <? mt)
          | None => false
          end then false
  else if wantsReasoning request
          && negb (existsb (String.eqb "reasoning") (capabilities m))
       then false
  else true.

(** [private hasCapableModel(provider, request)] *)
Definition hasCapableModel (p : AIProvider) (request : AIRequest) : bool :=
  existsb (suits request) (models p).

(** [private estimateTokens(text)]: [Math.ceil(text.length / 4)] *)
Definition estimateTokens (text : string) : Z :=
  (Z.of_nat (String.length text) + 3) / 4.

(** [private calculateCost(provider, inputTokens, outputTokens)], cents *)
Definition calculateCost (p : AIProvider) (inTok outTok : Z) : number :=
  let inputCost :=
    ((Number.of_Z inTok / 1000) * inputTokens (pricing p))%float in
  let outputCost :=
    ((Number.of_Z outTok / 1000) * outputTokens (pricing p))%float in
  Number.Math_round ((inputCost + outputCost) * 100)%float.

(** [request.maxTokens || 1000] *)
Definition outputEstimate (request : AIRequest) : Z :=
  ContentCache.or_default (maxTokens request) 1000.

Definition estimatedCost (request : AIRequest) (p : AIProvider) : number :=
  calculateCost p (estimateTokens (prompt request)) (outputEstimate request).

(** [xs.reduce(f)] without initial value; [None] is the [TypeError] on an
    empty array. *)
Definition reduce1 {A} (f : A -> A -> A) (xs : list A) : option A :=
  match xs with
  | [] => None
  | x :: rest => Some (fold_left f rest x)
  end.

(** [private selectByCost(providers, request)] *)
Definition selectByCost (ps : list AIProvider) (request : AIRequest)
  : option AIProvider :=
  reduce1 (fun cheapest current =>
             let cheapestCost := estimatedCost request cheapest in
             let currentCost := estimatedCost request current in
             if (currentCost <? cheapestCost)%float then current
             else cheapest) ps.

Definition performanceScore (p : AIProvider) : number :=
  (successRate (performance p)
   * (1000 / averageLatency (performance p)))%float.

(** [private selectByPerformance(providers)] *)
Definition selectByPerformance (ps : list AIProvider) : option AIProvider :=
  reduce1 (fun best current =>
             if (performanceScore best <? performanceScore current)%float
             then current else best) ps.

(** The score computed per provider in [selectAdaptively]. *)
Definition adaptiveScore (request : AIRequest) (p : AIProvider) : number :=
  (let score := 0 in
   let score := score + successRate (performance p) * 40 in
   let score := score + (1000 / averageLatency (performance p)) * 30 in
   let estimatedCost_ := estimatedCost request p in
   let score := score + (100 - estimatedCost_) * 20 / 100 in
   match priority request with
   | Some urgent => score + successRate (performance p) * 10
   | Some low => score + (100 - estimatedCost_) * 10 / 100
   | _ => score
   end)%float.

(** [private selectAdaptively(providers, request)] *)
Definition selectAdaptively (ps : list AIProvider) (request : AIRequest)
  : option AIProvider :=
  let scores := List.map (fun p => (p, adaptiveScore request p)) ps in
  option_map fst
    (reduce1 (fun best current =>
                if (snd best <? snd current)%float then current else best)
             scores).

(** [private selectRoundRobin(providers)]; with no active provider the
    index is [NaN] and the result [undefined]. *)
Definition selectRoundRobin (ps : list AIProvider) (historyLength : nat)
  : option AIProvider :=
  let activeProviders :=
    filter (fun p => ProviderStatus_eqb (status p) active) ps in
  match List.length activeProviders with
  | O => None
  | S _ as n => nth_error activeProviders (historyLength mod n)%nat
  end.

(** The candidates of [selectProvider]. *)
Definition availableProviders (s : State) (request : AIRequest)
  : list AIProvider :=
  filter (fun p => hasCapableModel p request)
    (filter (fun p => negb (ProviderStatus_eqb (status p) offline))
       (JSMap.values (providers s))).

(** [private async selectProvider(request)] *)
Definition selectProvider (request : AIRequest) (s : State)
  : option AIProvider :=
  match availableProviders s request with
  | [] => None
  | ps =>
      match loadBalancer s with
      | least_cost => selectByCost ps request
      | best_performance => selectByPerformance ps
      | adaptive => selectAdaptively ps request
      | round_robin => selectRoundRobin ps (List.length (requestHistory s))
      end
  end.

Definition CostTier_eqb (a b : CostTier) : bool :=
  match a, b with
  | tier_low, tier_low | tier_medium, tier_medium
  | tier_high, tier_high | tier_premium, tier_premium => true
  | _, _ => false
  end.

Definition is_priority (request : AIRequest) (p : Priority) : bool :=
  match priority request, p with
  | Some low, low | Some normal, normal
  | Some high, high | Some urgent, urgent => true
  | _, _ => false
  end.

(** [private selectModel(provider, request)]; [None] is [undefined]
    (a provider without models). *)
Definition selectModel (p : AIProvider) (request : AIRequest)
  : option AIModel :=
  match filter (suits request) (models p) with
  | [] => hd_error (models p)
  | (first :: _) as suitableModels =>
      let pick tier :=
        match filter (fun m => CostTier_eqb (costTier m) tier)
                suitableModels with
        | m :: _ => m
        | [] => first
        end in
      if is_priority request urgent
         || truthyNumber (match requirements request with
                     | Some rq => minQuality rq
                     | None => None
                     end)
      then Some (pick tier_premium)
      else if is_priority request low || truthyNumber (budget request)
      then Some (pick tier_low)
      else Some first
  end.

(** [arr.slice(-n)] *)
Definition slice_last {A} (n : nat) (xs : list A) : list A :=
  skipn (List.length xs - n) xs.

(** [arr.sort((a, b) => b.performance.successRate -
    a.performance.successRate)]: stable, so an element goes behind another
    only when the comparator puts it there, that is when the difference
    is positive.  [x] comes before the elements of [sorted] in the
    array. *)
Fixpoint insert_desc (x : AIProvider) (sorted : list AIProvider)
  : list AIProvider :=
  match sorted with
  | [] => [x]
  | y :: rest =>
      if (0 <? successRate (performance y) - successRate (performance x))%float
      then y :: insert_desc x rest
      else x :: y :: rest
  end.

Definition sort_desc (ps : list AIProvider) : list AIProvider :=
  fold_right insert_desc [] ps.

(** The status rule at the end of [updateProviderMetrics], with the tests
    in the order of the source. *)
Definition statusFor (rate : number) : ProviderStatus :=
  if (rate <? 0.8)%float then degraded
  else if (rate <? 0.5)%float then offline
  else active.

(** ** Stateful part *)

Definition set_providers (v : JSMap.t AIProvider) (s : State) : State :=
  {| providers := v; requestHistory := requestHistory s;
     loadBalancer := loadBalancer s; failoverEnabled := failoverEnabled s;
     apiCache := apiCache s; dateReads := dateReads s;
     perfReads := perfReads s; attempted := attempted s;
     contacted := contacted s |}.

Definition set_requestHistory (v : list HistoryRecord) (s : State) : State :=
  {| providers := providers s; requestHistory := v;
     loadBalancer := loadBalancer s; failoverEnabled := failoverEnabled s;
     apiCache := apiCache s; dateReads := dateReads s;
     perfReads := perfReads s; attempted := attempted s;
     contacted := contacted s |}.

Definition set_loadBalancer (v : LoadBalancingType) (s : State) : State :=
  {| providers := providers s; requestHistory := requestHistory s;
     loadBalancer := v; failoverEnabled := failoverEnabled s;
     apiCache := apiCache s; dateReads := dateReads s;
     perfReads := perfReads s; attempted := attempted s;
     contacted := contacted s |}.

Definition set_cache_clock (c : ContentCache.t AIResponse) (n : nat)
    (s : State) : State :=
  {| providers := providers s; requestHistory := requestHistory s;
     loadBalancer := loadBalancer s; failoverEnabled := failoverEnabled s;
     apiCache := c; dateReads := n;
     perfReads := perfReads s; attempted := attempted s;
     contacted := contacted s |}.

Definition set_perfReads (n : nat) (s : State) : State :=
  {| providers := providers s; requestHistory := requestHistory s;
     loadBalancer := loadBalancer s; failoverEnabled := failoverEnabled s;
     apiCache := apiCache s; dateReads := dateReads s;
     perfReads := n; attempted := attempted s;
     contacted := contacted s |}.

Definition log_attempt (pid : string) (s : State) : State :=
  {| providers := providers s; requestHistory := requestHistory s;
     loadBalancer := loadBalancer s; failoverEnabled := failoverEnabled s;
     apiCache := apiCache s; dateReads := dateReads s;
     perfReads := perfReads s; attempted := attempted s ++ [pid];
     contacted := contacted s |}.

Definition log_contact (pid : string) (s : State) : State :=
  {| providers := providers s; requestHistory := requestHistory s;
     loadBalancer := loadBalancer s; failoverEnabled := failoverEnabled s;
     apiCache := apiCache s; dateReads := dateReads s;
     perfReads := perfReads s; attempted := attempted s;
     contacted := contacted s ++ [pid] |}.

Definition set_performance_status (pf : Performance) (st : ProviderStatus)
    (p : AIProvider) : AIProvider :=
  {| id := id p; name := name p; provider_type := provider_type p;
     models := models p; pricing := pricing p; limits := limits p;
     performance := pf; status := st |}.

Section Manager.

Variable env : Env.

Local Open Scope js_scope.

Definition MM (A : Type) : Type := M State Error A.

(** [Date.now()] and [new Date()] *)
Definition now : MM Z :=
  fun s => (Ok (Date_now env (dateReads s)),
            set_cache_clock (apiCache s) (S (dateReads s)) s).

(** [performance.now()] *)
Definition perf_now : MM number :=
  fun s => (Ok (performance_now env (perfReads s)),
            set_perfReads (S (perfReads s)) s).

(** [apiCache.get<AIResponse>(key)] *)
Definition apiCache_get (k : string) : MM (option AIResponse) :=
  fun s =>
    let '(r, n, c) :=
      ContentCache.get (Date_now env) k (dateReads s) (apiCache s) in
    (Ok r, set_cache_clock c n s).

(** [apiCache.set(key, value, ttl)] *)
Definition apiCache_set (k : string) (v : AIResponse) (ttl : Z) : MM unit :=
  fun s =>
    let '(n, c) :=
      ContentCache.set (Date_now env) k v (Some ttl) (dateReads s)
        (apiCache s) in
    (Ok tt, set_cache_clock c n s).

(** [registerProvider(provider)] *)
Definition registerProvider (p : AIProvider) : MM unit :=
  modify (fun s => set_providers (JSMap.set (id p) p (providers s)) s).

(** [setLoadBalancingStrategy(strategy)] *)
Definition setLoadBalancingStrategy (t : LoadBalancingType) : MM unit :=
  modify (set_loadBalancer t).

(** [private getCacheKey(request)] *)
Definition getCacheKey (request : AIRequest) : string :=
  ("ai-request-" ++
   base64 env
     (JSON_stringify env
        {| key_type := request_type request;
           key_prompt := substring 0 100 (prompt request);
           key_maxTokens := maxTokens request;
           key_temperature := temperature request |}))%string.

(** [await provider.client.(...).create({...})] *)
Definition client_call (p : AIProvider) (m : AIModel) (request : AIRequest)
  : MM BackendReply :=
  fun s =>
    let n := List.length (contacted s) in
    match client_create env n (id p) (model_id m) request with
    | Some reply => (Ok reply, log_contact (id p) s)
    | None => (Throw (ProviderCallFailed (id p) n), log_contact (id p) s)
    end.

(** [usage.total_tokens || (usage.input_tokens + usage.output_tokens) || 0]
    ([input_tokens] exists on Anthropic replies only). *)
Definition totalOf (p : AIProvider) (reply : BackendReply) : Z :=
  let alt :=
    match provider_type p with
    | anthropic => reply_inputTokens reply + reply_outputTokens reply
    | _ => 0
    end in
  match reply_totalTokens reply with
  | Some t => if t =? 0 then alt else t
  | None => alt
  end.

(** [private async executeRequest(provider, request)] *)
Definition executeRequest (p : AIProvider) (request : AIRequest)
  : MM AIResponse :=
  startTime <- perf_now ;;
  modify (log_attempt (id p)) ;;
  try_catch
    (reply <-
       match provider_type p with
       | openai | anthropic =>
           match selectModel p request with
           | None => throw TypeError
           | Some m => r <- client_call p m request ;; ret (Some r)
           end
       | _ => ret None
       end ;;
     t <- perf_now ;;
     let latency_ := (t - startTime)%float in
     match reply with
     | None => throw TypeError
     | Some r =>
         let cost_ :=
           calculateCost p (reply_inputTokens r) (reply_outputTokens r) in
         match selectModel p request with
         | None => throw TypeError
         | Some m =>
             ret {| content := reply_text r;
                    response_model := model_id m;
                    provider := id p;
                    usage := {| usage_inputTokens := reply_inputTokens r;
                                usage_outputTokens := reply_outputTokens r;
                                totalTokens := totalOf p r;
                                cost := cost_ |};
                    metrics :=
                      {| latency := latency_;
                         quality :=
                           Some (estimateQuality env (reply_text r) request);
                         satisfaction := None |} |}
         end
     end)
    (fun error => throw error).

Definition sumLatency (rs : list HistoryRecord) : number :=
  fold_left (fun sum r => (sum + record_latency r)%float) rs 0%float.

(** The last 100 records of one provider. *)
Definition recentRequests (pid : string) (h : list HistoryRecord)
  : list HistoryRecord :=
  slice_last 100 (filter (fun r => String.eqb (providerId r) pid) h).

(** [private updateProviderMetrics(providerId, success, cost, latency)] *)
Definition updateProviderMetrics (pid : string) (success_ : bool)
    (cost_ : number) (latency_ : number) : MM unit :=
  ps <- gets providers ;;
  match JSMap.get pid ps with
  | None => ret tt
  | Some p =>
      ts <- now ;;
      modify (fun s =>
                set_requestHistory
                  (requestHistory s ++
                   [{| timestamp := ts; providerId := pid;
                       success := success_; record_cost := cost_;
                       record_latency := latency_ |}]) s) ;;
      modify (fun s =>
                if (1000 <? List.length (requestHistory s))%nat
                then set_requestHistory
                       (slice_last 1000 (requestHistory s)) s
                else s) ;;
      h <- gets requestHistory ;;
      let recent := recentRequests pid h in
      pf <-
        (if (0 <? List.length recent)%nat then
           let successful := filter success recent in
           let n := Number.of_Z (Z.of_nat (List.length recent)) in
           let rate :=
             (Number.of_Z (Z.of_nat (List.length successful)) / n)%float in
           let avg := (sumLatency recent / n)%float in
           lf <- (if negb success_
                  then t <- now ;; ret (Some t)
                  else ret (lastFailure (performance p))) ;;
           ret {| averageLatency := avg; successRate := rate;
                  lastFailure := lf |}
         else ret (performance p)) ;;
      modify (fun s =>
                set_providers
                  (JSMap.set pid
                     (set_performance_status pf
                        (statusFor (successRate pf)) p)
                     (providers s)) s)
  end.

(** The [for] loop of [attemptFailover].  The provider objects of the
    array are those of the registry; nothing writes to them before the
    iteration that returns, so reading them from the array is reading them
    from the registry. *)
Fixpoint failover_loop (remaining : list AIProvider) (request : AIRequest)
    (originalStartTime : number) : MM AIResponse :=
  match remaining with
  | [] => throw AllProvidersFailed
  | p :: rest =>
      try_catch
        (response <- executeRequest p request ;;
         t <- perf_now ;;
         let totalLatency := (t - originalStartTime)%float in
         updateProviderMetrics (id p) true (cost (usage response))
           totalLatency ;;
         ret response)
        (fun _ => failover_loop rest request originalStartTime)
  end.

(** The array iterated by [attemptFailover]. *)
Definition remainingProviders (s : State) : list AIProvider :=
  sort_desc
    (filter (fun p => ProviderStatus_eqb (status p) active)
       (JSMap.values (providers s))).

(** [private async attemptFailover(request, originalStartTime)] *)
Definition attemptFailover (request : AIRequest)
    (originalStartTime : number)
  : MM AIResponse :=
  remaining <- gets remainingProviders ;;
  failover_loop remaining request originalStartTime.

(** The [try] block of [processRequest]. *)
Definition processRequest_try (request : AIRequest) (startTime : number)
  : MM AIResponse :=
  let cacheKey := getCacheKey request in
  cachedResponse <- apiCache_get cacheKey ;;
  match cachedResponse with
  | Some r => ret r
  | None =>
      selectedProvider <- gets (selectProvider request) ;;
      match selectedProvider with
      | None => throw NoAvailableProviders
      | Some p =>
          response <- executeRequest p request ;;
          t <- perf_now ;;
          let latency_ := (t - startTime)%float in
          updateProviderMetrics (id p) true (cost (usage response))
            latency_ ;;
          apiCache_set cacheKey response (60 * 60 * 1000) ;;
          ret response
      end
  end.

(** The [catch] block of [processRequest]. *)
Definition processRequest_catch (request : AIRequest) (startTime : number)
    (error : Error) : MM AIResponse :=
  _ <- perf_now ;;
  fe <- gets failoverEnabled ;;
  if fe then attemptFailover request startTime
  else throw error.

(** [async processRequest(request)] *)
Definition processRequest (request : AIRequest) : MM AIResponse :=
  startTime <- perf_now ;;
  try_catch (processRequest_try request startTime)
            (processRequest_catch request startTime).

(** The request sent by the health check. *)
Definition healthProbe : AIRequest :=
  {| request_type := text_generation; prompt := "Hello";
     maxTokens := Some 5; temperature := None; model := None;
     priority := None; budget := None; requirements := None |}.

(** [if (provider.status === from) provider.status = to], on the registry
    entry [pid]. *)
Definition restatus (pid : string) (from to : ProviderStatus) : MM unit :=
  modify (fun s =>
            match JSMap.get pid (providers s) with
            | Some p =>
                if ProviderStatus_eqb (status p) from
                then set_providers
                       (JSMap.set pid
                          (set_performance_status (performance p) to p)
                          (providers s)) s
                else s
            | None => s
            end).

(** One iteration of the loop of the health check. *)
Definition healthCheckOne (pid : string) : MM unit :=
  ps <- gets providers ;;
  match JSMap.get pid ps with
  | None => ret tt
  | Some p =>
      try_catch
        (_ <- executeRequest p healthProbe ;;
         restatus pid offline active)
        (fun _ => restatus pid active degraded)
  end.

Fixpoint healthCheckLoop (pids : list string) : MM unit :=
  match pids with
  | [] => ret tt
  | pid :: rest => healthCheckOne pid ;; healthCheckLoop rest
  end.

(** The callback that [startHealthMonitoring] runs every five minutes. *)
Definition healthCheck : MM unit :=
  ps <- gets providers ;;
  healthCheckLoop (List.map fst ps).

End Manager.

(** An entry of the object returned by [getProviderStats()]. *)
Record ProviderStats : Type := {
  stats_name : string;
  stats_status : ProviderStatus;
  stats_performance : Performance;
  stats_recentRequests : Z;
  stats_totalCost : number;
  stats_averageCost : number
}.

Definition sumCost (rs : list HistoryRecord) : number :=
  fold_left (fun sum r => (sum + record_cost r)%float) rs 0%float.

(** [getProviderStats()], keys in registry order. *)
Definition getProviderStats (s : State) : list (string * ProviderStats) :=
  List.map
    (fun kp : string * AIProvider =>
       let recent := recentRequests (fst kp) (requestHistory s) in
       (fst kp,
        {| stats_name := name (snd kp);
           stats_status := status (snd kp);
           stats_performance := performance (snd kp);
           stats_recentRequests := Z.of_nat (List.length recent);
           stats_totalCost := sumCost recent;
           stats_averageCost :=
             if (0 <? List.length recent)%nat
             then (sumCost recent
                   / Number.of_Z (Z.of_nat (List.length recent)))%float
             else 0%float |}))
    (providers s).

(** [new AIProviderManager()] before any provider is registered;
    [apiCache] is the module-level instance
    [new ContentCache({ maxSize: 1000, defaultTTL: 5 * 60 * 1000 })]. *)
Definition initial : State :=
  {| providers := [];
     requestHistory := [];
     loadBalancer := adaptive;
     failoverEnabled := true;
     apiCache := ContentCache.new AIResponse (Some 1000) (Some (5 * 60 * 1000));
     dateReads := 0; perfReads := 0;
     attempted := []; contacted := [] |}.

(** ** The providers registered by [initializeProviders] *)

Definition openaiProvider : AIProvider :=
  {| id := "openai"; name := "OpenAI"; provider_type := openai;
     models :=
       [ {| model_id := "gpt-4-turbo-preview"; model_name := "GPT-4 Turbo";
            model_type := text; model_maxTokens := 4096;
            contextWindow := 128000;
            capabilities := ["reasoning"; "code"; "analysis"]%string;
            costTier := tier_premium |};
         {| model_id := "gpt-3.5-turbo"; model_name := "GPT-3.5 Turbo";
            model_type := text; model_maxTokens := 4096;
            contextWindow := 16384;
            capabilities := ["conversation"; "summarization"]%string;
            costTier := tier_medium |} ];
     pricing := {| inputTokens := 0.01; outputTokens := 0.03 |};
     limits := {| requestsPerMinute := 500; tokensPerMinute := 90000;
                  dailySpend := 10000 |};
     performance := {| averageLatency := 2500; successRate := 0.99;
                       lastFailure := None |};
     status := active |}.

Definition anthropicProvider : AIProvider :=
  {| id := "anthropic"; name := "Anthropic"; provider_type := anthropic;
     models :=
       [ {| model_id := "claude-3-sonnet-20240229";
            model_name := "Claude 3 Sonnet";
            model_type := text; model_maxTokens := 4096;
            contextWindow := 200000;
            capabilities := ["reasoning"; "analysis"; "safety"]%string;
            costTier := tier_high |};
         {| model_id := "claude-3-haiku-20240307";
            model_name := "Claude 3 Haiku";
            model_type := text; model_maxTokens := 4096;
            contextWindow := 200000;
            capabilities := ["speed"; "efficiency"]%string;
            costTier := tier_low |} ];
     pricing := {| inputTokens := 0.003; outputTokens := 0.015 |};
     limits := {| requestsPerMinute := 1000; tokensPerMinute := 100000;
                  dailySpend := 5000 |};
     performance := {| averageLatency := 3000; successRate := 0.98;
                       lastFailure := None |};
     status := active |}.

(** The manager after [initializeProviders()] with both API keys set. *)
Definition initialized : State :=
  snd (registerProvider anthropicProvider
         (snd (registerProvider openaiProvider initial))).

(** ** Concrete environments and requests, used to exercise the
       statements *)

Definition sample_reply : BackendReply :=
  {| reply_text := "Hello there. How can I help?";
     reply_inputTokens := 12; reply_outputTokens := 8;
     reply_totalTokens := Some 20 |}.

Definition sample_stringify (o : CacheKeyObject) : string :=
  ((match key_type o with
    | text_generation => "text_generation:"
    | image_generation => "image_generation:"
    | embedding_request => "embedding:"
    | analysis => "analysis:"
    end) ++ key_prompt o)%string.

(** A clock in milliseconds, a monotonic timer in hundreds of
    milliseconds, and SDK calls that all resolve to [reply] (or all
    reject, for [None]). *)
Definition sample_env (reply : option BackendReply) : Env :=
  {| Date_now := fun n => 1700000000000 + Z.of_nat n;
     performance_now := fun n => (Number.of_Z (Z.of_nat n) * 100)%float;
     client_create := fun _ _ _ _ => reply;
     estimateQuality := fun _ _ => 70%float;
     JSON_stringify := sample_stringify;
     base64 := fun s => s |}.

Definition sample_request (p : string) : AIRequest :=
  {| request_type := text_generation; prompt := p; maxTokens := None;
     temperature := None; model := None; priority := None; budget := None;
     requirements := None |}.

(** A reliable provider charging fifty cents per thousand output tokens,
    and an unreliable one that is free. *)
Definition steady_costly : AIProvider :=
  {| id := "steady"; name := "Steady"; provider_type := openai;
     models := models openaiProvider;
     pricing := {| inputTokens := 0; outputTokens := 0.5 |};
     limits := limits openaiProvider;
     performance := {| averageLatency := 1000; successRate := 1;
                       lastFailure := None |};
     status := active |}.

Definition shaky_free : AIProvider :=
  {| id := "shaky"; name := "Shaky"; provider_type := openai;
     models := models openaiProvider;
     pricing := {| inputTokens := 0; outputTokens := 0 |};
     limits := limits openaiProvider;
     performance := {| averageLatency := 1000; successRate := 0.5;
                       lastFailure := None |};
     status := degraded |}.



Fixpoint replicate (n : nat) (c : string) : string :=
  match n with
  | O => ""
  | S k => c ++ replicate k c
  end%string.

(** A first request answered by the selected provider, and the state it
    leaves. *)
Definition first_run : Outcome Error AIResponse * State :=
  processRequest (sample_env (Some sample_reply)) (sample_request "Hello")
    initialized.

Definition first_response : AIResponse :=
  match fst first_run with
  | Ok r => r
  | Throw _ =>
      {| content := ""; response_model := ""; provider := "";
         usage := {| usage_inputTokens := 0; usage_outputTokens := 0;
                     totalTokens := 0; cost := 0 |};
         metrics := {| latency := 0; quality := None;
                       satisfaction := None |} |}
  end.

(** The cache entry stored under the key of a request. *)
Definition cached_entry (env : Env) (r : AIRequest) (s : State)
  : ContentCache.CacheEntry AIResponse :=
  match JSMap.get (getCacheKey env r) (ContentCache.cache (apiCache s)) with
  | Some e => e
  | None =>
      {| ContentCache.key := ""; ContentCache.value := first_response;
         ContentCache.expiresAt := 0; ContentCache.createdAt := 0;
         ContentCache.accessCount := 0; ContentCache.lastAccessed := 0 |}
  end.

(** Two prompts of 101 characters that differ in the last one only. *)
Definition long_prompt_x : string := (replicate 100 "a" ++ "x")%string.
Definition long_prompt_y : string := (replicate 100 "a" ++ "y")%string.

Definition long_run : Outcome Error AIResponse * State :=
  processRequest (sample_env (Some sample_reply))
    (sample_request long_prompt_x) initialized.

(** The OpenAI backend is down, the Anthropic one answers. *)
Definition openai_down_env : Env :=
  {| Date_now := Date_now (sample_env None);
     performance_now := performance_now (sample_env None);
     client_create := fun _ pid _ _ =>
       if String.eqb pid "openai" then None else Some sample_reply;
     estimateQuality := estimateQuality (sample_env None);
     JSON_stringify := sample_stringify;
     base64 := fun s => s |}.

(** A request for more output tokens than any registered model offers. *)
Definition oversized_request : AIRequest :=
  {| request_type := text_generation; prompt := "Hello";
     maxTokens := Some 10000; temperature := None; model := None;
     priority := None; budget := None; requirements := None |}.

(** Two providers whose performance scores are 0.1 in exact arithmetic;
    the code computes 0.09999999999999999 for the first. *)
Definition slow_reliable : AIProvider :=
  {| id := "slow"; name := "Slow"; provider_type := openai;
     models := models openaiProvider;
     pricing := pricing openaiProvider;
     limits := limits openaiProvider;
     performance := {| averageLatency := 7000; successRate := 0.7;
                       lastFailure := None |};
     status := active |}.

Definition fast_flaky : AIProvider :=
  {| id := "fast"; name := "Fast"; provider_type := openai;
     models := models openaiProvider;
     pricing := pricing openaiProvider;
     limits := limits openaiProvider;
     performance := {| averageLatency := 1000; successRate := 0.1;
                       lastFailure := None |};
     status := active |}.

(** Two providers whose adaptive scores are 63 in exact arithmetic; the
    code computes 62.99999999999999 for the first. *)
Definition rate94 : AIProvider :=
  {| id := "rate94"; name := "Rate 94"; provider_type := openai;
     models := models openaiProvider;
     pricing := pricing openaiProvider;
     limits := limits openaiProvider;
     performance := {| averageLatency := 5000; successRate := 0.94;
                       lastFailure := None |};
     status := active |}.

Definition rate79 : AIProvider :=
  {| id := "rate79"; name := "Rate 79"; provider_type := openai;
     models := models openaiProvider;
     pricing := pricing openaiProvider;
     limits := limits openaiProvider;
     performance := {| averageLatency := 2500; successRate := 0.79;
                       lastFailure := None |};
     status := active |}.

(** A provider of a type for which [executeRequest] has no branch. *)
Definition googleProvider : AIProvider :=
  {| id := "google"; name := "Google"; provider_type := google;
     models := models openaiProvider;
     pricing := pricing openaiProvider;
     limits := limits openaiProvider;
     performance := performance openaiProvider;
     status := active |}.

(** A manager whose only provider is degraded, under the round-robin
    strategy. *)
Definition shaky_round_robin : State :=
  snd (setLoadBalancingStrategy round_robin
         (snd (registerProvider shaky_free initial))).

(** One call of the OpenAI provider, outside [processRequest]. *)
Definition sample_exec : Outcome Error AIResponse * State :=
  executeRequest (sample_env (Some sample_reply)) openaiProvider
    (sample_request "Hello") initialized.

Definition sample_exec_response : AIResponse :=
  match fst sample_exec with
  | Ok r => r
  | Throw _ => first_response
  end.

End AIProviderManager.

(* ===================================================================== *)
(** * Properties of the circuit breaker                                    *)
(* ===================================================================== *)

Module CircuitBreakerFacts.

Import CircuitBreaker.
Local Open Scope Z_scope.

Section Facts.

Variables U X : Type.
Variable Date_now : nat -> Z.

(** One more [Date.now()] read, nothing else touched. *)
Definition tick (s : Sys U) : Sys U :=
  {| brk := brk s;
     world := {| dateReads := S (dateReads (world s));
                 ext := ext (world s) |};
     invoked := invoked s |}.

Definition with_brk (b : Breaker) (s : Sys U) : Sys U :=
  {| brk := b; world := world s; invoked := invoked s |}.

(** All counters and timestamps at zero, state [CLOSED]: what [reset]
    leaves. *)
Definition is_reset (b : Breaker) : Prop :=
  state b = CLOSED /\ failureCount b = 0 /\ successCount b = 0 /\
  lastFailureTime b = 0 /\ nextAttemptTime b = 0.

Ltac run :=
  unfold execute, gate, attempt, onSuccess, onFailure, open, reset, call,
    now, this, assign, bind, try_catch, ret, throw, is_reset in *;
  cbn in *.

(** Proofs start from a system given by its fields, so that every
    projection computes. *)
Ltac open_sys s :=
  destruct s as [[? ? ? ? ? ? ?] [? ?] ?]; cbn in *; subst.

Lemma attempt_invokes_once :
  forall T (op : Operation U X T) (s : Sys U),
    invoked (snd (attempt Date_now op s)) = S (invoked s).
Proof.
  intros T op s. open_sys s. run.
  match goal with |- context [op ?w] => destruct (op w) as [[v|x] [? ?]] end;
    cbn;
    match goal with |- context [match ?st with CLOSED => _ | _ => _ end] =>
      destruct st end; cbn; trivial;
    match goal with |- context [if ?c then _ else _] => destruct c end;
    reflexivity.
Qed.

(** The breaker after a successful call made in [HALF_OPEN]. *)
Lemma success_in_half_open :
  forall T (op : Operation U X T) (s : Sys U),
    always_succeeds op ->
    state (brk s) = HALF_OPEN ->
    (5 <= successCount (brk s) + 1 ->
       is_reset (brk (snd (execute Date_now op s)))) /\
    (successCount (brk s) + 1 < 5 ->
       brk (snd (execute Date_now op s)) =
       set_successCount (successCount (brk s) + 1) (brk s)).
Proof.
  intros T op s Hop Hst. open_sys s. run.
  match goal with |- context [op ?w] =>
    specialize (Hop w); destruct (op w) as [[v|x] [? ?]] end;
    cbn in *; [|discriminate].
  match goal with |- context [5 <=? ?c] => destruct (Z.leb_spec 5 c) end;
    cbn; split; intros; try lia; auto.
Qed.

(** A successful call leaves a reset breaker reset. *)
Lemma success_when_reset :
  forall T (op : Operation U X T) (s : Sys U),
    always_succeeds op ->
    is_reset (brk s) ->
    is_reset (brk (snd (execute Date_now op s))).
Proof.
  intros T op s Hop (Hst & Hf & Hs & Hl & Hn). open_sys s. run.
  match goal with |- context [op ?w] =>
    specialize (Hop w); destruct (op w) as [[v|x] [? ?]] end;
    cbn in *; [|discriminate].
  match goal with |- context [if ?c then _ else _] => destruct c end;
    cbn; auto.
Qed.

Lemma successes_when_reset :
  forall T (ops : list (Operation U X T)) (s : Sys U),
    Forall (@always_succeeds U X T) ops ->
    is_reset (brk s) ->
    is_reset (brk (execute_all Date_now ops s)).
Proof.
  induction ops as [|op ops IH]; intros s Hall Hr; cbn; [assumption|].
  inversion Hall; subst.
  apply IH; [assumption|]. apply success_when_reset; assumption.
Qed.

(** Fewer successes than needed: still [HALF_OPEN], one count each. *)
Lemma successes_below_five :
  forall T (ops : list (Operation U X T)) (s : Sys U),
    Forall (@always_succeeds U X T) ops ->
    state (brk s) = HALF_OPEN ->
    successCount (brk s) + Z.of_nat (List.length ops) < 5 ->
    brk (execute_all Date_now ops s) =
    set_successCount (successCount (brk s) + Z.of_nat (List.length ops))
      (brk s).
Proof.
  induction ops as [|op ops IH]; intros s Hall Hst Hlt.
  - cbn. rewrite Z.add_0_r. destruct (brk s); reflexivity.
  - inversion Hall as [|? ? Hop Hops]; subst.
    cbn [execute_all List.length] in *. rewrite Nat2Z.inj_succ in *.
    destruct (success_in_half_open s Hop Hst) as [_ Hstep].
    assert (Hb : successCount (brk s) + 1 < 5) by lia.
    specialize (Hstep Hb).
    rewrite IH; try assumption.
    + rewrite Hstep. unfold set_successCount; cbn. f_equal. lia.
    + rewrite Hstep. exact Hst.
    + rewrite Hstep. cbn. lia.
Qed.

(** Enough successes: the breaker is reset and stays so. *)
Lemma successes_reach_five :
  forall T (ops : list (Operation U X T)) (s : Sys U),
    Forall (@always_succeeds U X T) ops ->
    state (brk s) = HALF_OPEN ->
    ops <> [] ->
    5 <= successCount (brk s) + Z.of_nat (List.length ops) ->
    is_reset (brk (execute_all Date_now ops s)).
Proof.
  induction ops as [|op ops IH]; intros s Hall Hst Hne Hge; [congruence|].
  inversion Hall as [|? ? Hop Hops]; subst.
  cbn [execute_all List.length] in *. rewrite Nat2Z.inj_succ in *.
  destruct (success_in_half_open s Hop Hst) as [Hdone Hstep].
  destruct (Z_lt_le_dec (successCount (brk s) + 1) 5) as [Hlt|Hle].
  - specialize (Hstep Hlt).
    apply IH; try assumption.
    + rewrite Hstep. exact Hst.
    + intros ->. cbn in Hge. lia.
    + rewrite Hstep. cbn. lia.
  - apply successes_when_reset; auto.
Qed.

(** A failing call made in [HALF_OPEN]: [onFailure] reads the clock for
    [lastFailureTime], [open] reads it again for [nextAttemptTime]. *)
Lemma failure_in_half_open :
  forall T (op : Operation U X T) (s : Sys U),
    always_fails op ->
    state (brk s) = HALF_OPEN ->
    let n := dateReads (snd (op (world s))) in
    let b' := brk (snd (execute Date_now op s)) in
    is_ok (fst (execute Date_now op s)) = false /\
    state b' = OPEN /\
    failureCount b' = failureCount (brk s) + 1 /\
    lastFailureTime b' = Date_now n /\
    nextAttemptTime b' = Date_now (S n) + recoveryTimeout (config (brk s)).
Proof.
  intros T op s Hop Hst. open_sys s. run.
  match goal with |- context [op ?w] =>
    specialize (Hop w); destruct (op w) as [[v|x] [? ?]] end;
    cbn in *; [discriminate|].
  repeat split; reflexivity.
Qed.

(** C1.  While the breaker is [OPEN] and the clock reads less than
    [nextAttemptTime], [execute] throws the breaker-open error and the
    wrapped operation is not invoked: the result is the same for every
    operation, and only the clock cursor has moved.  Once the clock reads
    [nextAttemptTime] or more, [execute] first puts the breaker in
    [HALF_OPEN] with [successCount = 0] and then runs its [try]/[catch]
    block, which invokes the operation once. *)
Theorem C1_open_rejects_until_nextAttemptTime :
  forall T (op : Operation U X T) (s : Sys U),
    state (brk s) = OPEN ->
    (Date_now (dateReads (world s)) < nextAttemptTime (brk s) ->
       execute Date_now op s =
       (Throw (BreakerOpen (name (brk s))), tick s)) /\
    (nextAttemptTime (brk s) <= Date_now (dateReads (world s)) ->
       execute Date_now op s =
       attempt Date_now op
         (with_brk (set_successCount 0 (set_state HALF_OPEN (brk s)))
            (tick s)) /\
       invoked (snd (execute Date_now op s)) = S (invoked s)).
Proof.
  intros T op s Hst.
  assert (Hgate :
    nextAttemptTime (brk s) <= Date_now (dateReads (world s)) ->
    execute Date_now op s =
    attempt Date_now op
      (with_brk (set_successCount 0 (set_state HALF_OPEN (brk s)))
         (tick s))).
  { intros Hge. open_sys s. unfold execute, gate, bind, this, now, assign,
      throw, with_brk, tick; cbn.
    match goal with |- context [?a <? ?b] =>
      destruct (Z.ltb_spec a b); [lia|] end.
    reflexivity. }
  split.
  - intros Hlt. open_sys s.
    unfold execute, gate, bind, this, now, assign, throw, tick; cbn.
    match goal with |- context [?a <? ?b] =>
      destruct (Z.ltb_spec a b); [|lia] end.
    reflexivity.
  - intros Hge. split; [auto|].
    rewrite (Hgate Hge), attempt_invokes_once. reflexivity.
Qed.

(** C2.  From [HALF_OPEN] (success counter not negative), five calls in
    a row that succeed leave the breaker [CLOSED] with [failureCount],
    [successCount], [lastFailureTime] and [nextAttemptTime] all zero; and
    one call that fails leaves it [OPEN] with [nextAttemptTime] equal to
    the clock reading taken by [open] at that failure plus
    [recoveryTimeout] ([lastFailureTime] being the reading taken just
    before by [onFailure]). *)
Theorem C2_half_open_recovers_or_reopens :
  forall T (ops : list (Operation U X T)) (op : Operation U X T)
         (s : Sys U),
    state (brk s) = HALF_OPEN ->
    0 <= successCount (brk s) ->
    List.length ops = 5%nat ->
    Forall (@always_succeeds U X T) ops ->
    always_fails op ->
    is_reset (brk (execute_all Date_now ops s)) /\
    (let n := dateReads (snd (op (world s))) in
     let b' := brk (snd (execute Date_now op s)) in
     state b' = OPEN /\
     lastFailureTime b' = Date_now n /\
     nextAttemptTime b' =
       Date_now (S n) + recoveryTimeout (config (brk s))).
Proof.
  intros T ops op s Hst Hsc Hlen Hall Hfail. split.
  - apply successes_reach_five; try assumption.
    + intros ->. discriminate.
    + rewrite Hlen. lia.
  - destruct (failure_in_half_open s Hfail Hst) as (_ & H1 & _ & H2 & H3).
    auto.
Qed.

End Facts.

(** The scenario of the specification: with [failureThreshold = 3], three
    failures in a row open the breaker. *)
Example three_failures_open_payment_breaker :
  state (brk sample_tripped) = OPEN /\
  failureCount (brk sample_tripped) = 3 /\
  nextAttemptTime (brk sample_tripped) = 90000 /\
  invoked sample_tripped = 3%nat.
Proof. vm_compute. repeat split. Qed.

Lemma C1_witness :
  execute sample_clock sample_ok sample_tripped =
    (Throw (BreakerOpen "payment"), tick sample_tripped) /\
  invoked (snd (execute sample_clock sample_ok sample_tripped_later)) = 1%nat.
Proof.
  split.
  - apply (proj1 (@C1_open_rejects_until_nextAttemptTime unit unit
                    sample_clock Z sample_ok sample_tripped eq_refl)).
    reflexivity.
  - apply (proj2 (@C1_open_rejects_until_nextAttemptTime unit unit
                    sample_clock Z sample_ok sample_tripped_later eq_refl)).
    vm_compute. discriminate.
Defined.

Lemma C2_witness :
  is_reset
    (brk (execute_all sample_clock
            [sample_ok; sample_ok; sample_ok; sample_ok; sample_ok]
            sample_half_open)) /\
  state (brk (snd (execute sample_clock sample_fail sample_half_open)))
    = OPEN /\
  nextAttemptTime
    (brk (snd (execute sample_clock sample_fail sample_half_open)))
    = 110000 + 60000.
Proof.
  pose proof (@C2_half_open_recovers_or_reopens unit unit sample_clock Z
                [sample_ok; sample_ok; sample_ok; sample_ok; sample_ok]
                sample_fail sample_half_open) as H.
  destruct H as (Hok & Hst & _ & Hnext).
  - reflexivity.
  - vm_compute. discriminate.
  - reflexivity.
  - repeat constructor.
  - intro w. reflexivity.
  - split; [exact Hok|]. split; [exact Hst|]. exact Hnext.
Defined.

End CircuitBreakerFacts.

(* ===================================================================== *)
(** * The order on numbers                                                 *)
(* ===================================================================== *)

Module NumberFacts.

Import PrimFloat SpecFloat FloatOps FloatAxioms.

(** The comparisons of the specification of binary64, case by case. *)
Ltac sf_cases :=
  cbn; try discriminate; try reflexivity;
  change (Pos.compare_cont Eq) with Pos.compare;
  repeat match goal with
         | |- context [Z.compare ?a ?b] => destruct (Z.compare_spec a b)
         | H : context [Z.compare ?a ?b] |- _ => destruct (Z.compare_spec a b)
         end;
  try discriminate; try reflexivity; try lia; subst;
  repeat match goal with
         | |- context [Pos.compare ?a ?b] => destruct (Pos.compare_spec a b)
         | H : context [Pos.compare ?a ?b] |- _ =>
             destruct (Pos.compare_spec a b)
         end;
  cbn in *; try discriminate; try reflexivity; try lia.

Lemma SFltb_trans :
  forall a b c, SFltb a b = true -> SFltb b c = true -> SFltb a c = true.
Proof.
  unfold SFltb.
  intros [[]|[]| |[] ma ea] [[]|[]| |[] mb eb] [[]|[]| |[] mc ec]; sf_cases.
Qed.

Lemma SFltb_asym : forall a b, SFltb a b = true -> SFltb b a = false.
Proof.
  unfold SFltb.
  intros [[]|[]| |[] ma ea] [[]|[]| |[] mb eb]; sf_cases.
Qed.

Lemma SFltb_not_eqb :
  forall a b, SFltb a b = true -> SFeqb a b = false /\ SFeqb b a = false.
Proof.
  unfold SFltb, SFeqb.
  intros [[]|[]| |[] ma ea] [[]|[]| |[] mb eb]; sf_cases; split; sf_cases.
Qed.

Lemma SFeqb_ltb_r :
  forall a q c, SFeqb q c = true -> SFltb a c = true -> SFltb a q = true.
Proof.
  unfold SFltb, SFeqb.
  intros [[]|[]| |[] ma ea] [[]|[]| |[] mb eb] [[]|[]| |[] mc ec]; sf_cases.
Qed.


Local Open Scope float_scope.

(** [<] on numbers is transitive and asymmetric, excludes [===], and is
    compatible with it; [NaN] is below, above and equal to nothing. *)
Lemma ltb_trans :
  forall a b c : float,
    (a <? b) = true -> (b <? c) = true -> (a <? c) = true.
Proof. intros a b c. rewrite !ltb_spec. apply SFltb_trans. Qed.

Lemma ltb_asym : forall a b : float, (a <? b) = true -> (b <? a) = false.
Proof. intros a b. rewrite !ltb_spec. apply SFltb_asym. Qed.

Lemma ltb_irrefl : forall a : float, (a <? a) = false.
Proof.
  intros a. destruct (a <? a) eqn:E; [|reflexivity].
  rewrite (ltb_asym E) in E. discriminate.
Qed.

Lemma ltb_not_eqb :
  forall a b : float,
    (a <? b) = true -> (a =? b) = false /\ (b =? a) = false.
Proof. intros a b. rewrite !ltb_spec, !eqb_spec. apply SFltb_not_eqb. Qed.

Lemma eqb_ltb_r :
  forall a q c : float,
    (q =? c) = true -> (a <? c) = true -> (a <? q) = true.
Proof. intros a q c. rewrite !ltb_spec, !eqb_spec. apply SFeqb_ltb_r. Qed.


Lemma SFleb_negb_ltb :
  forall a b,
    SFeqb a a = true -> SFeqb b b = true -> SFleb a b = negb (SFltb b a).
Proof.
  unfold SFltb, SFeqb, SFleb.
  intros [[]|[]| |[] ma ea] [[]|[]| |[] mb eb]; sf_cases.
Qed.

Lemma SFleb_not_nan :
  forall a b, SFleb a b = true -> SFeqb a a = true /\ SFeqb b b = true.
Proof.
  unfold SFeqb, SFleb.
  intros [[]|[]| |[] ma ea] [[]|[]| |[] mb eb]; sf_cases; split; sf_cases.
Qed.

(** Between two numbers that are not [NaN], [a <= b] is the negation of
    [b < a]; and only such numbers are related by [<=]. *)
Lemma leb_negb_ltb :
  forall a b : float,
    (a =? a) = true -> (b =? b) = true -> (a <=? b) = negb (b <? a).
Proof.
  intros a b. rewrite !ltb_spec, !eqb_spec, !leb_spec.
  apply SFleb_negb_ltb.
Qed.

Lemma leb_not_nan :
  forall a b : float,
    (a <=? b) = true -> (a =? a) = true /\ (b =? b) = true.
Proof. intros a b. rewrite !eqb_spec, !leb_spec. apply SFleb_not_nan. Qed.

(** ** Quotients of small counts *)

(** [k / n] for two array lengths. *)
Definition ratio (k n : nat) : float :=
  Number.of_Z (Z.of_nat k) / Number.of_Z (Z.of_nat n).

Definition ratio_ok (n k : nat) : bool :=
  (0 <=? ratio k n) && (ratio k n <=? 1) && Leibniz.eqb (ratio n n) 1.

(** Checked on each of the 5150 quotients. *)
Lemma ratio_table :
  forallb (fun n => forallb (ratio_ok n) (seq 0 (S n))) (seq 1 100) = true.
Proof. vm_compute. reflexivity. Qed.

(** For [k <= n] and [n] from 1 to 100, [k / n] lies between 0 and 1,
    and [n / n] is 1. *)
Lemma ratio_in_unit :
  forall k n : nat,
    (k <= n)%nat -> (1 <= n <= 100)%nat ->
    (0 <=? ratio k n) = true /\ (ratio k n <=? 1) = true /\ ratio n n = 1.
Proof.
  intros k n Hk Hn.
  pose proof ratio_table as T. rewrite forallb_forall in T.
  specialize (T n). rewrite forallb_forall in T.
  assert (Hok : ratio_ok n k = true).
  { apply T; apply in_seq; lia. }
  unfold ratio_ok in Hok.
  apply andb_true_iff in Hok. destruct Hok as (Hok & H3).
  apply andb_true_iff in Hok. destruct Hok as (H1 & H2).
  split; [exact H1|]. split; [exact H2|].
  apply Leibniz.eqb_spec, H3.
Qed.

End NumberFacts.

(* ===================================================================== *)
(** * Properties of the provider selector                                  *)
(* ===================================================================== *)

Module SelectorFacts.

Import AIProviderManager.
Import PrimFloat.

(** ** [reduce] keeping the first best element *)

Section FirstBest.

Variables A K : Type.
Variable key : A -> K.

(** [better a b]: the key [a] wins over the key [b]; [same a b]: the two
    keys are equal. *)
Variables better same : K -> K -> bool.

Hypothesis better_trans :
  forall a b c, better a b = true -> better b c = true -> better a c = true.
Hypothesis better_asym : forall a b, better a b = true -> better b a = false.
Hypothesis better_not_same :
  forall a b, better a b = true -> same b a = false.
Hypothesis same_better :
  forall y c b, same y c = true -> better c b = true -> better y b = true.

(** The callback of the source's [reduce] calls:
    [(best, current) => key(current) wins over key(best) ? current : best]. *)
Definition pick (best current : A) : A :=
  if better (key current) (key best) then current else best.

(** [x] occurs in [xs], no element wins over it, and no element before
    it has the same key. *)
Definition first_best (xs : list A) (x : A) : Prop :=
  exists before after,
    xs = before ++ x :: after /\
    (forall y, In y before ->
               better (key y) (key x) = false /\ same (key y) (key x) = false) /\
    (forall y, In y after -> better (key y) (key x) = false).

Lemma pick_step :
  forall pre best current,
    first_best pre best ->
    first_best (pre ++ [current]) (pick best current).
Proof.
  intros pre best current (b & a & -> & Hb & Ha). unfold pick.
  destruct (better (key current) (key best)) eqn:E.
  - exists (b ++ best :: a), []. split; [reflexivity|]. split; [|intros y []].
    assert (Hold : forall y, better (key y) (key best) = false ->
                             better (key y) (key current) = false /\
                             same (key y) (key current) = false).
    { intros y Hy. split.
      - destruct (better (key y) (key current)) eqn:E1; [|reflexivity].
        rewrite (better_trans E1 E) in Hy. discriminate.
      - destruct (same (key y) (key current)) eqn:E1; [|reflexivity].
        rewrite (same_better E1 E) in Hy. discriminate. }
    intros y Hy. apply in_app_or in Hy. destruct Hy as [Hy|[<-|Hy]].
    + apply Hold, Hb, Hy.
    + split; [apply better_asym, E | apply better_not_same, E].
    + apply Hold, Ha, Hy.
  - exists b, (a ++ [current]). split.
    + rewrite <- app_assoc. reflexivity.
    + split; [exact Hb|]. intros y Hy.
      apply in_app_or in Hy. destruct Hy as [Hy|[<-|[]]].
      * apply Ha, Hy.
      * exact E.
Qed.

Lemma fold_pick :
  forall rest pre best,
    first_best pre best ->
    first_best (pre ++ rest) (fold_left pick rest best).
Proof.
  induction rest as [|current rest IH]; intros pre best H; cbn.
  - rewrite app_nil_r. exact H.
  - replace (pre ++ current :: rest) with ((pre ++ [current]) ++ rest)
      by (rewrite <- app_assoc; reflexivity).
    apply IH, pick_step, H.
Qed.

Lemma reduce1_pick :
  forall xs, xs <> [] ->
    exists x, reduce1 pick xs = Some x /\ first_best xs x.
Proof.
  intros [|x0 rest] Hne; [congruence|].
  exists (fold_left pick rest x0). split; [reflexivity|].
  apply (@fold_pick rest [x0] x0).
  exists [], []. split; [reflexivity|]. split; intros y [].
Qed.

Lemma first_best_In : forall xs x, first_best xs x -> In x xs.
Proof.
  intros xs x (b & a & -> & _). apply in_or_app. right. left. reflexivity.
Qed.


End FirstBest.

(** ** The two orders used by the selector *)

(** Highest score first: no candidate has a higher score, no earlier
    candidate an equal one. *)
Definition best_by (score : AIProvider -> number) :=
  first_best score (fun a b => (b <? a)%float) PrimFloat.eqb.


Lemma reduce1_best_by :
  forall score ps, ps <> [] ->
    exists p,
      reduce1 (pick score (fun a b => (b <? a)%float)) ps = Some p /\
      best_by score ps p.
Proof.
  intros score ps Hne. apply reduce1_pick; try assumption; cbv beta.
  - intros a b c H1 H2. exact (NumberFacts.ltb_trans H2 H1).
  - intros a b. apply NumberFacts.ltb_asym.
  - intros a b H. apply (NumberFacts.ltb_not_eqb H).
  - intros y c b H1 H2. exact (NumberFacts.eqb_ltb_r H1 H2).
Qed.


Lemma best_by_ext :
  forall f g ps p,
    (forall x, f x = g x) -> best_by f ps p -> best_by g ps p.
Proof.
  intros f g ps p Hfg (b & a & -> & Hb & Ha).
  exists b, a. split; [reflexivity|]. split; intros y Hy.
  - rewrite <- !Hfg. apply Hb, Hy.
  - rewrite <- !Hfg. apply Ha, Hy.
Qed.

(** ** [selectAdaptively] and [selectByCost] as such reductions *)

Lemma selectAdaptively_reduce :
  forall ps r,
    selectAdaptively ps r =
    reduce1 (pick (adaptiveScore r) (fun a b => (b <? a)%float)) ps.
Proof.
  intros [|p0 rest] r; [reflexivity|].
  unfold selectAdaptively, reduce1. cbn [List.map option_map].
  f_equal. revert p0.
  induction rest as [|q rest IH]; intros p0; [reflexivity|].
  cbn [List.map fold_left]. unfold pick at 2. cbn [snd].
  destruct (adaptiveScore r p0 <? adaptiveScore r q)%float; apply IH.
Qed.

Lemma selectByCost_reduce :
  forall ps r,
    selectByCost ps r = reduce1 (pick (estimatedCost r) PrimFloat.ltb) ps.
Proof. reflexivity. Qed.

(** ** Adaptive strategy *)

(** The score before the priority term: forty points for the success
    rate, thirty for the latency term, twenty for the cost term taken as a
    fraction of one hundred cents; in JavaScript numbers, in the order of
    the source. *)
Definition baseScore (r : AIRequest) (p : AIProvider) : number :=
  (0 + successRate (performance p) * 40
   + (1000 / averageLatency (performance p)) * 30
   + (100 - estimatedCost r p) * 20 / 100)%float.

(** The score in points, with the ten points of the priority term. *)
Definition weightedScore (r : AIRequest) (p : AIProvider) : number :=
  match priority r with
  | Some urgent => (baseScore r p + successRate (performance p) * 10)%float
  | Some low => (baseScore r p + (100 - estimatedCost r p) * 10 / 100)%float
  | _ => baseScore r p
  end.

(** Follows the words of the specification: the four terms multiplied by
    40%, 30%, 20% and 10%, on the exact values of the numbers. *)
Definition spec_priorityAdjustment (r : AIRequest) (p : AIProvider) : Q :=
  match priority r with
  | Some urgent => Number.to_Q (successRate (performance p))
  | Some low => 100 - Number.to_Q (estimatedCost r p)
  | _ => 0
  end.

Definition spec_adaptiveScore (r : AIRequest) (p : AIProvider) : Q :=
  (40 # 100) * Number.to_Q (successRate (performance p))
  + (30 # 100) * (1000 / Number.to_Q (averageLatency (performance p)))
  + (20 # 100) * (100 - Number.to_Q (estimatedCost r p))
  + (10 # 100) * spec_priorityAdjustment r p.

Lemma adaptiveScore_weighted :
  forall r p, adaptiveScore r p = weightedScore r p.
Proof.
  intros r p. unfold adaptiveScore, weightedScore, baseScore.
  destruct (priority r) as [[| | |]|]; reflexivity.
Qed.

(** C6 (amended).  On a non-empty candidate list the adaptive strategy
    returns the first candidate of highest score, the score being, as the
    code computes it, [40 * successRate + 30 * (1000 / averageLatency) +
    20 * (100 - estimatedCostCents) / 100], plus [10 * successRate] for
    urgent requests and [10 * (100 - estimatedCostCents) / 100] for
    low-priority ones: no candidate scores more, and no earlier candidate
    scores the same. *)
Theorem C6_adaptive_selects_first_highest_weighted_score :
  forall (ps : list AIProvider) (r : AIRequest),
    ps <> [] ->
    exists p,
      selectAdaptively ps r = Some p /\ best_by (weightedScore r) ps p.
Proof.
  intros ps r Hne.
  destruct (reduce1_best_by (adaptiveScore r) Hne) as (p & Hsel & Hbest).
  exists p. split.
  - rewrite selectAdaptively_reduce. exact Hsel.
  - eapply best_by_ext; [apply adaptiveScore_weighted | exact Hbest].
Qed.

Lemma C6_witness :
  exists p,
    selectAdaptively [openaiProvider; anthropicProvider]
      (sample_request "Hello") = Some p /\
    best_by (weightedScore (sample_request "Hello"))
      [openaiProvider; anthropicProvider] p.
Proof.
  apply C6_adaptive_selects_first_highest_weighted_score.
  discriminate.
Defined.

(** The claim as worded fails: with the weights read as percentages of
    the four terms, the free but unreliable provider has the higher
    score, and the adaptive strategy still returns the reliable one. *)
Lemma C6_counterexample :
  ~ (forall (ps : list AIProvider) (r : AIRequest) (p : AIProvider),
       selectAdaptively ps r = Some p ->
       forall q, In q ps -> spec_adaptiveScore r q <= spec_adaptiveScore r p).
Proof.
  intros H.
  specialize (H [steady_costly; shaky_free] (sample_request "Hello")
                steady_costly eq_refl shaky_free (or_intror (or_introl eq_refl))).
  vm_compute in H. apply H. reflexivity.
Qed.

(** ** Least-cost strategy *)

(** Follows the words of the claim: the estimate before conversion to
    cents and rounding. *)
Definition spec_estimatedCost (r : AIRequest) (p : AIProvider) : number :=
  ((Number.of_Z (estimateTokens (prompt r)) / 1000) * inputTokens (pricing p)
   + (Number.of_Z (outputEstimate r) / 1000) * outputTokens (pricing p))%float.

Lemma estimatedCost_rounds :
  forall r p,
    estimatedCost r p = Number.Math_round (spec_estimatedCost r p * 100)%float.
Proof. reflexivity. Qed.


(** With exactly the two providers as candidates. *)
Lemma selectByCost_pair :
  forall r a b,
    selectByCost [a; b] r =
    Some (if (estimatedCost r b <? estimatedCost r a)%float then b else a).
Proof. reflexivity. Qed.




(** ** Rounding *)

(** The numbers are those of the code: 3.4999999999999996 cents round to
    3, and two scores that exact arithmetic would make equal differ in
    their last digit, so that the later candidate is returned. *)
Example calculateCost_rounds_down :
  calculateCost openaiProvider 2 1166 = 3%float.
Proof. vm_compute. reflexivity. Qed.

Example selectAdaptively_last_digit :
  adaptiveScore (sample_request "Hello") rate94 = 62.999999999999993%float /\
  adaptiveScore (sample_request "Hello") rate79 = 63%float /\
  selectAdaptively [rate94; rate79] (sample_request "Hello") = Some rate79.
Proof. vm_compute. repeat split. Qed.

Example selectByPerformance_last_digit :
  performanceScore slow_reliable = 0.099999999999999992%float /\
  performanceScore fast_flaky = 0.1%float /\
  selectByPerformance [slow_reliable; fast_flaky] = Some fast_flaky.
Proof. vm_compute. repeat split. Qed.

(** ** The selector on the registry *)

(** [selectProvider] hands the candidates to the strategies in registry
    order. *)
Lemma selectProvider_adaptive :
  forall r s,
    loadBalancer s = adaptive ->
    availableProviders s r <> [] ->
    selectProvider r s = selectAdaptively (availableProviders s r) r.
Proof.
  intros r s Hlb Hne. unfold selectProvider. rewrite Hlb.
  destruct (availableProviders s r); [congruence | reflexivity].
Qed.

Lemma selectProvider_least_cost :
  forall r s,
    loadBalancer s = least_cost ->
    availableProviders s r <> [] ->
    selectProvider r s = selectByCost (availableProviders s r) r.
Proof.
  intros r s Hlb Hne. unfold selectProvider. rewrite Hlb.
  destruct (availableProviders s r); [congruence | reflexivity].
Qed.

End SelectorFacts.




(* ===================================================================== *)
(** * Properties of the request orchestrator                               *)
(* ===================================================================== *)

Module OrchestratorFacts.

Import AIProviderManager.
Import PrimFloat.
Local Open Scope Z_scope.

(** The registry, the history and the configuration are the same in both
    states. *)
Definition same_core (s s' : State) : Prop :=
  providers s' = providers s /\
  requestHistory s' = requestHistory s /\
  loadBalancer s' = loadBalancer s /\
  failoverEnabled s' = failoverEnabled s.

(** No provider was attempted or contacted between the two states. *)
Definition same_logs (s s' : State) : Prop :=
  attempted s' = attempted s /\ contacted s' = contacted s.

Lemma same_core_refl : forall s, same_core s s.
Proof. intros s. repeat split. Qed.

Lemma same_core_trans :
  forall s1 s2 s3, same_core s1 s2 -> same_core s2 s3 -> same_core s1 s3.
Proof.
  intros s1 s2 s3 (A1 & A2 & A3 & A4) (B1 & B2 & B3 & B4).
  repeat split; congruence.
Qed.

Section Facts.

Variable env : Env.

(** The entry that [apiCache.get] would return for the request in state
    [s]: present and not expired at the next clock reading. *)
Definition live_entry (r : AIRequest) (s : State)
  : option (ContentCache.CacheEntry AIResponse) :=
  match JSMap.get (getCacheKey env r) (ContentCache.cache (apiCache s)) with
  | Some e =>
      if ContentCache.expiresAt e <? Date_now env (dateReads s)
      then None else Some e
  | None => None
  end.

Lemma apiCache_get_spec :
  forall r s,
    exists s',
      apiCache_get env (getCacheKey env r) s =
        (Ok (option_map (@ContentCache.value _) (live_entry r s)), s') /\
      same_core s s' /\ same_logs s s' /\ perfReads s' = perfReads s.
Proof.
  intros r s. unfold apiCache_get, live_entry, ContentCache.get.
  destruct (JSMap.get (getCacheKey env r) (ContentCache.cache (apiCache s)))
    as [e|]; [destruct (ContentCache.expiresAt e <? _)|];
    eexists; (split; [reflexivity|]); repeat split.
Qed.

(** A live entry is returned at once: [processRequest] ends after the
    lookup. *)
Lemma processRequest_hit :
  forall r s e,
    live_entry r s = Some e ->
    exists s',
      processRequest env r s = (Ok (ContentCache.value e), s') /\
      same_core s s' /\ same_logs s s'.
Proof.
  intros r s e Hlive.
  unfold processRequest, processRequest_try, bind, try_catch, perf_now.
  destruct (apiCache_get_spec r (set_perfReads (S (perfReads s)) s))
    as (s' & Hget & Hcore & Hlogs & _).
  change (live_entry r (set_perfReads (S (perfReads s)) s))
    with (live_entry r s) in Hget.
  rewrite Hlive in Hget. cbn [option_map] in Hget.
  rewrite Hget. cbn. exists s'. auto.
Qed.

Lemma live_entry_of_lookup :
  forall r s e,
    JSMap.get (getCacheKey env r) (ContentCache.cache (apiCache s)) = Some e ->
    Date_now env (dateReads s) <= ContentCache.expiresAt e ->
    live_entry r s = Some e.
Proof.
  intros r s e Hget Hle. unfold live_entry. rewrite Hget.
  destruct (Z.ltb_spec (ContentCache.expiresAt e) (Date_now env (dateReads s)));
    [lia | reflexivity].
Qed.

(** The key is a function of the type, the first hundred characters of the
    prompt, [maxTokens] and [temperature]. *)
Lemma getCacheKey_ext :
  forall r1 r2,
    request_type r1 = request_type r2 ->
    substring 0 100 (prompt r1) = substring 0 100 (prompt r2) ->
    maxTokens r1 = maxTokens r2 ->
    temperature r1 = temperature r2 ->
    getCacheKey env r1 = getCacheKey env r2.
Proof.
  intros r1 r2 Ht Hp Hm Htemp. unfold getCacheKey.
  rewrite Ht, Hp, Hm, Htemp. reflexivity.
Qed.

Lemma JSMap_get_set_same :
  forall (A : Type) (k : string) (v : A) (m : JSMap.t A),
    JSMap.get k (JSMap.set k v m) = Some v.
Proof.
  intros A k v m. induction m as [|[k' v'] m IH]; cbn.
  - rewrite String.eqb_refl. reflexivity.
  - destruct (String.eqb k' k) eqn:E; cbn; rewrite E; [reflexivity | exact IH].
Qed.

Lemma bind_ok_inv :
  forall (S E A B : Type) (c : M S E A) (k : A -> M S E B) s b s',
    bind c k s = (Ok b, s') ->
    exists a s1, c s = (Ok a, s1) /\ k a s1 = (Ok b, s').
Proof.
  intros S E A B c k s b s' H. unfold bind in H.
  destruct (c s) as [[a|e] s1]; [|discriminate].
  exists a, s1. split; [reflexivity | exact H].
Qed.

Lemma apiCache_get_some :
  forall k s v s',
    apiCache_get env k s = (Ok (Some v), s') ->
    exists e,
      JSMap.get k (ContentCache.cache (apiCache s')) = Some e /\
      ContentCache.value e = v.
Proof.
  intros k s v s'. unfold apiCache_get, ContentCache.get.
  destruct (JSMap.get k (ContentCache.cache (apiCache s))) as [e|];
    [destruct (ContentCache.expiresAt e <? _)|];
    intros H; inversion H; subst; clear H.
  cbn. rewrite JSMap_get_set_same. eexists; split; reflexivity.
Qed.

Lemma apiCache_set_stores :
  forall k v ttl s u s',
    apiCache_set env k v ttl s = (Ok u, s') ->
    exists e,
      JSMap.get k (ContentCache.cache (apiCache s')) = Some e /\
      ContentCache.value e = v /\
      ContentCache.expiresAt e =
        Date_now env (dateReads s) +
        ContentCache.or_default (Some ttl) (ContentCache.defaultTTL (apiCache s)).
Proof.
  intros k v ttl s u s'. unfold apiCache_set, ContentCache.set.
  destruct (ContentCache.maxSize (apiCache s) <=? _);
    [destruct (ContentCache.evictLRU _ _ _) as [n1 c1]|];
    intros H; inversion H; subst; clear H; cbn;
    rewrite JSMap_get_set_same; eexists; repeat split.
Qed.

(** Whenever the [try] block of [processRequest] completes, the cache
    holds the returned response under the key of the request: either the
    entry that was hit, or the one just written. *)
Lemma processRequest_try_stores :
  forall r t s resp s1,
    processRequest_try env r t s = (Ok resp, s1) ->
    exists e,
      JSMap.get (getCacheKey env r) (ContentCache.cache (apiCache s1))
        = Some e /\
      ContentCache.value e = resp.
Proof.
  intros r t s resp s1 H. unfold processRequest_try in H.
  apply bind_ok_inv in H as ([v|] & s0 & Hget & H).
  - inversion H; subst. eapply apiCache_get_some, Hget.
  - apply bind_ok_inv in H as ([p|] & s2 & _ & H); [|discriminate].
    apply bind_ok_inv in H as (response & s3 & _ & H).
    apply bind_ok_inv in H as (t1 & s4 & _ & H).
    apply bind_ok_inv in H as (u & s5 & _ & H).
    apply bind_ok_inv in H as (u' & s6 & Hset & H).
    inversion H; subst.
    destruct (apiCache_set_stores _ _ _ _ Hset) as (e & He & Hv & _).
    exists e. split; assumption.
Qed.

Lemma processRequest_of_try :
  forall r s resp s1,
    processRequest_try env r (performance_now env (perfReads s))
      (set_perfReads (S (perfReads s)) s) = (Ok resp, s1) ->
    processRequest env r s = (Ok resp, s1).
Proof.
  intros r s resp s1 H. unfold processRequest, bind, try_catch, perf_now.
  rewrite H. reflexivity.
Qed.


(** C10.  Two requests with the same type, [maxTokens] and [temperature]
    whose prompts have the same first hundred characters get the same
    cache key; so when the cache holds an unexpired entry under the key
    of the first, [processRequest] answers the second with that entry's
    response and attempts no provider, whatever the prompts contain
    beyond the hundredth character. *)
Theorem C10_cache_key_ignores_prompt_tail :
  forall (r1 r2 : AIRequest) (s : State)
         (e : ContentCache.CacheEntry AIResponse),
    request_type r1 = request_type r2 ->
    maxTokens r1 = maxTokens r2 ->
    temperature r1 = temperature r2 ->
    substring 0 100 (prompt r1) = substring 0 100 (prompt r2) ->
    JSMap.get (getCacheKey env r1) (ContentCache.cache (apiCache s))
      = Some e ->
    Date_now env (dateReads s) <= ContentCache.expiresAt e ->
    getCacheKey env r1 = getCacheKey env r2 /\
    exists s',
      processRequest env r2 s = (Ok (ContentCache.value e), s') /\
      attempted s' = attempted s /\
      contacted s' = contacted s.
Proof.
  intros r1 r2 s e Ht Hm Htemp Hp Hget Hlive.
  assert (Hkey : getCacheKey env r1 = getCacheKey env r2)
    by (apply getCacheKey_ext; assumption).
  split; [exact Hkey|].
  rewrite Hkey in Hget.
  destruct (processRequest_hit r2 s (live_entry_of_lookup r2 s Hget Hlive))
    as (s' & Hrun & _ & (Ha & Hc)).
  exists s'. auto.
Qed.

(** ** Failover *)

(** Every SDK call of the run rejects. *)
Definition all_calls_fail : Prop :=
  forall n pid mid r, client_create env n pid mid r = None.

Lemma insert_desc_perm :
  forall x l, Permutation (insert_desc x l) (x :: l).
Proof.
  intros x l. induction l as [|y l IH]; cbn; [reflexivity|].
  destruct (PrimFloat.ltb _ _); [|reflexivity].
  rewrite IH. apply perm_swap.
Qed.

Lemma sort_desc_perm : forall l, Permutation (sort_desc l) l.
Proof.
  induction l as [|x l IH]; cbn; [constructor|].
  rewrite insert_desc_perm. constructor. exact IH.
Qed.

Lemma selectProvider_core :
  forall r s s', same_core s s' -> selectProvider r s' = selectProvider r s.
Proof.
  intros r s s' (Hp & Hh & Hl & _).
  unfold selectProvider, availableProviders. rewrite Hp, Hh, Hl. reflexivity.
Qed.

Lemma remainingProviders_core :
  forall s s', same_core s s' -> remainingProviders s' = remainingProviders s.
Proof.
  intros s s' (Hp & _). unfold remainingProviders. rewrite Hp. reflexivity.
Qed.

(** With every SDK call rejecting, [executeRequest] throws; it leaves one
    entry in the attempt log and touches neither registry nor history. *)
Lemma executeRequest_fails :
  all_calls_fail ->
  forall p r s,
    exists e s',
      executeRequest env p r s = (Throw e, s') /\
      same_core s s' /\
      attempted s' = attempted s ++ [id p].
Proof.
  intros Hfail p r s.
  unfold executeRequest, bind, try_catch, perf_now, modify, client_call,
    throw, ret.
  cbn. 
  destruct (provider_type p); cbn;
    try (do 2 eexists; split; [reflexivity|]; split;
         [repeat split | reflexivity]);
    destruct (selectModel p r) as [m|]; cbn;
    rewrite ?Hfail; cbn;
    do 2 eexists; (split; [reflexivity|]); split;
    try reflexivity; repeat split.
Qed.

Lemma failover_loop_fails :
  all_calls_fail ->
  forall r t ps s,
    exists s',
      failover_loop env ps r t s = (Throw AllProvidersFailed, s') /\
      same_core s s' /\
      attempted s' = attempted s ++ List.map id ps.
Proof.
  intros Hfail r t ps. induction ps as [|p ps IH]; intros s.
  - exists s. cbn. rewrite app_nil_r. repeat split.
  - destruct (executeRequest_fails Hfail p r s) as (e & s1 & He & Hc & Ha).
    destruct (IH s1) as (s' & Hloop & Hc' & Ha').
    exists s'. cbn [failover_loop List.map].
    unfold try_catch, bind. rewrite He. rewrite Hloop.
    split; [reflexivity|]. split.
    + eapply same_core_trans; eassumption.
    + rewrite Ha', Ha, <- app_assoc. reflexivity.
Qed.

(** The provider tried first, if any. *)
Definition first_attempt (r : AIRequest) (s : State) : list string :=
  match selectProvider r s with
  | Some p => [id p]
  | None => []
  end.

(** On a cache miss with every SDK call rejecting, the [try] block
    throws after at most one attempt, on the selected provider. *)
Lemma processRequest_try_fails :
  all_calls_fail ->
  forall r t s,
    live_entry r s = None ->
    exists e s',
      processRequest_try env r t s = (Throw e, s') /\
      same_core s s' /\
      attempted s' = attempted s ++ first_attempt r s.
Proof.
  intros Hfail r t s Hmiss. unfold processRequest_try, bind.
  destruct (apiCache_get_spec r s) as (s0 & Hget & Hc0 & (Ha0 & _) & _).
  rewrite Hget, Hmiss. cbn [option_map].
  unfold gets at 1. unfold first_attempt.
  rewrite (selectProvider_core r Hc0).
  destruct (selectProvider r s) as [p|].
  - destruct (executeRequest_fails Hfail p r s0) as (e & s1 & He & Hc1 & Ha1).
    rewrite He. exists e, s1. split; [reflexivity|]. split.
    + eapply same_core_trans; eassumption.
    + rewrite Ha1, Ha0. reflexivity.
  - exists NoAvailableProviders, s0. split; [reflexivity|]. split.
    + exact Hc0.
    + rewrite Ha0, app_nil_r. reflexivity.
Qed.

(** On a cache miss, when every SDK call rejects, [processRequest]
    attempts the selected provider (if there is one) and then, in the
    failover loop, every provider of [remainingProviders], the one
    already attempted included; the caller receives the error "All
    providers failed"; registry and history are unchanged. *)
Lemma attempts_when_all_calls_fail :
  forall (r : AIRequest) (s : State),
    all_calls_fail ->
    live_entry r s = None ->
    failoverEnabled s = true ->
    exists s',
      processRequest env r s = (Throw AllProvidersFailed, s') /\
      attempted s' =
        attempted s ++ first_attempt r s
          ++ List.map id (remainingProviders s) /\
      Permutation (remainingProviders s)
        (filter (fun p => ProviderStatus_eqb (status p) active)
           (JSMap.values (providers s))) /\
      same_core s s'.
Proof.
  intros r s Hfail Hmiss Hfe.
  unfold processRequest, bind at 1, perf_now, try_catch.
  set (t := performance_now env (perfReads s)).
  set (s0 := set_perfReads (S (perfReads s)) s).
  assert (Hc0 : same_core s s0) by (repeat split).
  destruct (processRequest_try_fails Hfail r t s0 Hmiss)
    as (e & s1 & Htry & Hc1 & Ha1).
  rewrite Htry.
  assert (Hc01 : same_core s s1) by exact (same_core_trans Hc0 Hc1).
  unfold processRequest_catch, bind, perf_now, gets, attemptFailover.
  cbn [failoverEnabled set_perfReads].
  replace (failoverEnabled s1) with true
    by (destruct Hc01 as (_ & _ & _ & ->); symmetry; exact Hfe).
  set (s2 := set_perfReads (S (perfReads s1)) s1).
  assert (Hc2 : same_core s s2)
    by (apply (same_core_trans Hc01); repeat split).
  unfold bind, gets.
  destruct (failover_loop_fails Hfail r t (remainingProviders s2) s2)
    as (s' & Hloop & Hc' & Ha').
  rewrite Hloop. exists s'. split; [reflexivity|].
  rewrite (remainingProviders_core Hc2) in Ha'.
  split; [|split].
  - rewrite Ha'. subst s2. cbn [attempted set_perfReads].
    rewrite Ha1.
    change (first_attempt r s0) with (first_attempt r s).
    change (attempted s0) with (attempted s).
    rewrite <- app_assoc. reflexivity.
  - apply sort_desc_perm.
  - exact (same_core_trans Hc2 Hc').
Qed.

(** ** The error surfaced when no provider qualifies *)

Lemma failover_loop_error :
  forall r t ps s e s',
    failover_loop env ps r t s = (Throw e, s') -> e = AllProvidersFailed.
Proof.
  intros r t ps. induction ps as [|p ps IH]; intros s e s' H.
  - cbn in H. inversion H. reflexivity.
  - cbn [failover_loop] in H. unfold try_catch in H.
    match type of H with
    | (let (_, _) := ?c in _) = _ => destruct c as [[resp|x] s1]
    end.
    + discriminate.
    + eapply IH, H.
Qed.

(** No method writes [failoverEnabled]. *)
Definition keeps_flag {A} (c : MM A) : Prop :=
  forall s o s', c s = (o, s') -> failoverEnabled s' = failoverEnabled s.

Lemma keeps_ret : forall A (a : A), keeps_flag (ret a).
Proof. intros A a s o s' H. inversion H. reflexivity. Qed.

Lemma keeps_throw : forall A (e : Error), keeps_flag (throw e : MM A).
Proof. intros A e s o s' H. inversion H. reflexivity. Qed.

Lemma keeps_gets : forall A (f : State -> A), keeps_flag (gets f).
Proof. intros A f s o s' H. inversion H. reflexivity. Qed.

Lemma keeps_modify :
  forall f : State -> State,
    (forall s, failoverEnabled (f s) = failoverEnabled s) ->
    keeps_flag (modify f).
Proof. intros f Hf s o s' H. inversion H. apply Hf. Qed.

Lemma keeps_bind :
  forall A B (c : MM A) (k : A -> MM B),
    keeps_flag c -> (forall a, keeps_flag (k a)) -> keeps_flag (bind c k).
Proof.
  intros A B c k Hc Hk s o s' H. unfold bind in H.
  destruct (c s) as [[a|e] s1] eqn:E.
  - rewrite (Hk a _ _ _ H). eapply Hc, E.
  - inversion H; subst. eapply Hc, E.
Qed.

Lemma keeps_try_catch :
  forall A (c : MM A) (h : Error -> MM A),
    keeps_flag c -> (forall e, keeps_flag (h e)) ->
    keeps_flag (try_catch c h).
Proof.
  intros A c h Hc Hh s o s' H. unfold try_catch in H.
  destruct (c s) as [[a|e] s1] eqn:E.
  - inversion H; subst. eapply Hc, E.
  - rewrite (Hh e _ _ _ H). eapply Hc, E.
Qed.

Lemma keeps_perf_now : keeps_flag (perf_now env).
Proof. intros s o s' H. inversion H. reflexivity. Qed.

Lemma keeps_now : keeps_flag (now env).
Proof. intros s o s' H. inversion H. reflexivity. Qed.

Lemma keeps_apiCache_get : forall k, keeps_flag (apiCache_get env k).
Proof.
  intros k s o s' H. unfold apiCache_get in H.
  destruct (ContentCache.get _ _ _ _) as [[r n] c].
  inversion H. reflexivity.
Qed.

Lemma keeps_apiCache_set :
  forall k v ttl, keeps_flag (apiCache_set env k v ttl).
Proof.
  intros k v ttl s o s' H. unfold apiCache_set in H.
  destruct (ContentCache.set _ _ _ _ _ _) as [n c].
  inversion H. reflexivity.
Qed.

Lemma keeps_client_call :
  forall p m r, keeps_flag (client_call env p m r).
Proof.
  intros p m r s o s' H. unfold client_call in H.
  destruct (client_create _ _ _ _ _); inversion H; reflexivity.
Qed.

Create HintDb keeps.
#[local] Hint Resolve keeps_ret keeps_throw keeps_gets keeps_perf_now
  keeps_now keeps_apiCache_get keeps_apiCache_set keeps_client_call : keeps.

Ltac keeps :=
  repeat
    match goal with
    | |- keeps_flag (bind _ _) => apply keeps_bind; [|intros ?]
    | |- keeps_flag (try_catch _ _) => apply keeps_try_catch; [|intros ?]
    | |- keeps_flag (modify _) => apply keeps_modify; intros ?; reflexivity
    | |- keeps_flag (match ?x with _ => _ end) => destruct x
    | |- keeps_flag _ => solve [auto with keeps]
    end.

Lemma keeps_executeRequest :
  forall p r, keeps_flag (executeRequest env p r).
Proof. intros p r. unfold executeRequest. keeps. Qed.

Lemma keeps_updateProviderMetrics :
  forall pid ok c l, keeps_flag (updateProviderMetrics env pid ok c l).
Proof.
  intros pid ok c l. unfold updateProviderMetrics. keeps.
  apply keeps_modify. intros s.
  destruct (_ <? _)%nat; reflexivity.
Qed.

#[local] Hint Resolve keeps_executeRequest keeps_updateProviderMetrics
  : keeps.

Lemma keeps_processRequest_try :
  forall r t, keeps_flag (processRequest_try env r t).
Proof. intros r t. unfold processRequest_try. keeps. Qed.

(** With failover enabled (it always is: the field is initialised to
    [true] and never written), the error "No available AI providers"
    thrown inside the [try] block is caught by the function's own
    [catch] and never reaches the caller. *)
Lemma processRequest_never_NoAvailableProviders :
  forall r s s',
    failoverEnabled s = true ->
    processRequest env r s <> (Throw NoAvailableProviders, s').
Proof.
  intros r s s' Hfe H.
  unfold processRequest, bind, perf_now, try_catch in H.
  destruct (processRequest_try env r _ _) as [[resp|e] s1] eqn:Htry;
    [discriminate|].
  apply keeps_processRequest_try in Htry.
  cbn [failoverEnabled set_perfReads] in Htry.
  unfold processRequest_catch, bind, perf_now, gets in H.
  cbn [failoverEnabled set_perfReads] in H. rewrite Htry, Hfe in H.
  unfold attemptFailover, bind, gets in H.
  apply failover_loop_error in H. discriminate.
Qed.

(** ** Status after an update *)

Lemma statusFor_never_offline : forall rate, statusFor rate <> offline.
Proof.
  intros rate. unfold statusFor.
  destruct ((rate <? 0.8)%float) eqn:E8; [discriminate|].
  destruct ((rate <? 0.5)%float) eqn:E5; [|discriminate].
  assert (H : (rate <? 0.8)%float = true)
    by (apply (NumberFacts.ltb_trans E5); reflexivity).
  congruence.
Qed.

Lemma statusFor_cases :
  forall rate,
    ((rate <? 0.8)%float = false -> statusFor rate = active) /\
    ((rate <? 0.8)%float = true -> statusFor rate = degraded).
Proof.
  intros rate. split; intros H.
  - pose proof (statusFor_never_offline rate) as Hoff.
    unfold statusFor in *. rewrite H in *.
    destruct ((rate <? 0.5)%float); [congruence | reflexivity].
  - unfold statusFor. rewrite H. reflexivity.
Qed.

(** After an update the status of the provider is [statusFor] of its new
    success rate, hence never [offline]. *)
Lemma updateProviderMetrics_status :
  forall pid ok c l s p,
    JSMap.get pid (providers s) = Some p ->
    exists p',
      JSMap.get pid (providers (snd (updateProviderMetrics env pid ok c l s)))
        = Some p' /\
      status p' = statusFor (successRate (performance p')) /\
      status p' <> offline.
Proof.
  intros pid ok c l s p Hget.
  unfold updateProviderMetrics, bind, gets. rewrite Hget.
  unfold now, modify. cbn [fst snd].
  match goal with
  | |- context [if (0 <? ?n)%nat then _ else _] => destruct (0 <? n)%nat
  end.
  - destruct ok; cbn; rewrite JSMap_get_set_same; eexists;
      (split; [reflexivity|]); split;
      [reflexivity | apply statusFor_never_offline
      | reflexivity | apply statusFor_never_offline].
  - cbn. rewrite JSMap_get_set_same. eexists.
    split; [reflexivity|]. split;
      [reflexivity | apply statusFor_never_offline].
Qed.

End Facts.

(** ** The statements on concrete runs *)

(** C3 (the code departs from the claim).  Both registered providers are
    candidates (N = 2) and every call rejects: three calls are made, not
    two, because the failover loop calls the provider selected first
    again; the caller receives "All providers failed". *)
Theorem C3_failed_provider_is_called_again :
  List.length (availableProviders initialized (sample_request "Hello"))
    = 2%nat /\
  fst (processRequest (sample_env None) (sample_request "Hello") initialized)
    = Throw AllProvidersFailed /\
  contacted
    (snd (processRequest (sample_env None) (sample_request "Hello")
            initialized))
    = ["openai"; "openai"; "anthropic"]%string.
Proof. vm_compute. repeat split. Qed.

(** Called directly with [success = false], which the class itself never
    does, [updateProviderMetrics] gives a provider without history the
    success rate 0 and the status [degraded]: the test against 0.8 comes
    first and already covers every rate below 0.5. *)
Lemma updateProviderMetrics_failure_gives_degraded :
  exists p,
    JSMap.get "openai"
      (providers
         (snd (updateProviderMetrics (sample_env None) "openai" false 0 100
                 initialized))) = Some p /\
    (successRate (performance p) <? 0.5)%float = true /\
    status p = degraded.
Proof. eexists. vm_compute. repeat split. Qed.


(** C7 (the code departs from the claim).  With the OpenAI backend down,
    the request is answered by Anthropic after two rejected calls to
    OpenAI (the first attempt, then the first round of the failover
    loop).  The history receives one record, for Anthropic; OpenAI, whose
    backend was contacted twice, receives none. *)
Theorem C7_failed_attempts_leave_no_record :
  is_ok (fst (processRequest openai_down_env (sample_request "Hello")
                initialized)) = true /\
  contacted
    (snd (processRequest openai_down_env (sample_request "Hello")
            initialized))
    = ["openai"; "openai"; "anthropic"]%string /\
  List.map (fun h => (providerId h, success h))
    (requestHistory
       (snd (processRequest openai_down_env (sample_request "Hello")
               initialized)))
    = [("anthropic"%string, true)].
Proof. vm_compute. repeat split. Qed.

(** C9 (the code departs from the claim).  No registered model offers
    10000 output tokens, so the request has no candidate; the error
    thrown for that is caught by [processRequest] itself, the failover
    loop calls the first active provider, and the caller receives that
    provider's response.  On an empty registry the caller receives "All
    providers failed". *)
Theorem C9_no_candidate_falls_through_to_failover :
  selectProvider oversized_request initialized = None /\
  option_map provider
    (match fst (processRequest (sample_env (Some sample_reply))
                  oversized_request initialized) with
     | Ok r => Some r
     | Throw _ => None
     end) = Some "openai"%string /\
  contacted
    (snd (processRequest (sample_env (Some sample_reply)) oversized_request
            initialized)) = ["openai"]%string /\
  fst (processRequest (sample_env (Some sample_reply)) oversized_request
         initial) = Throw AllProvidersFailed.
Proof. vm_compute. repeat split. Qed.

Lemma C10_witness :
  long_prompt_x <> long_prompt_y /\
  getCacheKey (sample_env (Some sample_reply)) (sample_request long_prompt_x)
  = getCacheKey (sample_env (Some sample_reply))
      (sample_request long_prompt_y) /\
  exists s',
    processRequest (sample_env (Some sample_reply))
      (sample_request long_prompt_y) (snd long_run)
    = (fst long_run, s') /\
    contacted s' = ["openai"]%string.
Proof.
  split; [vm_compute; discriminate|].
  destruct (@C10_cache_key_ignores_prompt_tail
              (sample_env (Some sample_reply))
              (sample_request long_prompt_x) (sample_request long_prompt_y)
              (snd long_run)
              (cached_entry (sample_env (Some sample_reply))
                 (sample_request long_prompt_x) (snd long_run)))
    as (Hkey & s' & Hrun & _ & Hc).
  - reflexivity.
  - reflexivity.
  - reflexivity.
  - vm_compute; reflexivity.
  - vm_compute; reflexivity.
  - vm_compute; discriminate.
  - split; [exact Hkey|]. exists s'. split.
    + rewrite Hrun. vm_compute; reflexivity.
    + rewrite Hc. vm_compute; reflexivity.
Defined.

End OrchestratorFacts.

(* ===================================================================== *)
(** * Further properties of the circuit breaker                            *)
(* ===================================================================== *)

Module CircuitBreakerMore.

Import CircuitBreaker.
Import CircuitBreakerFacts.
Local Open Scope Z_scope.

Section More.

Variables U X : Type.
Variable Date_now : nat -> Z.

Ltac run :=
  unfold execute, gate, attempt, onSuccess, onFailure, open, reset, call,
    getStatus, now, this, assign, bind, try_catch, ret, throw, is_reset in *;
  cbn in *.

Ltac open_sys s :=
  destruct s as [[? ? ? ? ? ? ?] [? ?] ?]; cbn in *; subst.

(** What a reachable breaker satisfies. *)
Definition counters_ok (b : Breaker) : Prop :=
  0 <= failureCount b /\ 0 <= successCount b < 5.

Lemma execute_keeps_counters :
  forall T (op : Operation U X T) (s : Sys U),
    counters_ok (brk s) ->
    counters_ok (brk (snd (execute Date_now op s))) /\
    name (brk (snd (execute Date_now op s))) = name (brk s) /\
    config (brk (snd (execute Date_now op s))) = config (brk s).
Proof.
  intros T op s (Hf & Hs). open_sys s. unfold counters_ok. run.
  match goal with |- context [match ?st with CLOSED => _ | _ => _ end] =>
    destruct st end; cbn.
  - match goal with |- context [op ?w] =>
      destruct (op w) as [[v|x] [? ?]] end; cbn;
    match goal with |- context [if ?c then _ else _] => destruct c end;
    cbn; repeat split; lia.
  - match goal with |- context [?a <? ?b] => destruct (a <? b) end; cbn;
      [repeat split; lia|].
    match goal with |- context [op ?w] =>
      destruct (op w) as [[v|x] [? ?]] end; cbn; repeat split; lia.
  - match goal with |- context [op ?w] =>
      destruct (op w) as [[v|x] [? ?]] end; cbn.
    + match goal with |- context [5 <=? ?c] => destruct (Z.leb_spec 5 c) end;
        cbn; repeat split; lia.
    + repeat split; lia.
Qed.

(** Whatever the calls made on a new breaker, and whatever they return,
    [failureCount] is never negative, [successCount] stays within 0..4,
    and name and configuration are those given to the constructor. *)
Theorem reachable_breaker_counters :
  forall T (ops : list (Operation U X T)) (n : string)
         (c : CircuitBreakerConfig) (w : World U) (i : nat),
    let s := execute_all Date_now ops
               {| brk := new n c; world := w; invoked := i |} in
    0 <= failureCount (brk s) /\
    0 <= successCount (brk s) < 5 /\
    name (brk s) = n /\ config (brk s) = c.
Proof.
  intros T ops n c w i.
  assert (H : forall s : Sys U,
             counters_ok (brk s) ->
             counters_ok (brk (execute_all Date_now ops s)) /\
             name (brk (execute_all Date_now ops s)) = name (brk s) /\
             config (brk (execute_all Date_now ops s)) = config (brk s)).
  { induction ops as [|op ops IH]; intros s Hs; cbn; [auto|].
    destruct (execute_keeps_counters op s Hs) as (H1 & H2 & H3).
    destruct (IH _ H1) as (K1 & K2 & K3).
    repeat split; try apply K1; congruence. }
  cbv zeta.
  destruct (H {| brk := new n c; world := w; invoked := i |})
    as ((H1 & H2) & H3 & H4).
  - unfold counters_ok; cbn; lia.
  - auto.
Qed.

(** A call that is let through returns what the operation returns and
    rethrows what it throws; the operation runs once. *)
Theorem execute_passes_outcome_through :
  forall T (op : Operation U X T) (s : Sys U),
    state (brk s) <> OPEN ->
    fst (execute Date_now op s) =
      match fst (op (world s)) with
      | Ok v => Ok v
      | Throw x => Throw (OperationError x)
      end /\
    invoked (snd (execute Date_now op s)) = S (invoked s) /\
    ext (world (snd (execute Date_now op s))) = ext (snd (op (world s))).
Proof.
  intros T op s Hst. open_sys s. run.
  match goal with |- context [match ?st with CLOSED => _ | _ => _ end] =>
    destruct st end; cbn; try congruence;
  match goal with |- context [op ?w] =>
    destruct (op w) as [[v|x] [? ?]] end; cbn;
  repeat match goal with |- context [if ?c then _ else _] =>
    destruct c; cbn end; repeat split.
Qed.

Lemma execute_all_app :
  forall T (ops1 ops2 : list (Operation U X T)) (s : Sys U),
    execute_all Date_now (ops1 ++ ops2) s =
    execute_all Date_now ops2 (execute_all Date_now ops1 s).
Proof.
  induction ops1 as [|op ops1 IH]; intros ops2 s; cbn; [reflexivity|].
  apply IH.
Qed.

(** One failing call made in [CLOSED]. *)
Lemma failure_in_closed :
  forall T (op : Operation U X T) (s : Sys U),
    always_fails op ->
    state (brk s) = CLOSED ->
    let s' := snd (execute Date_now op s) in
    failureCount (brk s') = failureCount (brk s) + 1 /\
    config (brk s') = config (brk s) /\
    invoked s' = S (invoked s) /\
    state (brk s') =
      (if failureThreshold (config (brk s)) <=? failureCount (brk s) + 1
       then OPEN else CLOSED).
Proof.
  intros T op s Hop Hst. open_sys s. run.
  match goal with |- context [op ?w] =>
    specialize (Hop w); destruct (op w) as [[v|x] [? ?]] end;
    cbn in *; [discriminate|].
  match goal with |- context [if ?c then _ else _] => destruct c end;
    cbn; repeat split.
Qed.

Lemma failures_below_threshold :
  forall T (ops : list (Operation U X T)) (s : Sys U),
    Forall (@always_fails U X T) ops ->
    state (brk s) = CLOSED ->
    failureCount (brk s) + Z.of_nat (List.length ops)
      < failureThreshold (config (brk s)) ->
    let s' := execute_all Date_now ops s in
    state (brk s') = CLOSED /\
    failureCount (brk s') = failureCount (brk s) + Z.of_nat (List.length ops) /\
    config (brk s') = config (brk s) /\
    invoked s' = (invoked s + List.length ops)%nat.
Proof.
  induction ops as [|op ops IH]; intros s Hall Hst Hlt.
  - cbn. repeat split; try assumption; lia.
  - inversion Hall as [|? ? Hop Hops]; subst.
    cbn [execute_all List.length] in *. rewrite Nat2Z.inj_succ in *.
    destruct (failure_in_closed s Hop Hst) as (Hf & Hc & Hi & Hs).
    destruct (Z.leb_spec (failureThreshold (config (brk s)))
                (failureCount (brk s) + 1)) as [Hle|Hgt]; [lia|].
    destruct (IH (snd (execute Date_now op s)) Hops Hs) as (K1 & K2 & K3 & K4).
    + rewrite Hf, Hc. lia.
    + cbv zeta. rewrite K1, K2, K3, K4, Hf, Hc, Hi.
      repeat split; lia.
Qed.

(** In [CLOSED], failing calls leave the breaker closed as long as the
    failure count stays below [failureThreshold], and the failing call
    that brings the count to the threshold opens it.  Every one of these
    calls invokes its operation. *)
Theorem failures_open_at_threshold :
  forall T (ops : list (Operation U X T)) (op : Operation U X T)
         (s : Sys U),
    state (brk s) = CLOSED ->
    Forall (@always_fails U X T) ops ->
    always_fails op ->
    failureCount (brk s) + Z.of_nat (List.length ops) + 1
      = failureThreshold (config (brk s)) ->
    state (brk (execute_all Date_now ops s)) = CLOSED /\
    state (brk (execute_all Date_now (ops ++ [op]) s)) = OPEN /\
    failureCount (brk (execute_all Date_now (ops ++ [op]) s))
      = failureThreshold (config (brk s)) /\
    invoked (execute_all Date_now (ops ++ [op]) s)
      = (invoked s + List.length ops + 1)%nat.
Proof.
  intros T ops op s Hst Hall Hop Heq.
  destruct (failures_below_threshold s Hall Hst) as (K1 & K2 & K3 & K4);
    [lia|].
  split; [exact K1|].
  rewrite execute_all_app. cbn [execute_all].
  destruct (failure_in_closed (execute_all Date_now ops s) Hop K1)
    as (Hf & Hc & Hi & Hs).
  rewrite Hs, Hf, Hi, K2, K3, K4.
  destruct (Z.leb_spec (failureThreshold (config (brk s)))
              (failureCount (brk s) + Z.of_nat (List.length ops) + 1));
    [|lia].
  repeat split; lia.
Qed.

(** In [CLOSED], a call that succeeds leaves the breaker closed; it
    clears the failure count only when more than [timeoutWindow] has
    passed since the last failure, and keeps it otherwise. *)
Theorem success_in_closed_clears_only_after_window :
  forall T (op : Operation U X T) (s : Sys U),
    always_succeeds op ->
    state (brk s) = CLOSED ->
    let t := Date_now (dateReads (snd (op (world s)))) in
    brk (snd (execute Date_now op s)) =
      (if timeoutWindow (config (brk s)) <? t - lastFailureTime (brk s)
       then set_failureCount 0 (brk s) else brk s).
Proof.
  intros T op s Hop Hst. open_sys s. run.
  match goal with |- context [op ?w] =>
    specialize (Hop w); destruct (op w) as [[v|x] [? ?]] end;
    cbn in *; [|discriminate].
  match goal with |- context [if ?c then _ else _] => destruct c end;
    reflexivity.
Qed.

(** A breaker that has recovered is the breaker the constructor builds. *)
Theorem recovered_breaker_is_new :
  forall T (ops : list (Operation U X T)) (s : Sys U),
    state (brk s) = HALF_OPEN ->
    0 <= successCount (brk s) ->
    List.length ops = 5%nat ->
    Forall (@always_succeeds U X T) ops ->
    brk (execute_all Date_now ops s) = new (name (brk s)) (config (brk s)).
Proof.
  intros T ops s Hst Hsc Hlen Hall.
  assert (Hreset : is_reset (brk (execute_all Date_now ops s))).
  { apply successes_reach_five; try assumption.
    - intros ->. discriminate.
    - rewrite Hlen. lia. }
  assert (Hnc : forall (l : list (Operation U X T)) (s0 : Sys U),
            name (brk (execute_all Date_now l s0)) = name (brk s0) /\
            config (brk (execute_all Date_now l s0)) = config (brk s0)).
  { induction l as [|op l IH]; intros s0; cbn; [auto|].
    destruct (IH (snd (execute Date_now op s0))) as (K1 & K2).
    rewrite K1, K2. clear.
    open_sys s0. run.
    match goal with |- context [match ?st with CLOSED => _ | _ => _ end] =>
      destruct st end; cbn;
    repeat match goal with
           | |- context [op ?w] => destruct (op w) as [[v|x] [? ?]]; cbn
           | |- context [if ?c then _ else _] => destruct c; cbn
           end; auto. }
  destruct (Hnc ops s) as (Hn & Hc).
  destruct Hreset as (R1 & R2 & R3 & R4 & R5).
  destruct (brk (execute_all Date_now ops s)); cbn in *; subst.
  reflexivity.
Qed.

(** While the state is [OPEN], [getStatus] reports the breaker as not
    available and leaves it untouched, also at a time at which [execute]
    lets the call through and invokes the operation. *)
Theorem open_breaker_reports_unavailable :
  forall T (op : Operation U X T) (s : Sys U),
    state (brk s) = OPEN ->
    nextAttemptTime (brk s) <= Date_now (dateReads (world s)) ->
    (exists st, @getStatus U Date_now (Error X) s = (Ok st, s) /\
                isAvailable st = false /\ status_state st = OPEN) /\
    invoked (snd (execute Date_now op s)) = S (invoked s).
Proof.
  intros T op s Hst Hge. split.
  - open_sys s. run. eexists. split; [reflexivity|]. split; reflexivity.
  - open_sys s. run.
    match goal with |- context [?a <? ?b] =>
      destruct (Z.ltb_spec a b); [lia|] end.
    cbn.
    match goal with |- context [op ?w] =>
      destruct (op w) as [[v|x] [? ?]] end; cbn; reflexivity.
Qed.

End More.

Lemma execute_passes_outcome_through_witness :
  fst (execute sample_clock sample_ok (sample_sys paymentCircuitBreaker 0))
    = Ok 42 /\
  fst (execute sample_clock sample_fail (sample_sys paymentCircuitBreaker 0))
    = Throw (OperationError tt).
Proof.
  split.
  - apply (proj1 (@execute_passes_outcome_through unit unit sample_clock Z
                    sample_ok (sample_sys paymentCircuitBreaker 0)
                    ltac:(vm_compute; discriminate))).
  - apply (proj1 (@execute_passes_outcome_through unit unit sample_clock Z
                    sample_fail (sample_sys paymentCircuitBreaker 0)
                    ltac:(vm_compute; discriminate))).
Defined.

Lemma failures_open_at_threshold_witness :
  state (brk (execute_all sample_clock [sample_fail; sample_fail]
                (sample_sys paymentCircuitBreaker 0))) = CLOSED /\
  state (brk (execute_all sample_clock
                ([sample_fail; sample_fail] ++ [sample_fail])
                (sample_sys paymentCircuitBreaker 0))) = OPEN.
Proof.
  destruct (@failures_open_at_threshold unit unit sample_clock Z
              [sample_fail; sample_fail] sample_fail
              (sample_sys paymentCircuitBreaker 0))
    as (H1 & H2 & _).
  - reflexivity.
  - repeat constructor.
  - intro w. reflexivity.
  - reflexivity.
  - split; assumption.
Defined.

Lemma success_in_closed_clears_only_after_window_witness :
  brk (snd (execute sample_clock sample_ok
              (sample_sys paymentCircuitBreaker 0)))
  = paymentCircuitBreaker.
Proof.
  rewrite (@success_in_closed_clears_only_after_window unit unit
             sample_clock Z sample_ok (sample_sys paymentCircuitBreaker 0)).
  - reflexivity.
  - intro w. reflexivity.
  - reflexivity.
Defined.

Lemma recovered_breaker_is_new_witness :
  brk (execute_all sample_clock
         [sample_ok; sample_ok; sample_ok; sample_ok; sample_ok]
         sample_half_open)
  = paymentCircuitBreaker.
Proof.
  rewrite (@recovered_breaker_is_new unit unit sample_clock Z
             [sample_ok; sample_ok; sample_ok; sample_ok; sample_ok]
             sample_half_open).
  - reflexivity.
  - reflexivity.
  - vm_compute. discriminate.
  - reflexivity.
  - repeat constructor.
Defined.

Lemma open_breaker_reports_unavailable_witness :
  (exists st,
     @getStatus unit sample_clock (Error unit) sample_tripped_later
       = (Ok st, sample_tripped_later) /\
     isAvailable st = false /\ status_state st = OPEN) /\
  invoked (snd (execute sample_clock sample_ok sample_tripped_later))
    = 1%nat.
Proof.
  apply (@open_breaker_reports_unavailable unit unit sample_clock Z
           sample_ok sample_tripped_later).
  - reflexivity.
  - vm_compute. discriminate.
Defined.

End CircuitBreakerMore.

(* ===================================================================== *)
(** * Properties of the content cache                                      *)
(* ===================================================================== *)

Module JSMapFacts.

Section Facts.
Variable A : Type.
Implicit Types (m : JSMap.t A) (k : string) (v : A).

(** Keys are pairwise distinct, as in every [Map]. *)
Definition wf m : Prop := NoDup (List.map fst m).

Lemma get_set_other :
  forall k k' v m, k' <> k -> JSMap.get k' (JSMap.set k v m) = JSMap.get k' m.
Proof.
  intros k k' v m Hne. induction m as [|[k0 v0] m IH]; cbn.
  - destruct (String.eqb_spec k k'); [congruence | reflexivity].
  - destruct (String.eqb_spec k0 k); cbn.
    + subst. destruct (String.eqb_spec k k'); [congruence | reflexivity].
    + destruct (String.eqb_spec k0 k'); [reflexivity | exact IH].
Qed.

Lemma get_delete_other :
  forall k k' m, k' <> k -> JSMap.get k' (JSMap.delete k m) = JSMap.get k' m.
Proof.
  intros k k' m Hne. induction m as [|[k0 v0] m IH]; cbn; [reflexivity|].
  destruct (String.eqb_spec k0 k); cbn.
  - subst. destruct (String.eqb_spec k k'); [congruence | reflexivity].
  - destruct (String.eqb_spec k0 k'); [reflexivity | exact IH].
Qed.

Lemma get_none_not_in :
  forall k m, JSMap.get k m = None <-> ~ In k (List.map fst m).
Proof.
  intros k m. induction m as [|[k0 v0] m IH]; cbn.
  - split; [intros _ [] | reflexivity].
  - destruct (String.eqb_spec k0 k).
    + split; [discriminate | intros H; exfalso; apply H; left; assumption].
    + rewrite IH. split; [intros H [E|E]; auto | intros H E; apply H; right; exact E].
Qed.

Lemma get_In : forall k v m, JSMap.get k m = Some v -> In (k, v) m.
Proof.
  intros k v m. induction m as [|[k0 v0] m IH]; cbn; [discriminate|].
  destruct (String.eqb_spec k0 k).
  - intros H. inversion H; subst. left. reflexivity.
  - intros H. right. apply IH, H.
Qed.

Lemma In_get_wf :
  forall k v m, wf m -> In (k, v) m -> JSMap.get k m = Some v.
Proof.
  intros k v m. unfold wf. induction m as [|[k0 v0] m IH]; cbn; [intros _ []|].
  intros Hnd [E|Hin].
  - inversion E; subst. rewrite String.eqb_refl. reflexivity.
  - inversion Hnd as [|? ? Hnot Hnd']; subst.
    destruct (String.eqb_spec k0 k).
    + subst. exfalso. apply Hnot.
      change k with (fst (k, v)). apply in_map, Hin.
    + apply IH; assumption.
Qed.

Lemma delete_absent :
  forall k m, JSMap.get k m = None -> JSMap.delete k m = m.
Proof.
  intros k m. induction m as [|[k0 v0] m IH]; cbn; [reflexivity|].
  destruct (String.eqb k0 k); [discriminate|].
  intros H. rewrite IH; [reflexivity | exact H].
Qed.

Lemma keys_delete_subset :
  forall k k' m, In k' (List.map fst (JSMap.delete k m)) ->
                 In k' (List.map fst m).
Proof.
  intros k k' m. induction m as [|[k0 v0] m IH]; cbn; [auto|].
  destruct (String.eqb k0 k); cbn.
  - auto.
  - intros [E|H]; [left; exact E | right; apply IH, H].
Qed.

Lemma wf_delete : forall k m, wf m -> wf (JSMap.delete k m).
Proof.
  intros k m. unfold wf. induction m as [|[k0 v0] m IH]; cbn; [auto|].
  intros Hnd. inversion Hnd as [|? ? Hnot Hnd']; subst.
  destruct (String.eqb k0 k); cbn; [assumption|].
  constructor; [|apply IH; assumption].
  intros Hin. apply Hnot. eapply keys_delete_subset, Hin.
Qed.

Lemma get_delete_same :
  forall k m, wf m -> JSMap.get k (JSMap.delete k m) = None.
Proof.
  intros k m. unfold wf. induction m as [|[k0 v0] m IH]; cbn; [reflexivity|].
  intros Hnd. inversion Hnd as [|? ? Hnot Hnd']; subst.
  destruct (String.eqb_spec k0 k); cbn.
  - subst. apply get_none_not_in. exact Hnot.
  - destruct (String.eqb_spec k0 k); [congruence|]. apply IH; assumption.
Qed.

Lemma keys_set :
  forall k v m k',
    In k' (List.map fst (JSMap.set k v m)) <->
    k' = k \/ In k' (List.map fst m).
Proof.
  intros k v m k'. induction m as [|[k0 v0] m IH]; cbn.
  - split; [intros [E|[]]; auto | intros [E|[]]; auto].
  - destruct (String.eqb_spec k0 k); cbn.
    + subst. intuition (subst; auto).
    + rewrite IH. tauto.
Qed.

Lemma wf_set : forall k v m, wf m -> wf (JSMap.set k v m).
Proof.
  intros k v m. unfold wf. induction m as [|[k0 v0] m IH]; cbn.
  - intros _. constructor; [intros [] | constructor].
  - intros Hnd. inversion Hnd as [|? ? Hnot Hnd']; subst.
    destruct (String.eqb_spec k0 k); cbn.
    + constructor; assumption.
    + constructor; [|apply IH; assumption].
      intros Hin. apply keys_set in Hin. destruct Hin as [E|Hin]; auto.
Qed.

Lemma length_set :
  forall k v m,
    List.length (JSMap.set k v m) =
    match JSMap.get k m with
    | Some _ => List.length m
    | None => S (List.length m)
    end.
Proof.
  intros k v m. induction m as [|[k0 v0] m IH]; cbn; [reflexivity|].
  destruct (String.eqb k0 k); cbn; [reflexivity|].
  rewrite IH. destruct (JSMap.get k m); reflexivity.
Qed.

Lemma length_delete :
  forall k m,
    List.length m =
    match JSMap.get k m with
    | Some _ => S (List.length (JSMap.delete k m))
    | None => List.length (JSMap.delete k m)
    end.
Proof.
  intros k m. induction m as [|[k0 v0] m IH]; cbn; [reflexivity|].
  destruct (String.eqb k0 k); cbn; [reflexivity|].
  rewrite IH at 1. destruct (JSMap.get k m); reflexivity.
Qed.

End Facts.

End JSMapFacts.

Module ContentCacheFacts.

Import ContentCache.
Import JSMapFacts.
Local Open Scope Z_scope.

Section Facts.

Variable V : Type.
Variable Date_now : nat -> Z.

Lemma get_set_same :
  forall (k : string) (e : CacheEntry V) (m : JSMap.t (CacheEntry V)),
    JSMap.get k (JSMap.set k e m) = Some e.
Proof.
  intros k e m. induction m as [|[k' e'] m IH]; cbn.
  - rewrite String.eqb_refl. reflexivity.
  - destruct (String.eqb k' k) eqn:E; cbn; rewrite E; [reflexivity | exact IH].
Qed.

(** ** Eviction *)

(** What the scan of [evictLRU] returns: nothing new when no entry is
    older than the starting time, otherwise the key of an entry that is
    least recently accessed. *)
Lemma lru_scan_spec :
  forall (m : JSMap.t (CacheEntry V)) (acc : option string) (t : Z),
    (lru_scan m acc t = acc /\
     forall k e, In (k, e) m -> t <= lastAccessed e) \/
    (exists k e,
       lru_scan m acc t = Some k /\ In (k, e) m /\ lastAccessed e < t /\
       forall k' e', In (k', e') m -> lastAccessed e <= lastAccessed e').
Proof.
  induction m as [|[k0 e0] m IH]; intros acc t; cbn.
  - left. split; [reflexivity | intros k e []].
  - destruct (Z.ltb_spec (lastAccessed e0) t) as [Hlt|Hge].
    + right.
      destruct (IH (Some k0) (lastAccessed e0)) as [(Heq & Hall)|(k & e & Heq & Hin & Hlt' & Hmin)].
      * exists k0, e0. split; [exact Heq|]. split; [left; reflexivity|].
        split; [exact Hlt|].
        intros k' e' [E|Hin]; [inversion E; subst; lia | eapply Hall, Hin].
      * exists k, e. split; [exact Heq|]. split; [right; exact Hin|].
        split; [lia|].
        intros k' e' [E|Hin']; [inversion E; subst; lia | eapply Hmin, Hin'].
    + destruct (IH acc t) as [(Heq & Hall)|(k & e & Heq & Hin & Hlt' & Hmin)].
      * left. split; [exact Heq|].
        intros k e [E|Hin]; [inversion E; subst; exact Hge | eapply Hall, Hin].
      * right. exists k, e. split; [exact Heq|]. split; [right; exact Hin|].
        split; [exact Hlt'|].
        intros k' e' [E|Hin']; [inversion E; subst; lia | eapply Hmin, Hin'].
Qed.

(** With an entry to evict, [evictLRU] deletes one entry. *)
Lemma evictLRU_deletes_one :
  forall (n : nat) (c : ContentCache.t V),
    (exists k e, In (k, e) (cache c) /\ lastAccessed e < Date_now n) ->
    (forall k e, In (k, e) (cache c) -> k <> ""%string) ->
    exists k,
      evictLRU Date_now n c = (S n, with_cache (JSMap.delete k (cache c)) c) /\
      S (List.length (JSMap.delete k (cache c))) = List.length (cache c).
Proof.
  intros n c (k1 & e1 & Hin1 & Hlt1) Hkeys. unfold evictLRU.
  destruct (lru_scan_spec (cache c) None (Date_now n))
    as [(_ & Hall)|(k & e & Heq & Hin & _)].
  - specialize (Hall _ _ Hin1). lia.
  - rewrite Heq. exists k.
    destruct (String.eqb_spec k ""); [exfalso; eapply Hkeys; eassumption|].
    split; [reflexivity|].
    pose proof (length_delete k (cache c)) as Hlen.
    destruct (JSMap.get k (cache c)) eqn:Hget; [auto|].
    apply get_none_not_in in Hget. exfalso. apply Hget.
    change k with (fst (k, e)). apply in_map, Hin.
Qed.

(** When some entry was last accessed before the clock reading taken by
    [evictLRU] (and no key is the empty string), [evictLRU] deletes one
    entry, and no entry of the cache was accessed less recently than the
    one deleted. *)
Theorem evictLRU_evicts_least_recently_used :
  forall (n : nat) (c : ContentCache.t V),
    (exists k e, In (k, e) (cache c) /\ lastAccessed e < Date_now n) ->
    (forall k e, In (k, e) (cache c) -> k <> ""%string) ->
    exists k e,
      In (k, e) (cache c) /\
      evictLRU Date_now n c = (S n, with_cache (JSMap.delete k (cache c)) c) /\
      (forall k' e', In (k', e') (cache c) ->
                     lastAccessed e <= lastAccessed e') /\
      S (List.length (JSMap.delete k (cache c))) = List.length (cache c).
Proof.
  intros n c (k1 & e1 & Hin1 & Hlt1) Hkeys. unfold evictLRU.
  destruct (lru_scan_spec (cache c) None (Date_now n))
    as [(_ & Hall)|(k & e & Heq & Hin & Hlt & Hmin)].
  - specialize (Hall _ _ Hin1). lia.
  - rewrite Heq. exists k, e. split; [exact Hin|].
    destruct (String.eqb_spec k ""); [exfalso; eapply Hkeys; eassumption|].
    split; [reflexivity|]. split; [exact Hmin|].
    pose proof (length_delete k (cache c)) as Hlen.
    destruct (JSMap.get k (cache c)) eqn:Hget; [auto|].
    apply get_none_not_in in Hget. exfalso. apply Hget.
    change k with (fst (k, e)). apply in_map, Hin.
Qed.

(** Entries accessed at the clock reading taken by [evictLRU], or later,
    are never evicted: when there are no others, nothing is deleted. *)
Theorem evictLRU_keeps_entries_not_older_than_now :
  forall (n : nat) (c : ContentCache.t V),
    (forall k e, In (k, e) (cache c) -> Date_now n <= lastAccessed e) ->
    evictLRU Date_now n c = (S n, c).
Proof.
  intros n c Hall. unfold evictLRU.
  destruct (lru_scan_spec (cache c) None (Date_now n))
    as [(Heq & _)|(k & e & _ & Hin & Hlt & _)].
  - rewrite Heq. reflexivity.
  - specialize (Hall _ _ Hin). lia.
Qed.

(** ** [set] and [get] *)

Lemma evictLRU_fields :
  forall (n : nat) (c : ContentCache.t V),
    fst (evictLRU Date_now n c) = S n /\
    maxSize (snd (evictLRU Date_now n c)) = maxSize c /\
    defaultTTL (snd (evictLRU Date_now n c)) = defaultTTL c /\
    hits (snd (evictLRU Date_now n c)) = hits c /\
    misses (snd (evictLRU Date_now n c)) = misses c.
Proof.
  intros n c. unfold evictLRU.
  destruct (lru_scan _ _ _) as [k|]; [destruct (String.eqb k "")|];
    cbn; repeat split.
Qed.

(** A [get] issued right after a [set] of the same key, with no other
    operation on the cache in between, returns the value set unless the
    clock has passed its expiry ([ttl], or [defaultTTL] when [ttl] is
    absent or zero, after the clock reading taken by [set]), whatever
    eviction that [set] did; the [get] counts as a hit. *)
Theorem get_after_set :
  forall (k : string) (v : V) (ttl : option Z) (n : nat) (c : ContentCache.t V),
    let n1 := fst (set Date_now k v ttl n c) in
    let c1 := snd (set Date_now k v ttl n c) in
    Date_now n1 <= Date_now n + or_default ttl (defaultTTL c) ->
    fst (fst (get Date_now k n1 c1)) = Some v /\
    hits (snd (get Date_now k n1 c1)) = hits c + 1 /\
    misses (snd (get Date_now k n1 c1)) = misses c.
Proof.
  intros k v ttl n c n1 c1. subst n1 c1. unfold set.
  destruct (maxSize c <=? JSMap.size (cache c)).
  - destruct (evictLRU_fields (S n) c) as (H1 & _ & _ & H4 & H5).
    destruct (evictLRU Date_now (S n) c) as [n' c']. cbn in *.
    intros Hlive. unfold get. cbn. rewrite get_set_same. cbn.
    destruct (Z.ltb_spec (Date_now n + or_default ttl (defaultTTL c))
                (Date_now n')); [lia|].
    cbn. repeat split; congruence.
  - cbn. intros Hlive. unfold get. cbn. rewrite get_set_same. cbn.
    destruct (Z.ltb_spec (Date_now n + or_default ttl (defaultTTL c))
                (Date_now (S n))); [lia|].
    cbn. repeat split.
Qed.

(** A [get] on an entry that has expired returns nothing, deletes the
    entry and counts as a miss; the other keys are left as they were. *)
Theorem get_expired_deletes :
  forall (k : string) (e : CacheEntry V) (n : nat) (c : ContentCache.t V),
    wf (cache c) ->
    JSMap.get k (cache c) = Some e ->
    expiresAt e < Date_now n ->
    fst (fst (get Date_now k n c)) = None /\
    JSMap.get k (cache (snd (get Date_now k n c))) = None /\
    (forall k', k' <> k ->
       JSMap.get k' (cache (snd (get Date_now k n c)))
       = JSMap.get k' (cache c)) /\
    misses (snd (get Date_now k n c)) = misses c + 1 /\
    hits (snd (get Date_now k n c)) = hits c.
Proof.
  intros k e n c Hwf Hget Hexp. unfold get. rewrite Hget.
  destruct (Z.ltb_spec (expiresAt e) (Date_now n)); [|lia]. cbn.
  split; [reflexivity|]. split; [apply get_delete_same, Hwf|].
  split; [|split; reflexivity].
  intros k' Hne. apply get_delete_other, Hne.
Qed.

(** With room for eviction (every entry older than the clock reading
    taken by [evictLRU], no empty key), [set] keeps the cache within
    [maxSize]. *)
Theorem set_within_capacity :
  forall (k : string) (v : V) (ttl : option Z) (n : nat) (c : ContentCache.t V),
    1 <= maxSize c ->
    JSMap.size (cache c) <= maxSize c ->
    (forall k' e, In (k', e) (cache c) ->
                  k' <> ""%string /\ lastAccessed e < Date_now (S n)) ->
    JSMap.size (cache (snd (set Date_now k v ttl n c))) <= maxSize c.
Proof.
  intros k v ttl n c Hmax Hsize Hold. unfold set, JSMap.size in *.
  destruct (Z.leb_spec (maxSize c) (Z.of_nat (List.length (cache c))))
    as [Hfull|Hroom].
  - assert (Hex : exists k0 e0, In (k0, e0) (cache c)).
    { destruct (cache c) as [|[k0 e0] rest]; [cbn in Hfull; lia|].
      exists k0, e0. left. reflexivity. }
    destruct Hex as (k0 & e0 & Hin0).
    destruct (@evictLRU_deletes_one (S n) c)
      as (kv & Hev & Hlen).
    + exists k0, e0. split; [exact Hin0 | apply (Hold k0 e0 Hin0)].
    + intros k' e' Hin. apply (Hold k' e' Hin).
    + rewrite Hev. cbn. rewrite length_set.
      destruct (JSMap.get k (JSMap.delete kv (cache c))); lia.
  - cbn. rewrite length_set. destruct (JSMap.get k (cache c)); lia.
Qed.

(** In a full cache whose entries were all accessed at the clock reading
    taken by [evictLRU] or later, [set] of a new key evicts nothing and
    the cache grows past [maxSize]. *)
Theorem set_grows_past_capacity_when_nothing_older :
  forall (k : string) (v : V) (ttl : option Z) (n : nat) (c : ContentCache.t V),
    maxSize c <= JSMap.size (cache c) ->
    (forall k' e, In (k', e) (cache c) -> Date_now (S n) <= lastAccessed e) ->
    JSMap.get k (cache c) = None ->
    JSMap.size (cache (snd (set Date_now k v ttl n c)))
      = JSMap.size (cache c) + 1.
Proof.
  intros k v ttl n c Hfull Hall Hnew. unfold set, JSMap.size in *.
  destruct (Z.leb_spec (maxSize c) (Z.of_nat (List.length (cache c))));
    [|lia].
  rewrite (@evictLRU_keeps_entries_not_older_than_now (S n) c Hall).
  cbn. rewrite length_set, Hnew. lia.
Qed.

(** ** [has], [delete], [cleanup] *)

(** [has] answers as [get] would at the same clock reading, and leaves
    the hit and miss counters alone. *)
Theorem has_agrees_with_get :
  forall (k : string) (n : nat) (c : ContentCache.t V),
    fst (fst (has Date_now k n c)) =
      match fst (fst (get Date_now k n c)) with
      | Some _ => true
      | None => false
      end /\
    hits (snd (has Date_now k n c)) = hits c /\
    misses (snd (has Date_now k n c)) = misses c.
Proof.
  intros k n c. unfold has, get.
  destruct (JSMap.get k (cache c)) as [e|];
    [destruct (expiresAt e <? Date_now n)|]; cbn; repeat split.
Qed.

(** Every [get] counts once: as a hit when it returns a value, as a miss
    when it does not. *)
Theorem get_counts_exactly_once :
  forall (k : string) (n : nat) (c : ContentCache.t V),
    match fst (fst (get Date_now k n c)) with
    | Some _ =>
        hits (snd (get Date_now k n c)) = hits c + 1 /\
        misses (snd (get Date_now k n c)) = misses c
    | None =>
        hits (snd (get Date_now k n c)) = hits c /\
        misses (snd (get Date_now k n c)) = misses c + 1
    end.
Proof.
  intros k n c. unfold get.
  destruct (JSMap.get k (cache c)) as [e|];
    [destruct (expiresAt e <? Date_now n)|]; cbn; split; reflexivity.
Qed.

(** [delete] tells whether the key was present, and a [get] of a deleted
    key finds nothing; the other keys are left as they were. *)
Theorem delete_then_get_misses :
  forall (k : string) (n : nat) (c : ContentCache.t V),
    wf (cache c) ->
    fst (delete k c) =
      match JSMap.get k (cache c) with Some _ => true | None => false end /\
    fst (fst (get Date_now k n (snd (delete k c)))) = None /\
    (forall k', k' <> k ->
       JSMap.get k' (cache (snd (delete k c))) = JSMap.get k' (cache c)).
Proof.
  intros k n c Hwf. unfold delete.
  destruct (JSMap.get k (cache c)) as [e|] eqn:Hget; cbn.
  - split; [reflexivity|]. split.
    + unfold get. cbn. rewrite (get_delete_same k Hwf). reflexivity.
    + intros k' Hne. apply get_delete_other, Hne.
  - split; [reflexivity|]. split; [|reflexivity].
    unfold get. rewrite Hget. reflexivity.
Qed.

Lemma delete_here :
  forall (k : string) (e : CacheEntry V) (pre rest : JSMap.t (CacheEntry V)),
    wf (pre ++ (k, e) :: rest) ->
    JSMap.delete k (pre ++ (k, e) :: rest) = pre ++ rest.
Proof.
  intros k e pre rest. unfold wf.
  induction pre as [|[k0 e0] pre IH]; cbn; intros Hnd.
  - rewrite String.eqb_refl. reflexivity.
  - inversion Hnd as [|? ? Hnot Hnd']; subst.
    destruct (String.eqb_spec k0 k).
    + subst. exfalso. apply Hnot. rewrite map_app. apply in_or_app.
      right. left. reflexivity.
    + rewrite IH; [reflexivity | assumption].
Qed.

Lemma wf_remove_middle :
  forall (x : string * CacheEntry V) (pre rest : JSMap.t (CacheEntry V)),
    wf (pre ++ x :: rest) -> wf (pre ++ rest).
Proof.
  intros x pre rest. unfold wf. rewrite !map_app. cbn.
  apply NoDup_remove_1.
Qed.

Definition isExpired (now : Z) (ke : string * CacheEntry V) : bool :=
  expiresAt (snd ke) <? now.

Lemma filter_cons_case :
  forall (A : Type) (f : A -> bool) (x : A) (l : list A),
    filter f (x :: l) = if f x then x :: filter f l else filter f l.
Proof. reflexivity. Qed.

Lemma cleanup_loop_spec :
  forall (now : Z) (entries pre : JSMap.t (CacheEntry V)) (cnt : Z),
    wf (pre ++ entries) ->
    cleanup_loop now entries (pre ++ entries) cnt =
    (pre ++ filter (fun ke => negb (isExpired now ke)) entries,
     cnt + Z.of_nat (List.length (filter (isExpired now) entries))).
Proof.
  intros now entries. induction entries as [|[k e] rest IH]; intros pre cnt Hwf.
  - cbn. rewrite Z.add_0_r. reflexivity.
  - cbn [cleanup_loop].
    rewrite !(filter_cons_case _ (k, e) rest).
    change (isExpired now (k, e)) with (expiresAt e <? now).
    destruct (expiresAt e <? now) eqn:E; cbn [negb].
    + rewrite (delete_here _ _ _ _ Hwf).
      rewrite IH; [|eapply wf_remove_middle, Hwf].
      cbn [List.length]. rewrite Nat2Z.inj_succ. f_equal. lia.
    + replace (pre ++ (k, e) :: rest) with ((pre ++ [(k, e)]) ++ rest)
        by (rewrite <- app_assoc; reflexivity).
      rewrite IH; [|rewrite <- app_assoc; exact Hwf].
      rewrite <- app_assoc. reflexivity.
Qed.

(** [cleanup] removes exactly the entries that have expired at the clock
    reading it takes, keeps the others in their order, and returns the
    number of entries removed. *)
Theorem cleanup_removes_exactly_the_expired :
  forall (n : nat) (c : ContentCache.t V),
    wf (cache c) ->
    cleanup Date_now n c =
    (Z.of_nat (List.length (filter (isExpired (Date_now n)) (cache c))),
     S n,
     with_cache
       (filter (fun ke => negb (isExpired (Date_now n) ke)) (cache c)) c).
Proof.
  intros n c Hwf. unfold cleanup.
  pose proof (cleanup_loop_spec (Date_now n) (cache c) [] 0 Hwf) as H.
  cbn [app] in H. rewrite H. reflexivity.
Qed.

(** ** Statistics *)

Variable jsonLength : V -> Z.

Lemma Math_min_le :
  forall xs x, Math_min x xs <= x /\ forall y, In y xs -> Math_min x xs <= y.
Proof.
  unfold Math_min. induction xs as [|z xs IH]; intros x; cbn.
  - split; [lia | intros y []].
  - destruct (IH (Z.min x z)) as (H1 & H2). split; [lia|].
    intros y [<-|Hy]; [lia | apply H2, Hy].
Qed.

Lemma Math_max_ge :
  forall xs x, x <= Math_max x xs /\ forall y, In y xs -> y <= Math_max x xs.
Proof.
  unfold Math_max. induction xs as [|z xs IH]; intros x; cbn.
  - split; [lia | intros y []].
  - destruct (IH (Z.max x z)) as (H1 & H2). split; [lia|].
    intros y [<-|Hy]; [lia | apply H2, Hy].
Qed.

(** The creation time of every entry lies between the [oldestEntry] and
    the [newestEntry] reported by [getStats]. *)
Theorem getStats_oldest_newest_bound_every_entry :
  forall (c : ContentCache.t V) (k : string) (e : CacheEntry V),
    In (k, e) (cache c) ->
    oldestEntry (getStats jsonLength c) <= createdAt e
      <= newestEntry (getStats jsonLength c).
Proof.
  intros c k e Hin. unfold getStats. cbn.
  assert (Hc : In (createdAt e)
                 (List.map (@createdAt V) (JSMap.values (cache c)))).
  { apply in_map. unfold JSMap.values.
    change e with (snd (k, e)). apply in_map, Hin. }
  destruct (List.map (@createdAt V) (JSMap.values (cache c))) as [|x xs];
    [destruct Hc|].
  destruct (Math_min_le xs x) as (M1 & M2).
  destruct (Math_max_ge xs x) as (N1 & N2).
  destruct Hc as [<-|Hc]; split; auto.
Qed.

End Facts.

(** ** Hashing and keys *)

Lemma toInt32_range : forall z, - 2 ^ 31 <= toInt32 z < 2 ^ 31.
Proof.
  intros z. unfold toInt32.
  pose proof (Z.mod_pos_bound (z + 2 ^ 31) (2 ^ 32) ltac:(lia)). lia.
Qed.

Lemma toInt32_unique :
  forall z x k, - 2 ^ 31 <= x < 2 ^ 31 -> x = z + k * 2 ^ 32 -> toInt32 z = x.
Proof.
  intros z x k Hr Hx. unfold toInt32.
  assert (E : (z + 2 ^ 31) mod 2 ^ 32 = x + 2 ^ 31).
  { symmetry. apply (Z.mod_unique _ _ (- k)); [left; lia | lia]. }
  lia.
Qed.

Lemma toInt32_shift : forall z, exists k, toInt32 z = z + k * 2 ^ 32.
Proof.
  intros z. unfold toInt32.
  exists (- ((z + 2 ^ 31) / 2 ^ 32)).
  pose proof (Z.div_mod (z + 2 ^ 31) (2 ^ 32) ltac:(lia)). lia.
Qed.

Lemma hashStep_spec :
  forall p c, hashStep (toInt32 p) c = toInt32 (31 * p + c).
Proof.
  intros p c. unfold hashStep. rewrite Z.land_diag.
  set (h := toInt32 p).
  destruct (toInt32_shift p) as (k0 & E0). fold h in E0.
  destruct (toInt32_shift (Z.shiftl (toInt32 h) 5)) as (k1 & E1).
  destruct (toInt32_shift h) as (k2 & E2).
  destruct (toInt32_shift (toInt32 (Z.shiftl (toInt32 h) 5) - h + c))
    as (k3 & E3).
  symmetry. apply toInt32_unique with (k := 31 * k0 + 32 * k2 + k1 + k3);
    [apply toInt32_range|].
  rewrite E3, E1, Z.shiftl_mul_pow2, E2 by lia. lia.
Qed.

(** The polynomial hash with multiplier 31. *)
Definition polyHash (codes : list Z) : Z :=
  fold_left (fun h c => 31 * h + c) codes 0.

(** The number computed by the loop of [hashString] is the value of the
    polynomial with multiplier 31 over the character codes, reduced to a
    signed 32-bit integer. *)
Theorem hashValue_is_polynomial_modulo_2_32 :
  forall str : string,
    hashValue str = toInt32 (polyHash (charCodes str)) /\
    - 2 ^ 31 <= hashValue str < 2 ^ 31.
Proof.
  intros str.
  assert (H : forall codes p,
             fold_left hashStep codes (toInt32 p) =
             toInt32 (fold_left (fun h c => 31 * h + c) codes p)).
  { induction codes as [|c codes IH]; intros p; cbn; [reflexivity|].
    rewrite hashStep_spec. apply IH. }
  assert (E : hashValue str = toInt32 (polyHash (charCodes str))).
  { unfold hashValue, polyHash. rewrite <- H. reflexivity. }
  split; [exact E|]. rewrite E. apply toInt32_range.
Qed.

Lemma string_leb_trans :
  forall a b c : string,
    String.leb a b = true -> String.leb b c = true -> String.leb a c = true.
Proof.
  unfold String.leb.
  induction a as [|x a IH]; intros [|y b] [|z c]; cbn; try congruence.
  unfold Ascii.compare.
  destruct (N.compare_spec (Ascii.N_of_ascii x) (Ascii.N_of_ascii y)) as [E1|L1|G1];
    destruct (N.compare_spec (Ascii.N_of_ascii y) (Ascii.N_of_ascii z)) as [E2|L2|G2];
    try congruence.
  - rewrite E1, E2, N.compare_refl. apply IH.
  - intros _ _. rewrite E1. apply N.compare_lt_iff in L2. rewrite L2.
    reflexivity.
  - intros _ _. rewrite <- E2. apply N.compare_lt_iff in L1. rewrite L1.
    reflexivity.
  - intros _ _.
    assert (L : (Ascii.N_of_ascii x < Ascii.N_of_ascii z)%N) by lia.
    apply N.compare_lt_iff in L. rewrite L. reflexivity.
Qed.

Definition string_le (a b : string) : Prop := String.leb a b = true.

Lemma insert_sorted_perm :
  forall x l, Permutation (insert_sorted x l) (x :: l).
Proof.
  intros x l. induction l as [|y l IH]; cbn; [reflexivity|].
  destruct (String.leb x y); [reflexivity|].
  rewrite IH. apply perm_swap.
Qed.

Lemma sort_strings_perm : forall l, Permutation (sort_strings l) l.
Proof.
  induction l as [|x l IH]; cbn; [constructor|].
  rewrite insert_sorted_perm. constructor. exact IH.
Qed.

Lemma insert_sorted_sorted :
  forall x l,
    StronglySorted string_le l -> StronglySorted string_le (insert_sorted x l).
Proof.
  intros x l Hs. induction Hs as [|y l Hs IH Hall]; cbn.
  - constructor; constructor.
  - destruct (String.leb x y) eqn:E.
    + constructor; [constructor; assumption|].
      constructor; [exact E|].
      eapply Forall_impl; [|exact Hall].
      intros z Hz. eapply string_leb_trans; eassumption.
    + constructor; [exact IH|].
      eapply Permutation_Forall;
        [apply Permutation_sym, insert_sorted_perm|].
      constructor; [|exact Hall].
      destruct (String.leb_total x y) as [H|H]; [congruence | exact H].
Qed.

Lemma sort_strings_sorted :
  forall l, StronglySorted string_le (sort_strings l).
Proof.
  induction l as [|x l IH]; cbn; [constructor|].
  apply insert_sorted_sorted, IH.
Qed.

Lemma sorted_permutation_unique :
  forall l1 l2 : list string,
    StronglySorted string_le l1 -> StronglySorted string_le l2 ->
    Permutation l1 l2 -> l1 = l2.
Proof.
  induction l1 as [|x l1 IH]; intros l2 H1 H2 Hp.
  - apply Permutation_nil in Hp. congruence.
  - destruct l2 as [|y l2];
      [apply Permutation_sym, Permutation_nil in Hp; discriminate|].
    inversion H1 as [|? ? S1 F1]; subst.
    inversion H2 as [|? ? S2 F2]; subst.
    assert (Exy : x = y).
    { assert (Hx : In x (y :: l2))
        by (eapply Permutation_in; [exact Hp | left; reflexivity]).
      assert (Hy : In y (x :: l1))
        by (eapply Permutation_in;
            [apply Permutation_sym, Hp | left; reflexivity]).
      destruct Hx as [->|Hx]; [reflexivity|].
      destruct Hy as [->|Hy]; [reflexivity|].
      rewrite Forall_forall in F1, F2.
      apply String.leb_antisym; [apply F1, Hy | apply F2, Hx]. }
    subst y. f_equal. apply IH; try assumption.
    eapply Permutation_cons_inv, Hp.
Qed.

(** The key built by [getBrandAssetKey] does not depend on the order in
    which the asset types are given; and the call leaves the caller's
    array sorted (it is sorted in place): a rearrangement of the original
    in ascending order. *)
Theorem getBrandAssetKey_ignores_order :
  forall (O : Type) (stringifySorted : O -> string) (companyInfo : O)
         (assetTypes1 assetTypes2 : list string),
    Permutation assetTypes1 assetTypes2 ->
    getBrandAssetKey stringifySorted companyInfo assetTypes1
    = getBrandAssetKey stringifySorted companyInfo assetTypes2 /\
    Permutation
      (snd (getBrandAssetKey stringifySorted companyInfo assetTypes1))
      assetTypes1 /\
    StronglySorted string_le
      (snd (getBrandAssetKey stringifySorted companyInfo assetTypes1)).
Proof.
  intros O f info a1 a2 Hp. unfold getBrandAssetKey. cbn [snd].
  assert (E : sort_strings a1 = sort_strings a2).
  { apply sorted_permutation_unique; try apply sort_strings_sorted.
    rewrite !sort_strings_perm. exact Hp. }
  rewrite E. split; [reflexivity|]. rewrite <- E.
  split; [apply sort_strings_perm | apply sort_strings_sorted].
Qed.

(** ** The statements on concrete caches *)

Lemma sample_two_wf : wf (cache sample_two).
Proof.
  unfold wf. cbn. constructor; [intros [H|[]]; discriminate|].
  constructor; [intros [] | constructor].
Qed.

Lemma evictLRU_evicts_least_recently_used_witness :
  exists k e,
    In (k, e) (cache sample_two) /\
    evictLRU sample_clock 5 sample_two
      = (6%nat, with_cache (JSMap.delete k (cache sample_two)) sample_two).
Proof.
  destruct (@evictLRU_evicts_least_recently_used Z sample_clock 5 sample_two)
    as (k & e & Hin & Hev & _).
  - exists "a"%string, sample_entry_a. split; [left; reflexivity|].
    vm_compute. reflexivity.
  - intros k e [H|[H|[]]]; inversion H; discriminate.
  - exists k, e. split; assumption.
Defined.

Lemma evictLRU_keeps_entries_not_older_than_now_witness :
  evictLRU frozen_clock 5 sample_burst = (6%nat, sample_burst).
Proof.
  apply evictLRU_keeps_entries_not_older_than_now.
  intros k e [H|[H|[]]]; inversion H; vm_compute; discriminate.
Defined.

Lemma get_after_set_witness :
  fst (fst (get sample_clock "c" 7
              (snd (set sample_clock "c" 30 None 5 sample_two))))
  = Some 30.
Proof.
  apply (@get_after_set Z sample_clock "c" 30 None 5 sample_two).
  vm_compute. discriminate.
Defined.

Lemma get_expired_deletes_witness :
  fst (fst (get sample_clock "a" 6 sample_two)) = None /\
  JSMap.get "a" (cache (snd (get sample_clock "a" 6 sample_two))) = None.
Proof.
  destruct (@get_expired_deletes Z sample_clock "a" sample_entry_a 6
              sample_two sample_two_wf)
    as (H1 & H2 & _).
  - reflexivity.
  - vm_compute. reflexivity.
  - split; assumption.
Defined.

Lemma set_within_capacity_witness :
  JSMap.size (cache (snd (set sample_clock "c" 30 None 5 sample_two))) <= 2.
Proof.
  apply (@set_within_capacity Z sample_clock "c" 30 None 5 sample_two).
  - vm_compute. discriminate.
  - vm_compute. discriminate.
  - intros k e [H|[H|[]]]; inversion H; split;
      try discriminate; vm_compute; reflexivity.
Defined.

Lemma set_grows_past_capacity_when_nothing_older_witness :
  JSMap.size (cache (snd (set frozen_clock "c" 30 None 5 sample_burst)))
  = 2 + 1.
Proof.
  apply (@set_grows_past_capacity_when_nothing_older Z frozen_clock "c" 30
           None 5 sample_burst).
  - vm_compute. discriminate.
  - intros k e [H|[H|[]]]; inversion H; vm_compute; discriminate.
  - reflexivity.
Defined.

Lemma delete_then_get_misses_witness :
  fst (delete "a" sample_two) = true /\
  fst (fst (get sample_clock "a" 2 (snd (delete "a" sample_two)))) = None.
Proof.
  destruct (@delete_then_get_misses Z sample_clock "a" 2 sample_two
              sample_two_wf) as (H1 & H2 & _).
  split; assumption.
Defined.

Lemma cleanup_removes_exactly_the_expired_witness :
  fst (fst (cleanup sample_clock 6 sample_two)) = 1 /\
  List.map fst (cache (snd (cleanup sample_clock 6 sample_two)))
    = ["b"%string].
Proof.
  rewrite (@cleanup_removes_exactly_the_expired Z sample_clock 6 sample_two
             sample_two_wf).
  split; reflexivity.
Defined.

Lemma getStats_oldest_newest_bound_every_entry_witness :
  oldestEntry (getStats sample_jsonLength sample_two) <= 0
    <= newestEntry (getStats sample_jsonLength sample_two).
Proof.
  apply (@getStats_oldest_newest_bound_every_entry Z sample_jsonLength
           sample_two "a" sample_entry_a).
  left. reflexivity.
Defined.

Lemma getBrandAssetKey_ignores_order_witness :
  getBrandAssetKey (fun s : string => s) "Acme"%string ["logo"; "icon"]%string
  = getBrandAssetKey (fun s : string => s) "Acme"%string ["icon"; "logo"]%string.
Proof.
  apply (@getBrandAssetKey_ignores_order string (fun s : string => s) "Acme"%string
           ["logo"; "icon"]%string ["icon"; "logo"]%string).
  apply perm_swap.
Defined.

(** The loop and the base-36 rendering on a short string: 96354 is
    97 * 31 * 31 + 98 * 31 + 99. *)
Example hashString_abc :
  hashValue "abc" = 96354 /\ hashString "abc" = "22ci"%string.
Proof. vm_compute. split; reflexivity. Qed.

End ContentCacheFacts.

(* ===================================================================== *)
(** * Further properties of the provider manager                           *)
(* ===================================================================== *)

Module ManagerFacts.

Import AIProviderManager.
Import SelectorFacts.
Import PrimFloat.
Local Open Scope Z_scope.

(** ** Selection *)

Lemma reduce1_pick_In :
  forall (A : Type) (f : A -> A -> A) (xs : list A) (x : A),
    (forall a b, f a b = a \/ f a b = b) ->
    reduce1 f xs = Some x -> In x xs.
Proof.
  intros A f [|x0 rest] x Hf; cbn; [discriminate|].
  intros H. inversion H; subst; clear H.
  revert x0. induction rest as [|y rest IH]; intros x0; cbn; [auto|].
  destruct (Hf x0 y) as [E|E]; rewrite E.
  - destruct (IH x0) as [H|H]; auto.
  - destruct (IH y) as [H|H]; auto.
Qed.

Lemma selectAdaptively_In :
  forall ps r p, selectAdaptively ps r = Some p -> In p ps.
Proof.
  intros ps r p. rewrite selectAdaptively_reduce.
  apply reduce1_pick_In. intros a b. unfold pick.
  destruct (PrimFloat.ltb _ _); auto.
Qed.

Lemma selectRoundRobin_active :
  forall ps h p,
    selectRoundRobin ps h = Some p -> In p ps /\ status p = active.
Proof.
  intros ps h p. unfold selectRoundRobin.
  destruct (List.length _) eqn:E; [discriminate|].
  intros H. apply nth_error_In in H. apply filter_In in H.
  destruct H as (Hin & Hst). split; [exact Hin|].
  destruct (status p); cbn in Hst; congruence.
Qed.

(** [selectProvider] returns one of its candidates. *)
Lemma selectProvider_In_available :
  forall (r : AIRequest) (s : State) (p : AIProvider),
    selectProvider r s = Some p -> In p (availableProviders s r).
Proof.
  intros r s p H. unfold selectProvider in H.
  destruct (availableProviders s r) as [|p0 ps] eqn:E; [discriminate|].
  destruct (loadBalancer s).
  - apply selectRoundRobin_active in H. apply H.
  - revert H. apply reduce1_pick_In. intros a b. cbv beta zeta.
    destruct (PrimFloat.ltb _ _); auto.
  - revert H. apply reduce1_pick_In. intros a b. cbv beta zeta.
    destruct (PrimFloat.ltb _ _); auto.
  - apply selectAdaptively_In in H. exact H.
Qed.

(** Whatever the strategy, the provider that [selectProvider] returns is
    a registered one, is not offline, and has a model that suits the
    request. *)
Theorem selectProvider_returns_a_candidate :
  forall (r : AIRequest) (s : State) (p : AIProvider),
    selectProvider r s = Some p ->
    In p (JSMap.values (providers s)) /\
    status p <> offline /\
    hasCapableModel p r = true.
Proof.
  intros r s p H. apply selectProvider_In_available in H.
  unfold availableProviders in H.
  apply filter_In in H. destruct H as (Hin & Hcap).
  apply filter_In in Hin. destruct Hin as (Hin & Hst).
  split; [exact Hin|]. split; [|exact Hcap].
  intros E. rewrite E in Hst. discriminate.
Qed.

(** On a non-empty candidate list the best-performance strategy returns
    the first candidate with the highest
    [successRate * (1000 / averageLatency)], as the code computes it: no
    candidate scores more, and no earlier candidate scores the same. *)
Theorem selectByPerformance_selects_first_best :
  forall ps : list AIProvider,
    ps <> [] ->
    exists p,
      selectByPerformance ps = Some p /\ best_by performanceScore ps p.
Proof.
  intros ps Hne. apply (reduce1_best_by performanceScore Hne).
Qed.

(** Round robin only ever returns an active provider, the one at index
    [historyLength mod n] among the [n] active candidates; when no
    candidate is active it returns nothing, even if there are degraded
    candidates. *)
Theorem selectRoundRobin_cycles_over_active :
  forall (ps : list AIProvider) (h : nat),
    let actives := filter (fun p => ProviderStatus_eqb (status p) active) ps in
    (actives = [] -> selectRoundRobin ps h = None) /\
    (actives <> [] ->
       exists p,
         selectRoundRobin ps h = Some p /\
         nth_error actives (h mod List.length actives) = Some p /\
         status p = active).
Proof.
  intros ps h actives. split.
  - intros E. unfold selectRoundRobin. fold actives. rewrite E. reflexivity.
  - intros Hne. unfold selectRoundRobin. fold actives.
    destruct (List.length actives) as [|n] eqn:E.
    + destruct actives; [congruence | discriminate].
    + assert (Hlt : (h mod S n < List.length actives)%nat).
      { rewrite E. apply Nat.mod_upper_bound. discriminate. }
      destruct (nth_error actives (h mod S n)) as [p|] eqn:Hn.
      * exists p. split; [reflexivity|]. split; [reflexivity|].
        apply nth_error_In in Hn. apply filter_In in Hn.
        destruct Hn as (_ & Hst). destruct (status p); cbn in Hst; congruence.
      * apply nth_error_None in Hn. lia.
Qed.

(** Where the model returned by [selectModel] comes from: the suitable
    models, or the head of all models when none suits. *)
Lemma selectModel_from :
  forall (p : AIProvider) (r : AIRequest) (m : AIModel),
    selectModel p r = Some m ->
    (filter (suits r) (models p) = [] /\ hd_error (models p) = Some m) \/
    In m (filter (suits r) (models p)).
Proof.
  intros p r m Hm. unfold selectModel in Hm.
  destruct (filter (suits r) (models p)) as [|m0 ms] eqn:E;
    [left; split; [reflexivity | exact Hm]|].
  right.
  assert (Hpick : forall tier,
            In (match filter (fun m => CostTier_eqb (costTier m) tier)
                        (m0 :: ms) with
                | m :: _ => m
                | [] => m0
                end) (m0 :: ms)).
  { intros tier.
    destruct (filter (fun m => CostTier_eqb (costTier m) tier) (m0 :: ms))
      as [|x xs] eqn:F; [left; reflexivity|].
    assert (Hx : In x (filter (fun m => CostTier_eqb (costTier m) tier)
                         (m0 :: ms))) by (rewrite F; left; reflexivity).
    apply filter_In in Hx. apply Hx. }
  destruct (_ || _); [inversion Hm; subst; apply Hpick|].
  destruct (_ || _); inversion Hm; subst;
    [apply Hpick | left; reflexivity].
Qed.

Lemma selectModel_In :
  forall (p : AIProvider) (r : AIRequest) (m : AIModel),
    selectModel p r = Some m -> In m (models p).
Proof.
  intros p r m Hm.
  destruct (selectModel_from p r Hm) as [(_ & Hhd)|Hin].
  - destruct (models p) as [|x xs]; cbn in Hhd; [discriminate|].
    inversion Hhd; subst. left. reflexivity.
  - apply filter_In in Hin. apply Hin.
Qed.

(** [selectModel] returns a model of the provider, and one that suits the
    request whenever the provider has such a model; it returns nothing
    only for a provider without models. *)
Theorem selectModel_returns_a_suitable_model :
  forall (p : AIProvider) (r : AIRequest),
    (models p = [] <-> selectModel p r = None) /\
    (forall m, selectModel p r = Some m ->
               In m (models p) /\
               (hasCapableModel p r = true -> suits r m = true)).
Proof.
  intros p r. split.
  - split.
    + intros Hnil. unfold selectModel. rewrite Hnil. reflexivity.
    + intros Hnone. destruct (models p) as [|x xs] eqn:Em; [reflexivity|].
      exfalso. unfold selectModel in Hnone. rewrite Em in Hnone.
      destruct (filter (suits r) (x :: xs)); [discriminate|].
      destruct (_ || _); [discriminate|].
      destruct (_ || _); discriminate.
  - intros m Hm. split; [exact (selectModel_In p r Hm)|].
    intros Hcap.
    destruct (selectModel_from p r Hm) as [(E & _)|Hin].
    + unfold hasCapableModel in Hcap. apply existsb_exists in Hcap.
      destruct Hcap as (x & Hx & Hs).
      assert (Hin : In x (filter (suits r) (models p)))
        by (apply filter_In; split; assumption).
      rewrite E in Hin. destruct Hin.
    + apply filter_In in Hin. apply Hin.
Qed.

(** The cost tier that [selectModel] looks for first. *)
Definition preferredTier (r : AIRequest) : option CostTier :=
  if is_priority r urgent
     || truthyNumber (match requirements r with
                 | Some rq => minQuality rq
                 | None => None
                 end)
  then Some tier_premium
  else if is_priority r low || truthyNumber (budget r)
  then Some tier_low
  else None.

(** For an urgent request or one with a minimum quality, [selectModel]
    returns a premium model whenever a premium model suits the request;
    for a low-priority request or one with a budget, a low-tier model
    whenever one suits.  Among the suitable models of that tier it is the
    one registered first. *)
Theorem selectModel_prefers_the_tier_of_the_request :
  forall (p : AIProvider) (r : AIRequest) (tier : CostTier),
    preferredTier r = Some tier ->
    (exists m, In m (models p) /\ suits r m = true /\ costTier m = tier) ->
    exists m rest,
      selectModel p r = Some m /\
      costTier m = tier /\ suits r m = true /\
      filter (fun x => CostTier_eqb (costTier x) tier)
        (filter (suits r) (models p)) = m :: rest.
Proof.
  intros p r tier Hpref (m1 & Hin1 & Hs1 & Ht1).
  assert (Hin : In m1 (filter (fun x => CostTier_eqb (costTier x) tier)
                         (filter (suits r) (models p)))).
  { apply filter_In. split; [apply filter_In; auto|].
    rewrite Ht1. destruct tier; reflexivity. }
  clear Hin1 Hs1 Ht1.
  unfold selectModel, preferredTier in *.
  destruct (filter (suits r) (models p)) as [|m0 ms] eqn:E; [destruct Hin|].
  destruct (filter (fun x => CostTier_eqb (costTier x) tier) (m0 :: ms))
    as [|m rest] eqn:F; [destruct Hin|].
  assert (Hm : In m (filter (fun x => CostTier_eqb (costTier x) tier)
                       (m0 :: ms))) by (rewrite F; left; reflexivity).
  apply filter_In in Hm. destruct Hm as (Hm1 & Hm2).
  assert (Hms : suits r m = true).
  { rewrite <- E in Hm1. apply filter_In in Hm1. apply Hm1. }
  assert (Hmt : costTier m = tier).
  { destruct (costTier m), tier; cbn in Hm2; congruence. }
  exists m, rest.
  destruct (_ || _).
  - injection Hpref as <-. rewrite F. auto.
  - destruct (_ || _); [|discriminate].
    injection Hpref as <-. rewrite F. auto.
Qed.

(** ** Executing a request *)

Section Execute.

Variable env : Env.

(** For a provider of type google, azure or cohere, [executeRequest]
    throws a [TypeError] without calling any SDK client; registry,
    history, configuration and response cache are as they were. *)
Theorem executeRequest_unsupported_type_contacts_nothing :
  forall (p : AIProvider) (r : AIRequest) (s : State),
    provider_type p <> openai ->
    provider_type p <> anthropic ->
    exists s',
      executeRequest env p r s = (Throw TypeError, s') /\
      contacted s' = contacted s /\
      attempted s' = attempted s ++ [id p] /\
      OrchestratorFacts.same_core s s' /\
      apiCache s' = apiCache s.
Proof.
  intros p r s H1 H2.
  unfold executeRequest, bind, try_catch, perf_now, modify, throw, ret.
  destruct (provider_type p); try congruence; cbn;
    eexists; (split; [reflexivity|]); repeat split.
Qed.

(** A response returned by [executeRequest] names the provider it was
    asked of and one of that provider's models, carries the cost of the
    reported token counts at that provider's prices, and was obtained by
    exactly one SDK call; registry, history, configuration and response
    cache are as they were. *)
Theorem executeRequest_response_shape :
  forall (p : AIProvider) (r : AIRequest) (s s' : State) (resp : AIResponse),
    executeRequest env p r s = (Ok resp, s') ->
    provider resp = id p /\
    (exists m, In m (models p) /\ response_model resp = model_id m) /\
    cost (usage resp) =
      calculateCost p (usage_inputTokens (usage resp))
        (usage_outputTokens (usage resp)) /\
    contacted s' = contacted s ++ [id p] /\
    attempted s' = attempted s ++ [id p] /\
    OrchestratorFacts.same_core s s' /\
    apiCache s' = apiCache s.
Proof.
  intros p r s s' resp.
  unfold executeRequest, bind, try_catch, perf_now, modify, throw, ret,
    client_call.
  pose proof (@selectModel_In p r) as Hsel.
  destruct (provider_type p); cbn; try discriminate;
    destruct (selectModel p r) as [m|] eqn:Hm; cbn; try discriminate;
    destruct (client_create env _ _ _ _) as [reply|]; cbn;
      try discriminate;
    intros H; inversion H; subst; clear H; cbn;
    (split; [reflexivity|]);
    (split; [exists m; split; [apply (Hsel m eq_refl) | reflexivity]|]);
    repeat split.
Qed.

End Execute.

(** ** Recording an outcome *)

(** The history after one more record: trimmed to its last thousand. *)
Definition capped (h : list HistoryRecord) : list HistoryRecord :=
  if (1000 <? List.length h)%nat then slice_last 1000 h else h.

(** The share of successes in a window of records. *)
Definition windowRate (recent : list HistoryRecord) : number :=
  (Number.of_Z (Z.of_nat (List.length (filter success recent)))
   / Number.of_Z (Z.of_nat (List.length recent)))%float.

Definition windowLatency (recent : list HistoryRecord) : number :=
  (sumLatency recent / Number.of_Z (Z.of_nat (List.length recent)))%float.

Lemma slice_last_snoc :
  forall (A : Type) (n : nat) (l : list A) (x : A),
    (1 <= n)%nat -> exists pre, slice_last n (l ++ [x]) = pre ++ [x].
Proof.
  intros A n l x Hn. unfold slice_last. rewrite length_app. cbn.
  exists (skipn (List.length l + 1 - n) l).
  rewrite skipn_app.
  replace (List.length l + 1 - n - List.length l)%nat with 0%nat by lia.
  reflexivity.
Qed.

Lemma slice_last_length :
  forall (A : Type) (n : nat) (l : list A),
    (List.length (slice_last n l) <= n)%nat /\
    (List.length (slice_last n l) <= List.length l)%nat.
Proof.
  intros A n l. unfold slice_last. rewrite length_skipn. lia.
Qed.

Lemma slice_last_incl :
  forall (A : Type) (n : nat) (l : list A) (x : A),
    In x (slice_last n l) -> In x l.
Proof.
  intros A n l x H. unfold slice_last in H.
  rewrite <- (firstn_skipn (List.length l - n) l).
  apply in_or_app. right. exact H.
Qed.

Lemma capped_snoc :
  forall h r, exists pre, capped (h ++ [r]) = pre ++ [r].
Proof.
  intros h r. unfold capped.
  destruct (1000 <? _)%nat; [apply slice_last_snoc; lia|].
  exists h. reflexivity.
Qed.

Lemma capped_length :
  forall h r,
    (List.length h <= 1000)%nat ->
    (List.length (capped (h ++ [r])) <= 1000)%nat.
Proof.
  intros h r Hh. unfold capped.
  destruct (Nat.ltb_spec 1000 (List.length (h ++ [r]))).
  - apply slice_last_length.
  - lia.
Qed.

Lemma capped_incl : forall h x, In x (capped h) -> In x h.
Proof.
  intros h x. unfold capped.
  destruct (1000 <? _)%nat; [apply slice_last_incl | auto].
Qed.

Lemma recent_snoc :
  forall pid h r,
    providerId r = pid ->
    exists pre, recentRequests pid (capped (h ++ [r])) = pre ++ [r].
Proof.
  intros pid h r Hr. unfold recentRequests.
  destruct (capped_snoc h r) as (pre & ->).
  rewrite filter_app. cbn. rewrite Hr, String.eqb_refl.
  apply slice_last_snoc. lia.
Qed.

Lemma recent_incl :
  forall pid h x, In x (recentRequests pid h) -> In x h /\ providerId x = pid.
Proof.
  intros pid h x H. unfold recentRequests in H.
  apply slice_last_incl in H. apply filter_In in H.
  destruct H as (H1 & H2). split; [exact H1|].
  apply String.eqb_eq, H2.
Qed.

Section Update.

Variable env : Env.

Definition newRecord (s : State) (pid : string) (ok : bool)
    (c : number) (l : number)
  : HistoryRecord :=
  {| timestamp := Date_now env (dateReads s); providerId := pid;
     success := ok; record_cost := c; record_latency := l |}.

(** What [updateProviderMetrics] does to a registered provider. *)
Lemma updateProviderMetrics_effect :
  forall pid ok c l s p,
    JSMap.get pid (providers s) = Some p ->
    exists s' lf,
      updateProviderMetrics env pid ok c l s = (Ok tt, s') /\
      requestHistory s' = capped (requestHistory s ++ [newRecord s pid ok c l]) /\
      providers s' =
        JSMap.set pid
          (set_performance_status
             {| averageLatency := windowLatency (recentRequests pid (requestHistory s'));
                successRate := windowRate (recentRequests pid (requestHistory s'));
                lastFailure := lf |}
             (statusFor (windowRate (recentRequests pid (requestHistory s'))))
             p)
          (providers s) /\
      apiCache s' = apiCache s /\
      loadBalancer s' = loadBalancer s /\
      failoverEnabled s' = failoverEnabled s /\
      attempted s' = attempted s /\
      contacted s' = contacted s /\
      perfReads s' = perfReads s.
Proof.
  intros pid ok c l s p Hget.
  destruct (@recent_snoc pid (requestHistory s) (newRecord s pid ok c l) eq_refl)
    as (pre & Hrecent).
  unfold updateProviderMetrics, bind, gets. rewrite Hget.
  unfold now, modify. cbn [fst snd].
  set (h1 := requestHistory s ++ [newRecord s pid ok c l]) in *.
  match goal with
  | |- context [if (1000 <? ?n)%nat then ?a else ?b] =>
      change n with (List.length h1);
      assert (Hh : requestHistory (if (1000 <? List.length h1)%nat then a else b)
                   = capped h1)
        by (unfold capped; destruct (1000 <? List.length h1)%nat; reflexivity);
      assert (Hrest :
                let x := (if (1000 <? List.length h1)%nat then a else b) in
                providers x = providers s /\ apiCache x = apiCache s /\
                loadBalancer x = loadBalancer s /\
                failoverEnabled x = failoverEnabled s /\
                attempted x = attempted s /\ contacted x = contacted s /\
                perfReads x = perfReads s /\ dateReads x = S (dateReads s))
        by (cbv zeta; destruct (1000 <? List.length h1)%nat; repeat split);
      set (s1 := if (1000 <? List.length h1)%nat then a else b) in *
  end.
  cbv zeta in Hrest.
  destruct Hrest as (R1 & R2 & R3 & R4 & R5 & R6 & R7 & R8).
  rewrite Hh. rewrite Hrecent.
  replace (0 <? List.length (pre ++ [newRecord s pid ok c l]))%nat with true
    by (symmetry; apply Nat.ltb_lt; rewrite length_app; cbn; lia).
  destruct ok.
  - eexists. exists (lastFailure (performance p)).
    split; [cbn; reflexivity|].
    cbn [requestHistory providers apiCache loadBalancer failoverEnabled
         attempted contacted perfReads set_providers set_cache_clock].
    rewrite Hh, Hrecent, R1. unfold windowLatency, windowRate.
    repeat split; assumption.
  - eexists. exists (Some (Date_now env (dateReads s1))).
    split; [cbn; reflexivity|].
    cbn [requestHistory providers apiCache loadBalancer failoverEnabled
         attempted contacted perfReads set_providers set_cache_clock].
    rewrite Hh, Hrecent, R1. unfold windowLatency, windowRate.
    repeat split; assumption.
Qed.

End Update.

Section UpdateFacts.

Variable env : Env.

(** [updateProviderMetrics] keeps the history within a thousand records;
    for a registered provider the record it appends is the last one, for
    an unknown id nothing changes at all. *)
Theorem updateProviderMetrics_keeps_history_bounded :
  forall (pid : string) (ok : bool) (c l : number) (s : State),
    (List.length (requestHistory s) <= 1000)%nat ->
    let s' := snd (updateProviderMetrics env pid ok c l s) in
    (List.length (requestHistory s') <= 1000)%nat /\
    match JSMap.get pid (providers s) with
    | Some _ =>
        exists pre, requestHistory s' = pre ++ [newRecord env s pid ok c l]
    | None => s' = s
    end.
Proof.
  intros pid ok c l s Hlen. cbv zeta.
  destruct (JSMap.get pid (providers s)) as [p|] eqn:Hget.
  - destruct (updateProviderMetrics_effect env pid ok c l s Hget)
      as (s' & lf & Hrun & Hh & _).
    rewrite Hrun. cbn [snd]. rewrite Hh. split.
    + apply capped_length, Hlen.
    + apply capped_snoc.
  - unfold updateProviderMetrics, bind, gets. rewrite Hget. cbn.
    split; [exact Hlen | reflexivity].
Qed.

Lemma recentRequests_length :
  forall pid h, (List.length (recentRequests pid h) <= 100)%nat.
Proof. intros pid h. unfold recentRequests. apply slice_last_length. Qed.

Lemma windowRate_ratio :
  forall recent,
    windowRate recent =
    NumberFacts.ratio (List.length (filter success recent))
      (List.length recent).
Proof. reflexivity. Qed.

Lemma windowRate_range :
  forall recent,
    recent <> [] -> (List.length recent <= 100)%nat ->
    (0 <=? windowRate recent)%float = true /\
    (windowRate recent <=? 1)%float = true.
Proof.
  intros recent Hne Hlen. rewrite windowRate_ratio.
  destruct (@NumberFacts.ratio_in_unit
              (List.length (filter success recent)) (List.length recent))
    as (H1 & H2 & _).
  - apply filter_length_le.
  - destruct recent; [congruence | cbn [List.length] in *; lia].
  - split; assumption.
Qed.

(** After an update, the success rate of the provider is the share of
    successes among its last records (at most a hundred of them, the new
    one included), a number between 0 and 1; its average latency is the
    mean over the same records; and its status is [active] from 0.8 up
    and [degraded] below. *)
Theorem updateProviderMetrics_recomputes_the_window :
  forall (pid : string) (ok : bool) (c l : number) (s : State)
         (p : AIProvider),
    JSMap.get pid (providers s) = Some p ->
    let s' := snd (updateProviderMetrics env pid ok c l s) in
    let recent := recentRequests pid (requestHistory s') in
    exists p',
      JSMap.get pid (providers s') = Some p' /\
      (1 <= List.length recent <= 100)%nat /\
      successRate (performance p') = windowRate recent /\
      averageLatency (performance p') = windowLatency recent /\
      ((0 <=? successRate (performance p'))%float = true /\
       (successRate (performance p') <=? 1)%float = true) /\
      status p' =
        (if (0.8 <=? successRate (performance p'))%float
         then active else degraded).
Proof.
  intros pid ok c l s p Hget. cbv zeta.
  destruct (updateProviderMetrics_effect env pid ok c l s Hget)
    as (s' & lf & Hrun & Hh & Hp & _).
  rewrite Hrun. cbn [snd].
  destruct (@recent_snoc pid (requestHistory s) (newRecord env s pid ok c l)
              eq_refl) as (pre & Hrecent).
  rewrite <- Hh in Hrecent.
  assert (Hne : recentRequests pid (requestHistory s') <> [])
    by (rewrite Hrecent; destruct pre; discriminate).
  pose proof (windowRate_range Hne (recentRequests_length pid _))
    as (Hlo & Hhi).
  eexists. split; [rewrite Hp; apply OrchestratorFacts.JSMap_get_set_same|].
  cbn [performance successRate averageLatency status set_performance_status].
  split.
  - split.
    + destruct (recentRequests pid (requestHistory s'));
        [congruence | cbn; lia].
    + apply recentRequests_length.
  - split; [reflexivity|]. split; [reflexivity|].
    split; [split; assumption|].
    set (rate := windowRate (recentRequests pid (requestHistory s'))) in *.
    destruct (OrchestratorFacts.statusFor_cases rate) as (Hact & Hdeg).
    rewrite (@NumberFacts.leb_negb_ltb 0.8%float rate eq_refl
               (proj2 (NumberFacts.leb_not_nan Hlo))).
    destruct (rate <? 0.8)%float; cbn [negb]; auto.
Qed.

End UpdateFacts.

(** ** What the methods preserve *)

Section Preservation.

Variable env : Env.
Variable P : State -> Prop.

(** [c] keeps [P], whether it returns or throws. *)
Definition preserves {A} (c : MM A) : Prop :=
  forall s o s', P s -> c s = (o, s') -> P s'.

Lemma preserves_ret : forall A (a : A), preserves (ret a).
Proof. intros A a s o s' H E. inversion E; subst. exact H. Qed.

Lemma preserves_throw : forall A (e : Error), preserves (throw e : MM A).
Proof. intros A e s o s' H E. inversion E; subst. exact H. Qed.

Lemma preserves_gets : forall A (f : State -> A), preserves (gets f).
Proof. intros A f s o s' H E. inversion E; subst. exact H. Qed.

Lemma preserves_modify :
  forall f : State -> State,
    (forall s, P s -> P (f s)) -> preserves (modify f).
Proof. intros f Hf s o s' H E. inversion E; subst. apply Hf, H. Qed.

Lemma preserves_bind :
  forall A B (c : MM A) (k : A -> MM B),
    preserves c -> (forall a, preserves (k a)) -> preserves (bind c k).
Proof.
  intros A B c k Hc Hk s o s' H E. unfold bind in E.
  destruct (c s) as [[a|e] s1] eqn:E1.
  - eapply Hk; [eapply Hc; eassumption | exact E].
  - inversion E; subst. eapply Hc; eassumption.
Qed.

Lemma preserves_try_catch :
  forall A (c : MM A) (h : Error -> MM A),
    preserves c -> (forall e, preserves (h e)) -> preserves (try_catch c h).
Proof.
  intros A c h Hc Hh s o s' H E. unfold try_catch in E.
  destruct (c s) as [[a|e] s1] eqn:E1.
  - inversion E; subst. eapply Hc; eassumption.
  - eapply Hh; [eapply Hc; eassumption | exact E].
Qed.

Hypothesis P_perf : forall s n, P s -> P (set_perfReads n s).
Hypothesis P_attempt : forall s pid, P s -> P (log_attempt pid s).
Hypothesis P_contact : forall s pid, P s -> P (log_contact pid s).

Lemma preserves_perf_now : preserves (perf_now env).
Proof. intros s o s' H E. inversion E; subst. apply P_perf, H. Qed.

Lemma preserves_client_call :
  forall p m r, preserves (client_call env p m r).
Proof.
  intros p m r s o s' H E. unfold client_call in E.
  destruct (client_create _ _ _ _ _); inversion E; subst;
    apply P_contact, H.
Qed.

Ltac pres :=
  repeat
    match goal with
    | |- preserves (bind _ _) => apply preserves_bind; [|intros ?]
    | |- preserves (try_catch _ _) => apply preserves_try_catch; [|intros ?]
    | |- preserves (ret _) => apply preserves_ret
    | |- preserves (throw _) => apply preserves_throw
    | |- preserves (gets _) => apply preserves_gets
    | |- preserves (perf_now _) => apply preserves_perf_now
    | |- preserves (client_call _ _ _ _) => apply preserves_client_call
    | |- preserves (match ?x with _ => _ end) => destruct x
    end.

Lemma preserves_executeRequest :
  forall p r, preserves (executeRequest env p r).
Proof.
  intros p r. unfold executeRequest. pres.
  apply preserves_modify. intros s H. apply P_attempt, H.
Qed.

Hypothesis P_update :
  forall pid c l, preserves (updateProviderMetrics env pid true c l).

Lemma preserves_failover_loop :
  forall ps r t, preserves (failover_loop env ps r t).
Proof.
  intros ps r t. induction ps as [|p ps IH]; cbn [failover_loop].
  - apply preserves_throw.
  - apply preserves_try_catch; [|intros _; exact IH].
    apply preserves_bind; [apply preserves_executeRequest|intros resp].
    pres. apply P_update.
Qed.

Lemma preserves_processRequest_catch :
  forall r t e, preserves (processRequest_catch env r t e).
Proof.
  intros r t e. unfold processRequest_catch, attemptFailover. pres.
  apply preserves_failover_loop.
Qed.

Hypothesis P_cache : forall s c n, P s -> P (set_cache_clock c n s).

Lemma preserves_apiCache_get : forall k, preserves (apiCache_get env k).
Proof.
  intros k s o s' H E. unfold apiCache_get in E.
  destruct (ContentCache.get _ _ _ _) as [[r n] c].
  inversion E; subst. apply P_cache, H.
Qed.

Lemma preserves_apiCache_set :
  forall k v ttl, preserves (apiCache_set env k v ttl).
Proof.
  intros k v ttl s o s' H E. unfold apiCache_set in E.
  destruct (ContentCache.set _ _ _ _ _ _) as [n c].
  inversion E; subst. apply P_cache, H.
Qed.

Lemma preserves_processRequest :
  forall r, preserves (processRequest env r).
Proof.
  intros r. unfold processRequest.
  apply preserves_bind; [apply preserves_perf_now|intros t].
  apply preserves_try_catch;
    [|intros e; apply preserves_processRequest_catch].
  unfold processRequest_try.
  apply preserves_bind; [apply preserves_apiCache_get|intros cached].
  destruct cached; [apply preserves_ret|].
  apply preserves_bind; [apply preserves_gets|intros sel].
  destruct sel as [p|]; [|apply preserves_throw].
  apply preserves_bind; [apply preserves_executeRequest|intros resp].
  apply preserves_bind; [apply preserves_perf_now|intros t1].
  apply preserves_bind; [apply P_update|intros u].
  apply preserves_bind; [apply preserves_apiCache_set|intros u'].
  apply preserves_ret.
Qed.

End Preservation.

(** ** What a request and a health check leave alone *)

(** The fields of a provider that only [registerProvider] writes. *)
Definition same_static (p0 p : AIProvider) : Prop :=
  id p = id p0 /\ name p = name p0 /\ provider_type p = provider_type p0 /\
  models p = models p0 /\ pricing p = pricing p0 /\ limits p = limits p0.

(** Two registries with the same keys in the same order, whose providers
    are related by [R] entry by entry. *)
Definition registry_rel (R : AIProvider -> AIProvider -> Prop)
    (m0 m : JSMap.t AIProvider) : Prop :=
  Forall2 (fun a b => fst b = fst a /\ R (snd a) (snd b)) m0 m.

Lemma same_static_refl : forall p, same_static p p.
Proof. intros p. repeat split. Qed.

Lemma same_static_set :
  forall p0 p pf st,
    same_static p0 p -> same_static p0 (set_performance_status pf st p).
Proof. intros p0 p pf st H. exact H. Qed.

Lemma registry_rel_refl :
  forall (R : AIProvider -> AIProvider -> Prop) m,
    (forall p, R p p) -> registry_rel R m m.
Proof.
  intros R m HR. induction m as [|a m IH]; constructor; auto.
Qed.

Lemma registry_rel_set :
  forall (R : AIProvider -> AIProvider -> Prop) m0 m k p p',
    registry_rel R m0 m ->
    JSMap.get k m = Some p ->
    (forall p0, R p0 p -> R p0 p') ->
    registry_rel R m0 (JSMap.set k p' m).
Proof.
  intros R m0 m k p p' Hrel. revert p p'.
  induction Hrel as [|[k0 v0] [k1 v1] m0 m [Hk Hv] Hrel IH];
    intros p p' Hget HR; cbn in *; [discriminate|].
  destruct (String.eqb k1 k).
  - injection Hget as <-. constructor; [|exact Hrel].
    split; [exact Hk | apply HR, Hv].
  - constructor; [split; assumption|]. eapply IH; eassumption.
Qed.

Lemma registry_rel_get :
  forall (R : AIProvider -> AIProvider -> Prop) m0 m k p,
    registry_rel R m0 m ->
    JSMap.get k m = Some p ->
    exists p0, JSMap.get k m0 = Some p0 /\ R p0 p.
Proof.
  intros R m0 m k p Hrel.
  induction Hrel as [|[k0 v0] [k1 v1] m0 m [Hk Hv] Hrel IH];
    intros Hget; cbn in *; [discriminate|].
  subst k1. destruct (String.eqb k0 k).
  - injection Hget as <-. exists v0. split; [reflexivity | exact Hv].
  - apply IH, Hget.
Qed.

Lemma updateProviderMetrics_unknown :
  forall env pid ok c l s,
    JSMap.get pid (providers s) = None ->
    updateProviderMetrics env pid ok c l s = (Ok tt, s).
Proof.
  intros env pid ok c l s Hget.
  unfold updateProviderMetrics, bind, gets. rewrite Hget. reflexivity.
Qed.

Lemma capped_le : forall h, (List.length (capped h) <= 1000)%nat.
Proof.
  intros h. unfold capped.
  destruct (Nat.ltb_spec 1000 (List.length h)).
  - apply slice_last_length.
  - assumption.
Qed.

Lemma filter_all :
  forall (A : Type) (f : A -> bool) (l : list A),
    Forall (fun x => f x = true) l -> filter f l = l.
Proof.
  intros A f l H. induction H as [|x l Hx H IH]; cbn; [reflexivity|].
  rewrite Hx, IH. reflexivity.
Qed.

Lemma windowRate_all_successes :
  forall recent,
    recent <> [] -> (List.length recent <= 100)%nat ->
    Forall (fun x => success x = true) recent ->
    windowRate recent = 1%float.
Proof.
  intros recent Hne Hlen Hall. rewrite windowRate_ratio.
  rewrite (filter_all _ Hall).
  apply (@NumberFacts.ratio_in_unit (List.length recent) (List.length recent)).
  - lia.
  - destruct recent; [congruence | cbn [List.length] in *; lia].
Qed.

Lemma ProviderStatus_eqb_eq :
  forall a b, ProviderStatus_eqb a b = true -> a = b.
Proof. intros [] [] H; try reflexivity; discriminate. Qed.

(** Whatever the request and whatever the backends answer,
    [processRequest] leaves the registry with the same keys in the same
    order and every provider with its id, name, type, models, pricing and
    limits; it marks no provider [offline] that was not; it leaves the
    strategy and the failover switch; and the history it leaves has at
    most a thousand records, unless it was longer and is untouched. *)
Theorem processRequest_keeps_registry_shape :
  forall (env : Env) (r : AIRequest) (s : State),
    let s' := snd (processRequest env r s) in
    registry_rel
      (fun p0 p => same_static p0 p /\
                   (status p = offline -> status p0 = offline))
      (providers s) (providers s') /\
    loadBalancer s' = loadBalancer s /\
    failoverEnabled s' = failoverEnabled s /\
    (List.length (requestHistory s')
     <= Nat.max (List.length (requestHistory s)) 1000)%nat.
Proof.
  intros env r s. cbv zeta.
  set (R := fun p0 p : AIProvider =>
              same_static p0 p /\ (status p = offline -> status p0 = offline)).
  set (P := fun x : State =>
              registry_rel R (providers s) (providers x) /\
              loadBalancer x = loadBalancer s /\
              failoverEnabled x = failoverEnabled s /\
              (List.length (requestHistory x)
               <= Nat.max (List.length (requestHistory s)) 1000)%nat).
  assert (HP : P s).
  { unfold P. repeat split; try lia.
    apply registry_rel_refl. intros p. split; [apply same_static_refl|auto]. }
  refine (@preserves_processRequest env P _ _ _ _ _ r s _ _ HP
            (surjective_pairing _)); try (intros; assumption).
  intros pid c l x o x' (H1 & H2 & H3 & H4) E.
  destruct (JSMap.get pid (providers x)) as [p|] eqn:Hget.
  - destruct (updateProviderMetrics_effect env pid true c l x Hget)
      as (x1 & lf & Hrun & Hh & Hp & _ & Hlb & Hfe & _).
    rewrite Hrun in E. injection E as _ <-.
    unfold P. rewrite Hh, Hp, Hlb, Hfe. repeat split; try assumption.
    + eapply registry_rel_set; [exact H1 | exact Hget |].
      intros p0 (Hs & Ho). split; [exact Hs|].
      cbn [status set_performance_status]. intros Hoff.
      exfalso. exact (OrchestratorFacts.statusFor_never_offline _ Hoff).
    + pose proof (capped_le (requestHistory x ++ [newRecord env x pid true c l])).
      lia.
  - rewrite (updateProviderMetrics_unknown env pid true c l x Hget) in E.
    injection E as _ <-. unfold P. auto.
Qed.

(** A success recorded on a history of successes: the provider becomes
    [active] with success rate 1. *)
Lemma update_on_successes :
  forall env pid c l x p,
    Forall (fun y => success y = true) (requestHistory x) ->
    JSMap.get pid (providers x) = Some p ->
    exists x1 pf,
      updateProviderMetrics env pid true c l x = (Ok tt, x1) /\
      Forall (fun y => success y = true) (requestHistory x1) /\
      recentRequests pid (requestHistory x1) <> [] /\
      successRate pf = 1%float /\
      providers x1 =
        JSMap.set pid (set_performance_status pf active p) (providers x).
Proof.
  intros env pid c l x p H1 Hget.
  destruct (updateProviderMetrics_effect env pid true c l x Hget)
    as (x1 & lf & Hrun & Hh & Hp & _).
  assert (Hall1 : Forall (fun y => success y = true) (requestHistory x1)).
  { rewrite Hh. apply Forall_forall. intros y Hy.
    apply capped_incl in Hy. apply in_app_or in Hy.
    destruct Hy as [Hy|[<-|[]]]; [|reflexivity].
    rewrite Forall_forall in H1. apply H1, Hy. }
  assert (Hne : recentRequests pid (requestHistory x1) <> []).
  { rewrite Hh.
    destruct (@recent_snoc pid (requestHistory x)
                (newRecord env x pid true c l) eq_refl) as (pre & ->).
    destruct pre; discriminate. }
  assert (Hrate : windowRate (recentRequests pid (requestHistory x1))
                  = 1%float).
  { apply (windowRate_all_successes Hne (recentRequests_length pid _)).
    apply Forall_forall. intros y Hy. apply recent_incl in Hy.
    rewrite Forall_forall in Hall1. apply Hall1, Hy. }
  exists x1. eexists. split; [exact Hrun|]. split; [exact Hall1|].
  split; [exact Hne|]. rewrite Hp, Hrate.
  split; [|reflexivity]. reflexivity.
Qed.

(** What holds of the registry after [processRequest] on a history of
    successes, for a relation kept by the updates just described. *)
Lemma processRequest_on_successes :
  forall (env : Env) (R : AIProvider -> AIProvider -> Prop)
         (r : AIRequest) (s : State),
    (forall p, R p p) ->
    (forall p0 p pf,
        R p0 p -> successRate pf = 1%float ->
        R p0 (set_performance_status pf active p)) ->
    Forall (fun x => success x = true) (requestHistory s) ->
    Forall (fun x => success x = true)
      (requestHistory (snd (processRequest env r s))) /\
    registry_rel R (providers s) (providers (snd (processRequest env r s))).
Proof.
  intros env R r s Hrefl Hstep Hall.
  set (P := fun x : State =>
              Forall (fun y => success y = true) (requestHistory x) /\
              registry_rel R (providers s) (providers x)).
  assert (HP : P s).
  { split; [exact Hall|]. apply registry_rel_refl, Hrefl. }
  refine (@preserves_processRequest env P _ _ _ _ _ r s _ _ HP
            (surjective_pairing _)); try (intros; assumption).
  intros pid c l x o x' (H1 & H2) E.
  destruct (JSMap.get pid (providers x)) as [p|] eqn:Hget.
  - destruct (update_on_successes env pid c l x H1 Hget)
      as (x1 & pf & Hrun & Hall1 & _ & Hrate & Hp).
    rewrite Hrun in E. injection E as _ <-.
    split; [exact Hall1|]. rewrite Hp.
    eapply registry_rel_set; [exact H2 | exact Hget |].
    intros p0 H0. apply Hstep; assumption.
  - rewrite (updateProviderMetrics_unknown env pid true c l x Hget) in E.
    injection E as _ <-. split; assumption.
Qed.

(** [processRequest] records successes only: on a history without a
    failure it leaves a history without a failure, and every provider is
    either as it was or [active] with success rate 1. *)
Theorem processRequest_records_only_successes :
  forall (env : Env) (r : AIRequest) (s : State),
    Forall (fun x => success x = true) (requestHistory s) ->
    let s' := snd (processRequest env r s) in
    Forall (fun x => success x = true) (requestHistory s') /\
    registry_rel
      (fun p0 p => p = p0 \/
                   (status p = active /\
                    successRate (performance p) = 1%float))
      (providers s) (providers s').
Proof.
  intros env r s Hall. cbv zeta.
  apply processRequest_on_successes; [| |exact Hall].
  - intros p. left. reflexivity.
  - intros p0 p pf _ Hrate. right. split; [reflexivity | exact Hrate].
Qed.

(** The [catch] block of [processRequest], failover included, never
    writes the response cache: the response of a fallback provider is
    returned but not stored. *)
Theorem failover_never_writes_the_cache :
  forall (env : Env) (r : AIRequest) (t : number) (e : Error) (s : State),
    apiCache (snd (processRequest_catch env r t e s)) = apiCache s.
Proof.
  intros env r t e s.
  set (P := fun x : State => apiCache x = apiCache s).
  refine (@preserves_processRequest_catch env P _ _ _ _ r t e s _ _ eq_refl
            (surjective_pairing _)); try (intros; assumption).
  intros pid c l x o x' H E.
  destruct (JSMap.get pid (providers x)) as [p|] eqn:Hget.
  - destruct (updateProviderMetrics_effect env pid true c l x Hget)
      as (x1 & lf & Hrun & _ & _ & Hc & _).
    rewrite Hrun in E. injection E as _ <-. unfold P. rewrite Hc. exact H.
  - rewrite (updateProviderMetrics_unknown env pid true c l x Hget) in E.
    injection E as _ <-. exact H.
Qed.

Lemma healthCheckLoop_returns :
  forall env pids s, fst (healthCheckLoop env pids s) = Ok tt.
Proof.
  intros env pids. induction pids as [|pid rest IH]; intros s;
    cbn [healthCheckLoop]; [reflexivity|].
  unfold bind.
  destruct (healthCheckOne env pid s) as [[[]|e] s1] eqn:E1; [apply IH|].
  exfalso. unfold healthCheckOne, bind, gets in E1.
  destruct (JSMap.get pid (providers s)) as [p|]; [|discriminate].
  unfold try_catch, bind in E1.
  destruct (executeRequest env p healthProbe s) as [[x|e'] s2];
    discriminate.
Qed.

(** A health check never throws, records nothing in the history, writes
    nothing to the cache, keeps the keys and the order of the registry and
    everything of a provider but its status, marks no provider [offline]
    and leaves a [degraded] provider [degraded], whatever the probe
    returns. *)
Theorem healthCheck_only_moves_offline_up_and_active_down :
  forall (env : Env) (s : State),
    let s' := snd (healthCheck env s) in
    fst (healthCheck env s) = Ok tt /\
    requestHistory s' = requestHistory s /\
    apiCache s' = apiCache s /\
    registry_rel
      (fun p0 p => same_static p0 p /\ performance p = performance p0 /\
                   (status p0 = degraded -> status p = degraded) /\
                   (status p = offline -> status p0 = offline))
      (providers s) (providers s').
Proof.
  intros env s. cbv zeta.
  split; [unfold healthCheck, bind, gets; apply healthCheckLoop_returns|].
  set (R := fun p0 p : AIProvider =>
              same_static p0 p /\ performance p = performance p0 /\
              (status p0 = degraded -> status p = degraded) /\
              (status p = offline -> status p0 = offline)).
  set (P := fun x : State =>
              requestHistory x = requestHistory s /\
              apiCache x = apiCache s /\
              registry_rel R (providers s) (providers x)).
  assert (HP : P s).
  { repeat split. apply registry_rel_refl. intros p.
    split; [apply same_static_refl|]. auto. }
  assert (Hrestatus :
            forall pid from to,
              to <> offline -> from <> degraded ->
              preserves P (restatus pid from to)).
  { intros pid a b Hb Ha. apply preserves_modify.
    intros x (H1 & H2 & H3).
    destruct (JSMap.get pid (providers x)) as [p|] eqn:Hget;
      [|repeat split; assumption].
    destruct (ProviderStatus_eqb (status p) a) eqn:Hst;
      [|repeat split; assumption].
    apply ProviderStatus_eqb_eq in Hst.
    repeat split; try assumption.
    cbn [providers set_providers].
    eapply registry_rel_set; [exact H3 | exact Hget |].
    intros p0 (Hs & Hpf & Hd & Ho).
    repeat split; try apply Hs; try assumption;
      cbn [status set_performance_status]; intros H.
    - exfalso. apply Ha. rewrite <- Hst. apply Hd, H.
    - exfalso. apply Hb, H. }
  assert (Hloop : forall pids, preserves P (healthCheckLoop env pids)).
  { induction pids as [|pid rest IH]; cbn [healthCheckLoop];
      [apply preserves_ret|].
    apply preserves_bind; [|intros _; exact IH].
    unfold healthCheckOne.
    apply preserves_bind; [apply preserves_gets|intros ps].
    destruct (JSMap.get pid ps); [|apply preserves_ret].
    apply preserves_try_catch.
    - apply preserves_bind.
      + apply preserves_executeRequest; intros; assumption.
      + intros _. apply Hrestatus; discriminate.
    - intros _. apply Hrestatus; discriminate. }
  unfold healthCheck.
  refine (@preserves_bind P _ _ _ _ _ _ s _ _ HP (surjective_pairing _)).
  - apply preserves_gets.
  - intros ps. apply Hloop.
Qed.

(** ** The status after the updates the manager makes *)






(** ** One request, at most one update *)

(** Every key of the registry is the id of its provider, as
    [registerProvider] makes it. *)
Definition keyed (m : JSMap.t AIProvider) : Prop :=
  forall k p, In (k, p) m -> k = id p.

Lemma keyed_get :
  forall m p,
    JSMapFacts.wf m -> keyed m -> In p (JSMap.values m) ->
    JSMap.get (id p) m = Some p.
Proof.
  intros m p Hwf Hk Hin. unfold JSMap.values in Hin.
  apply in_map_iff in Hin. destruct Hin as ([k q] & Hq & Hin).
  cbn in Hq. subst q. apply JSMapFacts.In_get_wf; [exact Hwf|].
  rewrite <- (Hk _ _ Hin). exact Hin.
Qed.

Lemma registerProvider_keeps_keyed :
  forall p s,
    JSMapFacts.wf (providers s) /\ keyed (providers s) ->
    JSMapFacts.wf (providers (snd (registerProvider p s))) /\
    keyed (providers (snd (registerProvider p s))).
Proof.
  intros p s (Hwf & Hk). cbn. split.
  - apply JSMapFacts.wf_set, Hwf.
  - clear Hwf. unfold keyed in *. induction (providers s) as [|[k0 v0] m IH];
      cbn; intros k q Hin.
    + destruct Hin as [E|[]]. inversion E; subst. reflexivity.
    + destruct (String.eqb_spec k0 (id p)) as [E|E].
      * destruct Hin as [E'|Hin].
        -- inversion E'; subst. reflexivity.
        -- apply Hk. right. exact Hin.
      * destruct Hin as [E'|Hin].
        -- apply Hk. left. exact E'.
        -- apply IH; [|exact Hin]. intros k' q' H'. apply Hk. right. exact H'.
Qed.

(** The registry and the history are as they were. *)
Definition untouched (s x : State) : Prop :=
  providers x = providers s /\ requestHistory x = requestHistory s /\
  loadBalancer x = loadBalancer s.

(** One provider, not offline, was updated and one success recorded for
    it. *)
Definition updated_one (env : Env) (s x : State) : Prop :=
  exists p pf st c l n,
    In p (JSMap.values (providers s)) /\
    status p <> offline /\ st <> offline /\
    providers x = JSMap.set (id p) (set_performance_status pf st p)
                    (providers s) /\
    requestHistory x =
      capped (requestHistory s ++
              [{| timestamp := Date_now env n; providerId := id p;
                  success := true; record_cost := c;
                  record_latency := l |}]).

Section OneUpdate.

Variable env : Env.

Lemma untouched_refl : forall s, untouched s s.
Proof. intros s. repeat split. Qed.

Lemma untouched_trans :
  forall a b c, untouched a b -> untouched b c -> untouched a c.
Proof.
  intros a b c (H1 & H2 & H3) (H4 & H5 & H6).
  repeat split; congruence.
Qed.

Lemma untouched_perf_now :
  forall s o s', perf_now env s = (o, s') -> untouched s s'.
Proof.
  intros s o s' E.
  refine (@preserves_perf_now env (untouched s) _ s o s' (untouched_refl s) E).
  intros x n H. exact H.
Qed.

Lemma untouched_executeRequest :
  forall p r s o s', executeRequest env p r s = (o, s') -> untouched s s'.
Proof.
  intros p r s o s' E.
  refine (@preserves_executeRequest env (untouched s) _ _ _ p r s o s'
            (untouched_refl s) E); intros; assumption.
Qed.

Lemma untouched_apiCache_get :
  forall k s o s',
    apiCache_get env k s = (o, s') ->
    untouched s s' /\ attempted s' = attempted s /\
    contacted s' = contacted s /\
    failoverEnabled s' = failoverEnabled s /\
    o = Ok (fst (fst (ContentCache.get (Date_now env) k (dateReads s)
                        (apiCache s)))).
Proof.
  intros k s o s' E. unfold apiCache_get in E.
  destruct (ContentCache.get _ _ _ _) as [[v n] c].
  inversion E; subst. repeat split.
Qed.

Lemma untouched_apiCache_set :
  forall k v ttl s o s',
    apiCache_set env k v ttl s = (o, s') -> untouched s s' /\ o = Ok tt.
Proof.
  intros k v ttl s o s' E. unfold apiCache_set in E.
  destruct (ContentCache.set _ _ _ _ _ _) as [n c].
  inversion E; subst. repeat split.
Qed.

Lemma update_selected :
  forall p c l s0 s,
    JSMapFacts.wf (providers s0) -> keyed (providers s0) ->
    untouched s0 s ->
    In p (JSMap.values (providers s0)) ->
    status p <> offline ->
    exists s',
      updateProviderMetrics env (id p) true c l s = (Ok tt, s') /\
      updated_one env s0 s'.
Proof.
  intros p c l s0 s Hwf Hk (U1 & U2 & U3) Hin Hst.
  assert (Hget : JSMap.get (id p) (providers s) = Some p).
  { rewrite U1. apply keyed_get; assumption. }
  destruct (updateProviderMetrics_effect env (id p) true c l s Hget)
    as (s' & lf & Hrun & Hh & Hp & _).
  exists s'. split; [exact Hrun|].
  exists p. eexists. eexists. exists c, l, (dateReads s).
  split; [exact Hin|]. split; [exact Hst|].
  split; [apply OrchestratorFacts.statusFor_never_offline|].
  rewrite <- U1, <- U2. split; [exact Hp | exact Hh].
Qed.

Lemma failover_loop_one_update :
  forall r t ps s0 s o s',
    JSMapFacts.wf (providers s0) -> keyed (providers s0) ->
    untouched s0 s ->
    (forall p, In p ps ->
               In p (JSMap.values (providers s0)) /\ status p <> offline) ->
    failover_loop env ps r t s = (o, s') ->
    untouched s0 s' \/ updated_one env s0 s'.
Proof.
  intros r t ps s0. induction ps as [|p ps IH];
    intros s o s' Hwf Hk U Hps E; cbn [failover_loop] in E.
  - inversion E; subst. left. exact U.
  - unfold try_catch, bind in E.
    destruct (executeRequest env p r s) as [[resp|e] s1] eqn:E1.
    + apply untouched_executeRequest in E1.
      destruct (perf_now env s1) as [[t1|e1] s2] eqn:E2;
        [|unfold perf_now in E2; discriminate].
      apply untouched_perf_now in E2.
      destruct (Hps p (or_introl eq_refl)) as (Hin & Hst).
      destruct (@update_selected p (cost (usage resp)) (t1 - t)%float s0 s2 Hwf Hk
                  (untouched_trans (untouched_trans U E1) E2) Hin Hst)
        as (s3 & Hrun & Hone).
      rewrite Hrun in E. inversion E; subst. right. exact Hone.
    + apply untouched_executeRequest in E1.
      eapply IH; [exact Hwf | exact Hk | exact (untouched_trans U E1) | | exact E].
      intros q Hq. apply Hps. right. exact Hq.
Qed.

Lemma remainingProviders_spec :
  forall s p,
    In p (remainingProviders s) <->
    In p (JSMap.values (providers s)) /\ status p = active.
Proof.
  intros s p. unfold remainingProviders. split.
  - intros H.
    apply (Permutation_in _ (OrchestratorFacts.sort_desc_perm _)) in H.
    apply filter_In in H. destruct H as (Hin & Hst).
    split; [exact Hin | apply ProviderStatus_eqb_eq, Hst].
  - intros (Hin & Hst).
    apply (Permutation_in _ (Permutation_sym (OrchestratorFacts.sort_desc_perm _))).
    apply filter_In. split; [exact Hin|]. rewrite Hst. reflexivity.
Qed.

Lemma processRequest_try_one_update :
  forall r t s0 s o s',
    JSMapFacts.wf (providers s0) -> keyed (providers s0) ->
    untouched s0 s ->
    processRequest_try env r t s = (o, s') ->
    untouched s0 s' \/ (updated_one env s0 s' /\ exists resp, o = Ok resp).
Proof.
  intros r t s0 s o s' Hwf Hk U E. unfold processRequest_try, bind in E.
  destruct (apiCache_get env (getCacheKey env r) s) as [o1 s1] eqn:E1.
  apply untouched_apiCache_get in E1.
  destruct E1 as (U1 & _ & _ & _ & ->).
  pose proof (untouched_trans U U1) as U01.
  destruct (fst (fst (ContentCache.get _ _ _ _))) as [v|].
  { inversion E; subst. left. exact U01. }
  unfold gets in E.
  destruct (selectProvider r s1) as [p|] eqn:Hsel;
    [|inversion E; subst; left; exact U01].
  apply selectProvider_In_available in Hsel.
  unfold availableProviders in Hsel.
  apply filter_In in Hsel. destruct Hsel as (Hsel & _).
  apply filter_In in Hsel. destruct Hsel as (Hin & Hst0).
  assert (Hst : status p <> offline)
    by (intros Eo; rewrite Eo in Hst0; discriminate).
  destruct U01 as (V1 & V2 & V3). rewrite V1 in Hin.
  destruct (executeRequest env p r s1) as [[resp|e] s2] eqn:E2;
    apply untouched_executeRequest in E2.
  - destruct (perf_now env s2) as [[t1|e1] s3] eqn:E3;
      [|unfold perf_now in E3; discriminate].
    apply untouched_perf_now in E3.
    destruct (@update_selected p (cost (usage resp)) (t1 - t)%float s0 s3 Hwf Hk
                (untouched_trans (untouched_trans (conj V1 (conj V2 V3)) E2) E3)
                Hin Hst)
      as (s4 & Hrun & Hone).
    rewrite Hrun in E.
    destruct (apiCache_set env (getCacheKey env r) resp (60 * 60 * 1000) s4)
      as [o5 s5] eqn:E5.
    apply untouched_apiCache_set in E5. destruct E5 as ((W1 & W2 & _) & ->).
    inversion E; subst. right. split; [|eexists; reflexivity].
    destruct Hone as (p0 & pf & st & c & l & n & H1 & H2 & H3 & H4 & H5).
    exists p0, pf, st, c, l, n. rewrite W1, W2. repeat split; assumption.
  - inversion E; subst. left.
    exact (untouched_trans (conj V1 (conj V2 V3)) E2).
Qed.

(** On a registry keyed by provider id, one call of [processRequest]
    either leaves registry and history as they are, or updates exactly one
    provider that was not offline and appends one success for it; so an
    offline provider is left exactly as it is. *)
Theorem processRequest_updates_at_most_one_provider :
  forall (r : AIRequest) (s : State),
    JSMapFacts.wf (providers s) ->
    keyed (providers s) ->
    let s' := snd (processRequest env r s) in
    (untouched s s' \/ updated_one env s s') /\
    (forall k q,
        JSMap.get k (providers s) = Some q -> status q = offline ->
        JSMap.get k (providers s') = Some q).
Proof.
  intros r s Hwf Hk. cbv zeta.
  assert (Hstep : untouched s (snd (processRequest env r s)) \/
                  updated_one env s (snd (processRequest env r s))).
  { unfold processRequest, bind.
    destruct (perf_now env s) as [[t|e] s1] eqn:E1;
      [|unfold perf_now in E1; discriminate].
    apply untouched_perf_now in E1. unfold try_catch.
    destruct (processRequest_try env r t s1) as [[resp|e] s2] eqn:E2.
    - destruct (processRequest_try_one_update _ _ Hwf Hk E1 E2)
        as [H|(H & _)]; cbn [snd]; auto.
    - destruct (processRequest_try_one_update _ _ Hwf Hk E1 E2)
        as [H|(_ & resp & Hr)]; [|discriminate].
      unfold processRequest_catch, bind.
      destruct (perf_now env s2) as [[t2|e2] s3] eqn:E3;
        [|unfold perf_now in E3; discriminate].
      apply untouched_perf_now in E3.
      pose proof (untouched_trans H E3) as U3.
      unfold gets. destruct (failoverEnabled s3); [|left; exact U3].
      unfold attemptFailover, bind, gets.
      destruct (failover_loop env (remainingProviders s3) r t s3)
        as [o4 s4] eqn:E4.
      cbn [snd].
      eapply failover_loop_one_update;
        [exact Hwf | exact Hk | exact U3 | | exact E4].
      intros p Hp. apply remainingProviders_spec in Hp.
      destruct Hp as (Hin & Hst). destruct U3 as (V1 & _).
      rewrite V1 in Hin. split; [exact Hin|]. rewrite Hst. discriminate. }
  split; [exact Hstep|].
  intros k q Hget Hoff.
  destruct Hstep as [(U1 & _)|(p & pf & st & c & l & n & Hin & Hst & _ & Hp & _)].
  - rewrite U1. exact Hget.
  - rewrite Hp. destruct (String.eqb_spec k (id p)) as [->|Hne].
    + rewrite (@keyed_get _ _ Hwf Hk Hin) in Hget. injection Hget as <-.
      contradiction.
    + rewrite JSMapFacts.get_set_other; [exact Hget | exact Hne].
Qed.

Lemma filter_none :
  forall (A : Type) (f : A -> bool) (l : list A),
    (forall x, In x l -> f x = false) -> filter f l = [].
Proof.
  intros A f l H. induction l as [|x l IH]; cbn; [reflexivity|].
  rewrite (H x (or_introl eq_refl)). apply IH.
  intros y Hy. apply H. right. exact Hy.
Qed.

Lemma selectProvider_none :
  forall r s,
    Forall (fun p => status p <> active) (JSMap.values (providers s)) ->
    loadBalancer s = round_robin \/
    Forall (fun p => status p = offline) (JSMap.values (providers s)) ->
    selectProvider r s = None.
Proof.
  intros r s Hna Hcase. unfold selectProvider.
  destruct (availableProviders s r) as [|p0 ps] eqn:Ea; [reflexivity|].
  destruct Hcase as [Hrr|Hoff].
  - rewrite Hrr. unfold selectRoundRobin.
    replace (filter (fun p => ProviderStatus_eqb (status p) active) (p0 :: ps))
      with (@nil AIProvider); [reflexivity|].
    symmetry. rewrite <- Ea.
    apply filter_none.
    intros p Hp. unfold availableProviders in Hp.
    apply filter_In in Hp. destruct Hp as (Hp & _).
    apply filter_In in Hp. destruct Hp as (Hp & _).
    rewrite Forall_forall in Hna. specialize (Hna p Hp).
    destruct (status p); cbn; congruence.
  - exfalso.
    assert (Hin : In p0 (availableProviders s r)) by (rewrite Ea; left; reflexivity).
    unfold availableProviders in Hin.
    apply filter_In in Hin. destruct Hin as (Hin & _).
    apply filter_In in Hin. destruct Hin as (Hin & Hst).
    rewrite Forall_forall in Hoff. rewrite (Hoff p0 Hin) in Hst. discriminate.
Qed.

Lemma remainingProviders_none :
  forall s,
    Forall (fun p => status p <> active) (JSMap.values (providers s)) ->
    remainingProviders s = [].
Proof.
  intros s Hna.
  destruct (remainingProviders s) as [|p ps] eqn:E; [reflexivity|].
  exfalso.
  assert (Hin : In p (remainingProviders s)) by (rewrite E; left; reflexivity).
  apply remainingProviders_spec in Hin. destruct Hin as (Hin & Hst).
  rewrite Forall_forall in Hna. exact (Hna p Hin Hst).
Qed.

(** With no active provider, and either the round-robin strategy or every
    provider offline, [processRequest] contacts nobody: it returns the
    cached response if the cache holds a live one for the request, and
    otherwise throws "All providers failed" without a single attempt,
    leaving registry and history as they were. *)
Theorem no_active_provider_means_no_attempt :
  forall (r : AIRequest) (s : State),
    failoverEnabled s = true ->
    Forall (fun p => status p <> active) (JSMap.values (providers s)) ->
    loadBalancer s = round_robin \/
    Forall (fun p => status p = offline) (JSMap.values (providers s)) ->
    let res := processRequest env r s in
    attempted (snd res) = attempted s /\
    contacted (snd res) = contacted s /\
    providers (snd res) = providers s /\
    requestHistory (snd res) = requestHistory s /\
    match fst res with
    | Ok resp =>
        fst (fst (ContentCache.get (Date_now env) (getCacheKey env r)
                    (dateReads s) (apiCache s))) = Some resp
    | Throw e => e = AllProvidersFailed
    end.
Proof.
  intros r s Hfe Hna Hcase. cbv zeta.
  unfold processRequest, bind, perf_now, try_catch, processRequest_try, bind.
  destruct (apiCache_get env (getCacheKey env r)
              (set_perfReads (S (perfReads s)) s)) as [o1 s1] eqn:E1.
  apply untouched_apiCache_get in E1.
  destruct E1 as ((U1 & U2 & U3) & A1 & C1 & F1 & ->).
  cbn [dateReads apiCache set_perfReads providers requestHistory loadBalancer
       attempted contacted failoverEnabled] in *.
  destruct (fst (fst (ContentCache.get _ _ _ _))) as [v|].
  { cbn [fst snd]. repeat split; assumption. }
  unfold gets. rewrite selectProvider_none;
    [|rewrite U1; exact Hna|rewrite U1, U3; exact Hcase].
  unfold throw, processRequest_catch, bind, perf_now, gets.
  cbn [failoverEnabled set_perfReads]. rewrite F1, Hfe.
  unfold attemptFailover, bind, gets.
  rewrite remainingProviders_none;
    [|cbn [providers set_perfReads]; rewrite U1; exact Hna].
  cbn. repeat split; assumption.
Qed.

End OneUpdate.

(** ** The statements on the registered providers *)

Lemma selectProvider_returns_a_candidate_witness :
  In openaiProvider (JSMap.values (providers initialized)) /\
  status openaiProvider <> offline /\
  hasCapableModel openaiProvider (sample_request "Hello") = true.
Proof.
  apply (@selectProvider_returns_a_candidate (sample_request "Hello")
           initialized openaiProvider).
  vm_compute. reflexivity.
Defined.

Lemma selectByPerformance_selects_first_best_witness :
  exists p,
    selectByPerformance [slow_reliable; fast_flaky] = Some p /\
    best_by performanceScore [slow_reliable; fast_flaky] p.
Proof.
  apply selectByPerformance_selects_first_best.
  discriminate.
Defined.

Lemma selectModel_prefers_the_tier_of_the_request_witness :
  exists m rest,
    selectModel anthropicProvider
      {| request_type := text_generation; prompt := "Hello";
         maxTokens := None; temperature := None; model := None;
         priority := Some low; budget := None; requirements := None |}
    = Some m /\
    costTier m = tier_low /\
    suits {| request_type := text_generation; prompt := "Hello";
             maxTokens := None; temperature := None; model := None;
             priority := Some low; budget := None; requirements := None |}
          m = true /\
    filter (fun x => CostTier_eqb (costTier x) tier_low)
      (filter (suits {| request_type := text_generation; prompt := "Hello";
                        maxTokens := None; temperature := None;
                        model := None; priority := Some low;
                        budget := None; requirements := None |})
         (models anthropicProvider)) = m :: rest.
Proof.
  apply selectModel_prefers_the_tier_of_the_request.
  - reflexivity.
  - eexists. split; [right; left; reflexivity|]. split; reflexivity.
Defined.



Lemma executeRequest_unsupported_type_contacts_nothing_witness :
  exists s',
    executeRequest (sample_env (Some sample_reply)) googleProvider
      (sample_request "Hello") initialized = (Throw TypeError, s') /\
    contacted s' = contacted initialized /\
    attempted s' = attempted initialized ++ [id googleProvider] /\
    OrchestratorFacts.same_core initialized s' /\
    apiCache s' = apiCache initialized.
Proof.
  apply (@executeRequest_unsupported_type_contacts_nothing
           (sample_env (Some sample_reply)) googleProvider
           (sample_request "Hello") initialized); discriminate.
Defined.

Lemma executeRequest_response_shape_witness :
  provider sample_exec_response = id openaiProvider /\
  (exists m, In m (models openaiProvider) /\
             response_model sample_exec_response = model_id m) /\
  cost (usage sample_exec_response) =
    calculateCost openaiProvider
      (usage_inputTokens (usage sample_exec_response))
      (usage_outputTokens (usage sample_exec_response)) /\
  contacted (snd sample_exec) = contacted initialized ++ [id openaiProvider] /\
  attempted (snd sample_exec) = attempted initialized ++ [id openaiProvider] /\
  OrchestratorFacts.same_core initialized (snd sample_exec) /\
  apiCache (snd sample_exec) = apiCache initialized.
Proof.
  apply (@executeRequest_response_shape (sample_env (Some sample_reply))
           openaiProvider (sample_request "Hello") initialized
           (snd sample_exec) sample_exec_response).
  vm_compute. reflexivity.
Defined.

Lemma updateProviderMetrics_recomputes_the_window_witness :
  exists p',
    JSMap.get "openai"
      (providers (snd (updateProviderMetrics (sample_env None) "openai" false
                         0 250 initialized))) = Some p' /\
    (1 <= List.length
            (recentRequests "openai"
               (requestHistory
                  (snd (updateProviderMetrics (sample_env None) "openai"
                          false 0 250 initialized)))) <= 100)%nat /\
    successRate (performance p') =
      windowRate
        (recentRequests "openai"
           (requestHistory
              (snd (updateProviderMetrics (sample_env None) "openai"
                      false 0 250 initialized)))) /\
    averageLatency (performance p') =
      windowLatency
        (recentRequests "openai"
           (requestHistory
              (snd (updateProviderMetrics (sample_env None) "openai"
                      false 0 250 initialized)))) /\
    ((0 <=? successRate (performance p'))%float = true /\
     (successRate (performance p') <=? 1)%float = true) /\
    status p' =
      (if (0.8 <=? successRate (performance p'))%float
       then active else degraded).
Proof.
  apply (@updateProviderMetrics_recomputes_the_window (sample_env None)
           "openai" false 0 250 initialized openaiProvider).
  reflexivity.
Defined.

Lemma processRequest_records_only_successes_witness :
  Forall (fun x => success x = true)
    (requestHistory
       (snd (processRequest (sample_env (Some sample_reply))
               (sample_request "Bonjour") (snd first_run)))) /\
  registry_rel
    (fun p0 p => p = p0 \/
                 (status p = active /\
                  successRate (performance p) = 1%float))
    (providers (snd first_run))
    (providers
       (snd (processRequest (sample_env (Some sample_reply))
               (sample_request "Bonjour") (snd first_run)))).
Proof.
  apply (@processRequest_records_only_successes
           (sample_env (Some sample_reply)) (sample_request "Bonjour")
           (snd first_run)).
  vm_compute. repeat constructor.
Defined.

Lemma initialized_keyed :
  JSMapFacts.wf (providers initialized) /\ keyed (providers initialized).
Proof.
  unfold initialized. do 2 apply registerProvider_keeps_keyed.
  split; [constructor | intros k p []].
Qed.

Lemma processRequest_updates_at_most_one_provider_witness :
  (untouched initialized
     (snd (processRequest openai_down_env (sample_request "Hello")
             initialized)) \/
   updated_one openai_down_env initialized
     (snd (processRequest openai_down_env (sample_request "Hello")
             initialized))) /\
  (forall k q,
      JSMap.get k (providers initialized) = Some q -> status q = offline ->
      JSMap.get k
        (providers
           (snd (processRequest openai_down_env (sample_request "Hello")
                   initialized))) = Some q).
Proof.
  apply (@processRequest_updates_at_most_one_provider openai_down_env
           (sample_request "Hello") initialized);
    apply initialized_keyed.
Defined.

Lemma no_active_provider_means_no_attempt_witness :
  attempted
    (snd (processRequest (sample_env (Some sample_reply))
            (sample_request "Hello") shaky_round_robin))
  = attempted shaky_round_robin /\
  contacted
    (snd (processRequest (sample_env (Some sample_reply))
            (sample_request "Hello") shaky_round_robin))
  = contacted shaky_round_robin /\
  providers
    (snd (processRequest (sample_env (Some sample_reply))
            (sample_request "Hello") shaky_round_robin))
  = providers shaky_round_robin /\
  requestHistory
    (snd (processRequest (sample_env (Some sample_reply))
            (sample_request "Hello") shaky_round_robin))
  = requestHistory shaky_round_robin /\
  match
    fst (processRequest (sample_env (Some sample_reply))
           (sample_request "Hello") shaky_round_robin)
  with
  | Ok resp =>
      fst (fst (ContentCache.get (Date_now (sample_env (Some sample_reply)))
                  (getCacheKey (sample_env (Some sample_reply))
                     (sample_request "Hello"))
                  (dateReads shaky_round_robin)
                  (apiCache shaky_round_robin))) = Some resp
  | Throw e => e = AllProvidersFailed
  end.
Proof.
  apply (@no_active_provider_means_no_attempt
           (sample_env (Some sample_reply)) (sample_request "Hello")
           shaky_round_robin).
  - reflexivity.
  - repeat constructor. discriminate.
  - left. reflexivity.
Defined.

End ManagerFacts.
